(** * Postman lint server: governance scorer and validation orchestrator

    A shallow embedding of [server/src/server.ts] (the language server's
    validation orchestrator), [server/src/linting/governance-scorer.ts]
    (process invocation, output parser, summary and score) and the shared
    helpers [toDiagnostic] / [createRange].

    Conventions of the embedding:
    - a JavaScript string is the list of its UTF-16 code units ([jsstring]);
    - a JavaScript number that counts or indexes is an [N]; a number read
      from text, or computed from one, is rounded to the nearest Number
      ([toNumber]), and 2^1024 stands for Infinity; the score, the only
      fractional number of the program, is an exact rational ([Q]): the
      IEEE rounding of the running subtraction is not modelled;
    - a JavaScript object used as a map (the child's environment) is a
      [gmap];
    - a regular expression literal is a value of [regex], run by a
      backtracking matcher with continuations, in the order the ECMAScript
      matcher tries the alternatives;
    - code that can throw returns a [Completion]; code that talks to the
      editor logs its calls in a trace of [Action]s; what the operating
      system answers (temp-file write, process outcome, clock) is an input. *)

From Stdlib Require Import ZArith NArith QArith Qround Qminmax List String Ascii Bool Lia DecimalN.
From stdpp Require Import gmap.
Import ListNotations.

Local Open Scope N_scope.

(** ** Strings as code units *)

Definition jsstring := list N.

(** A string literal of the source whose characters are all ASCII. *)
Definition u (s : string) : jsstring :=
  List.map N_of_ascii (list_ascii_of_string s).

Definition dquote : N := 34.      (* the double quote *)
Definition vbar : N := 0x2502.    (* box drawings light vertical *)
Definition hbar : N := 0x2500.    (* box drawings light horizontal *)
Definition ESC : N := 0x1b.
Definition LF : N := 10.

Fixpoint str_eqb (a b : jsstring) : bool :=
  match a, b with
  | [], [] => true
  | x :: a', y :: b' => (x =? y) && str_eqb a' b'
  | _, _ => false
  end.

(** [strip_prefix p s] is the rest of [s] after its prefix [p]. *)
Fixpoint strip_prefix (p s : jsstring) : option jsstring :=
  match p, s with
  | [], _ => Some s
  | x :: p', y :: s' => if x =? y then strip_prefix p' s' else None
  | _ :: _, [] => None
  end.

Definition startsWith (p s : jsstring) : bool :=
  match strip_prefix p s with Some _ => true | None => false end.

(** [String.prototype.includes] *)
Fixpoint includes (sub s : jsstring) : bool :=
  startsWith sub s ||
  match s with
  | [] => false
  | _ :: s' => includes sub s'
  end.

(** [String.prototype.endsWith] *)
Definition endsWith (suffix s : jsstring) : bool :=
  startsWith (rev suffix) (rev s).

(** [String.prototype.split] with a separator of one code unit. *)
Fixpoint split_on (sep : N) (s : jsstring) : list jsstring :=
  match s with
  | [] => [[]]
  | x :: s' =>
      match split_on sep s' with
      | cur :: more => if x =? sep then [] :: cur :: more else (x :: cur) :: more
      | [] => [[x]]
      end
  end.

(** [Array.prototype.join] *)
Fixpoint join (sep : jsstring) (l : list jsstring) : jsstring :=
  match l with
  | [] => []
  | [x] => x
  | x :: l' => x ++ sep ++ join sep l'
  end.

(** ECMAScript WhiteSpace and LineTerminator: what [trim] removes and what
    [\s] matches. *)
Definition isLineTerminator (c : N) : bool :=
  (c =? 0x0A) || (c =? 0x0D) || (c =? 0x2028) || (c =? 0x2029).

Definition isSpace (c : N) : bool :=
  ((0x09 <=? c) && (c <=? 0x0D)) || (c =? 0x20) || (c =? 0xA0) ||
  (c =? 0x1680) || ((0x2000 <=? c) && (c <=? 0x200A)) ||
  (c =? 0x2028) || (c =? 0x2029) || (c =? 0x202F) || (c =? 0x205F) ||
  (c =? 0x3000) || (c =? 0xFEFF).

Definition isDigit (c : N) : bool := (48 <=? c) && (c <=? 57).

Definition isUpper (c : N) : bool := (65 <=? c) && (c <=? 90).
Definition isLower (c : N) : bool := (97 <=? c) && (c <=? 122).

(** [\w] *)
Definition isWord (c : N) : bool :=
  isDigit c || isUpper c || isLower c || (c =? 95).

(** [.] without the [s] flag *)
Definition isDot (c : N) : bool := negb (isLineTerminator c).

Fixpoint trimStart (s : jsstring) : jsstring :=
  match s with
  | x :: s' => if isSpace x then trimStart s' else s
  | [] => []
  end.

(** [String.prototype.trim] *)
Definition trim (s : jsstring) : jsstring :=
  rev (trimStart (rev (trimStart s))).

(** [String.prototype.toLowerCase]. The ASCII letters, and the two code
    units outside ASCII whose lower case contains an ASCII letter (KELVIN
    SIGN, LATIN CAPITAL LETTER I WITH DOT ABOVE), are mapped as Unicode
    does; the other cased letters outside ASCII are left as they are: the
    program only compares the result with ASCII words. *)
Definition lowerUnit (c : N) : jsstring :=
  if isUpper c then [c + 32]
  else if c =? 0x212A then [107]
  else if c =? 0x0130 then [105; 0x0307]
  else [c].

Definition toLowerCase (s : jsstring) : jsstring := flat_map lowerUnit s.

(** ** Numbers *)

(** A Number that is a natural number or Infinity is kept as an [N]: the
    finite ones are the [N] below 2^1024 with at most 53 significant bits,
    and 2^1024 stands for Infinity. [toNumber n] is the Number value of the
    mathematical value [n]: [n] itself when it has at most 53 significant
    bits, else the nearest number with 53 significant bits, the one with the
    even significand on a tie, and Infinity from 2^1024 - 2^970 on. *)
Definition toNumber (n : N) : N :=
  if N.size n <=? 53 then n
  else
    let ulp := 2 ^ (N.size n - 53) in
    let q := n / ulp in
    let r := n mod ulp in
    let q' := if (ulp <? 2 * r) || ((2 * r =? ulp) && N.odd q) then q + 1 else q in
    N.min (q' * ulp) (2 ^ 1024).

(** The mathematical value of a string of decimal digits. *)
Definition digitsValue (s : jsstring) : N :=
  fold_left (fun acc d => acc * 10 + (d - 48)) s 0.

(** [parseInt] on a string of decimal digits (the only strings the program
    passes are captures of [\d+]): the Number value of the numeral, all its
    digits taken into account. *)
Definition parseInt (s : jsstring) : N := toNumber (digitsValue s).

(** ** Regular expressions *)

Definition caps := gmap nat jsstring.

(** The fragment of the regular expression language the program uses: every
    quantified atom is a class of one code unit. *)
Inductive regex : Type :=
| Lit (s : jsstring)                  (* literal characters *)
| LitI (s : jsstring)                 (* literal characters under the i flag *)
| Cls (p : N -> bool)                 (* \d \s \w . [...] *)
| Star (greedy : bool) (p : N -> bool) (* p* and p*? *)
| Opt (r : regex)                     (* r? *)
| Grp (i : nat) (r : regex)           (* the i-th capture group *)
| Seq (r1 r2 : regex)
| Eos.                                (* $ *)

Definition Plus (p : N -> bool) : regex := Seq (Cls p) (Star true p).

Definition mres := option (jsstring * caps).

(** Canonicalize of the i flag (without the u flag): upper-case, and never
    map a code unit outside ASCII into ASCII. *)
Definition canonicalize (c : N) : N := if isLower c then c - 32 else c.

Fixpoint strip_prefix_ci (p s : jsstring) : option jsstring :=
  match p, s with
  | [], _ => Some s
  | x :: p', y :: s' =>
      if canonicalize x =? canonicalize y then strip_prefix_ci p' s' else None
  | _ :: _, [] => None
  end.

(** [p*]: the longest run first, then shorter ones. *)
Fixpoint star_greedy (p : N -> bool) (k : jsstring -> mres) (inp : jsstring) : mres :=
  match inp with
  | x :: t =>
      if p x then
        match star_greedy p k t with
        | Some r => Some r
        | None => k inp
        end
      else k inp
  | [] => k []
  end.

(** [p*?]: the empty run first, then longer ones. *)
Fixpoint star_lazy (p : N -> bool) (k : jsstring -> mres) (inp : jsstring) : mres :=
  match k inp with
  | Some r => Some r
  | None =>
      match inp with
      | x :: t => if p x then star_lazy p k t else None
      | [] => None
      end
  end.

(** [rmatch r inp c k]: match [r] at the head of [inp], then continue with
    [k] on the rest; a failure of [k] makes [r] try its next alternative. *)
Fixpoint rmatch (r : regex) (inp : jsstring) (c : caps)
    (k : jsstring -> caps -> mres) : mres :=
  match r with
  | Lit s =>
      match strip_prefix s inp with
      | Some rest => k rest c
      | None => None
      end
  | LitI s =>
      match strip_prefix_ci s inp with
      | Some rest => k rest c
      | None => None
      end
  | Cls p =>
      match inp with
      | x :: t => if p x then k t c else None
      | [] => None
      end
  | Star true p => star_greedy p (fun rest => k rest c) inp
  | Star false p => star_lazy p (fun rest => k rest c) inp
  | Opt r' =>
      match rmatch r' inp c k with
      | Some x => Some x
      | None => k inp c
      end
  | Grp i r' =>
      rmatch r' inp c
        (fun rest c' =>
           k rest (<[i := firstn (length inp - length rest) inp]> c'))
  | Seq r1 r2 => rmatch r1 inp c (fun rest c' => rmatch r2 rest c' k)
  | Eos =>
      match inp with
      | [] => k [] c
      | _ :: _ => None
      end
  end.

Definition accept : jsstring -> caps -> mres := fun rest c => Some (rest, c).

(** A match attempt at the head of the input. *)
Definition match_here (r : regex) (inp : jsstring) : mres :=
  rmatch r inp ∅ accept.

(** [String.prototype.match] with a regular expression without the g flag:
    the first start index at which an attempt succeeds. *)
Fixpoint search (r : regex) (inp : jsstring) : mres :=
  match match_here r inp with
  | Some m => Some m
  | None =>
      match inp with
      | [] => None
      | _ :: t => search r t
      end
  end.

(** [s.replace(r, '')] with the g flag: every match, leftmost first, is
    removed; [skip] counts the code units of the current match that are
    still to be dropped. *)
Fixpoint remove_all (r : regex) (skip : nat) (inp : jsstring) : jsstring :=
  match inp with
  | [] => []
  | x :: t =>
      match skip with
      | S n => remove_all r n t
      | O =>
          match match_here r inp with
          | Some (rest, _) =>
              match (length inp - length rest)%nat with
              | S n => remove_all r n t
              | O => x :: remove_all r 0 t
              end
          | None => x :: remove_all r 0 t
          end
      end
  end.

(** A sequence of regular expressions, as they are written side by side. *)
Fixpoint seqs (l : list regex) : regex :=
  match l with
  | [] => Lit []
  | [r] => r
  | r :: l' => Seq r (seqs l')
  end.

(** ** Data model (shared types) *)

Inductive Severity := SevError | SevWarn | SevInfo | SevHint.

(** The string a severity is at run time. *)
Definition severity_str (s : Severity) : jsstring :=
  match s with
  | SevError => u "error"
  | SevWarn => u "warn"
  | SevInfo => u "info"
  | SevHint => u "hint"
  end.

Record PostmanIssue := mkIssue {
  severity : Severity;
  rule : jsstring;
  message : jsstring;
  path : jsstring;
  line : N;
  column : N
}.

Record IssueSummary := mkSummary {
  total : N;
  error : N;
  warn : N;
  info : N;
  hint : N
}.

(** ** GovernanceScorer: severity, parser, summary, score *)

(** [normalizeSeverity]: the argument is a string at every call of the
    program; the empty string is the falsy one. *)
Definition normalizeSeverity (sev : jsstring) : Severity :=
  match sev with
  | [] => SevHint
  | _ =>
      let cleaned := trim (toLowerCase sev) in
      if str_eqb cleaned (u "error") || str_eqb cleaned (u "errors") then SevError
      else if str_eqb cleaned (u "warn") || str_eqb cleaned (u "warning")
              || str_eqb cleaned (u "warnings") then SevWarn
      else if str_eqb cleaned (u "info") || str_eqb cleaned (u "information") then SevInfo
      else SevHint
  end.

(** [/\x1b\[[0-9;]*m/g] *)
Definition ansiRegex : regex :=
  seqs [Lit (ESC :: u "["); Star true (fun c => isDigit c || (c =? 59)); Lit (u "m")].

(** [/Validation Type:\s*(\w+)/i] *)
Definition validationTypeRegex : regex :=
  seqs [LitI (u "Validation Type:"); Star true isSpace; Grp 1 (Plus isWord)].

(** [/^(\d+):(\d+)$/]: the [^] is the attempt at index 0 ([match_here]). *)
Definition rangeRegex : regex :=
  seqs [Grp 1 (Plus isDigit); Lit (u ":"); Grp 2 (Plus isDigit); Eos].

(** [/.*?(\d+)\s+problems?\s*\((\d+)\s+errors?,\s*(\d+)\s+warnings?,\s*(\d+)\s+infos?,\s*(\d+)\s+hints?\)/] *)
Definition summaryRegex : regex :=
  seqs [Star false isDot;
        Grp 1 (Plus isDigit); Plus isSpace; Lit (u "problem"); Opt (Lit (u "s"));
        Star true isSpace; Lit (u "(");
        Grp 2 (Plus isDigit); Plus isSpace; Lit (u "error"); Opt (Lit (u "s"));
        Lit (u ","); Star true isSpace;
        Grp 3 (Plus isDigit); Plus isSpace; Lit (u "warning"); Opt (Lit (u "s"));
        Lit (u ","); Star true isSpace;
        Grp 4 (Plus isDigit); Plus isSpace; Lit (u "info"); Opt (Lit (u "s"));
        Lit (u ","); Star true isSpace;
        Grp 5 (Plus isDigit); Plus isSpace; Lit (u "hint"); Opt (Lit (u "s"));
        Lit (u ")")].

(** The i-th element of a match array; a group that did not take part is
    the empty string here (the program's groups always take part). *)
Definition group (i : nat) (c : caps) : jsstring := default [] (c !! i).

Definition nonEmpty (s : jsstring) : bool :=
  match s with [] => false | _ :: _ => true end.

Definition isHeaderOrSeparator (row : list jsstring) : bool :=
  existsb (fun cell =>
             includes (u "Range") cell || includes (u "Severity") cell
             || includes [hbar] cell) row.

(** The state of the loop over the lines: the current validation type and
    the issues pushed so far. *)
Definition parseState : Type := jsstring * list PostmanIssue.

(** One iteration of the loop over the lines. *)
Definition parseLine (st : parseState) (ln : jsstring) : parseState :=
  let '(currentValidationType, issues) := st in
  if includes (u "Validation Type:") ln then
    match search validationTypeRegex ln with
    | Some (_, typeMatch) => (toLowerCase (group 1 typeMatch), issues)
    | None => st
    end
  else if negb (includes [vbar] ln) then st
  else
    let row := List.filter nonEmpty (List.map trim (split_on vbar ln)) in
    if isHeaderOrSeparator row then st
    else
      match row with
      | range :: sev :: description :: more =>
          let pathStr := match more with p :: _ => p | [] => [] end in
          let '(ln_, col_) :=
            match match_here rangeRegex range with
            | Some (_, rangeMatch) =>
                (parseInt (group 1 rangeMatch), parseInt (group 2 rangeMatch))
            | None => (0, 0)
            end in
          (currentValidationType,
           issues ++ [ {| severity := normalizeSeverity sev;
                          rule := currentValidationType ++ u "-rule";
                          message := description;
                          path := pathStr;
                          line := ln_;
                          column := col_ |} ])
      | _ => st
      end.

(** The table path: all table rows across the validation types. *)
Definition parseTable (clean : jsstring) : list PostmanIssue :=
  snd (fold_left parseLine (split_on LF clean) (u "governance", [])).

Definition genericIssue (sev : jsstring) (msg : jsstring) : PostmanIssue :=
  {| severity := normalizeSeverity sev;
     rule := u "governance-rule";
     message := msg;
     path := [];
     line := 0;
     column := 0 |}.

(** The fallback path: generic issues from the counts of the summary line.
    Each loop is taken to run to its end, as it does for the counts an array
    can hold. *)
Definition parseFallback (clean : jsstring) : list PostmanIssue :=
  match search summaryRegex clean with
  | Some (_, summaryMatch) =>
      let errors := group 2 summaryMatch in
      let warnings := group 3 summaryMatch in
      let infos := group 4 summaryMatch in
      let hints := group 5 summaryMatch in
      repeat (genericIssue (u "error") (u "Governance error")) (N.to_nat (parseInt errors))
      ++ repeat (genericIssue (u "warning") (u "Governance warning")) (N.to_nat (parseInt warnings))
      ++ repeat (genericIssue (u "info") (u "Governance info")) (N.to_nat (parseInt infos))
      ++ repeat (genericIssue (u "hint") (u "Governance hint")) (N.to_nat (parseInt hints))
  | None => []
  end.

(** One iteration of the loop of [summarizeIssues]. *)
Definition countIssue (s : IssueSummary) (issue : PostmanIssue) : IssueSummary :=
  match normalizeSeverity (severity_str (severity issue)) with
  | SevError => {| total := total s; error := error s + 1; warn := warn s; info := info s; hint := hint s |}
  | SevWarn => {| total := total s; error := error s; warn := warn s + 1; info := info s; hint := hint s |}
  | SevInfo => {| total := total s; error := error s; warn := warn s; info := info s + 1; hint := hint s |}
  | SevHint => {| total := total s; error := error s; warn := warn s; info := info s; hint := hint s + 1 |}
  end.

Definition summarizeIssues (issues : list PostmanIssue) : IssueSummary :=
  fold_left countIssue issues
    {| total := N.of_nat (length issues); error := 0; warn := 0; info := 0; hint := 0 |}.

Definition stripAnsi (stdout : jsstring) : jsstring := remove_all ansiRegex 0 stdout.

Definition parseStdoutToIssuesAndSummary (stdout : jsstring)
  : list PostmanIssue * IssueSummary :=
  let clean := stripAnsi stdout in
  let issues := parseTable clean in
  let issues :=
    match issues with
    | [] => parseFallback clean
    | _ :: _ => issues
    end in
  (issues, summarizeIssues issues).


(** [computeScore]. [Math.round x] is [floor (x + 1/2)]. *)
Definition Math_round (x : Q) : Q := inject_Z (Qfloor (x + (1 # 2))%Q).

Definition deduct (score : Q) (issue : PostmanIssue) : Q :=
  match normalizeSeverity (severity_str (severity issue)) with
  | SevError => score - 10
  | SevWarn => score - (25 # 10)
  | SevInfo => score - (5 # 10)
  | SevHint => score - (5 # 100)
  end%Q.

Definition computeScore (issues : list PostmanIssue) : Q :=
  Qmax 0 (Math_round (fold_left deduct issues 100 * 100) / 100)%Q.

(** ** Shared helpers: diagnostics *)

Module Diagnostic.
Record Position := mkPos { line : N; character : N }.
Record Range := mkRange { start : Position; end_ : Position }.
(** [severity] is the DiagnosticSeverity of the protocol: 1 Error,
    2 Warning, 3 Information, 4 Hint. *)
Record t := mk {
  range : Range;
  severity : N;
  message : jsstring;
  source : jsstring;
  code : option jsstring
}.
End Diagnostic.

Definition toVSCodeSeverity (s : Severity) : N :=
  match s with
  | SevError => 1
  | SevWarn => 2
  | SevInfo => 3
  | SevHint => 4
  end.

(** [createRange]: [line - 1], [column - 1] and [adjustedColumn + 1] are
    operations on Numbers, so their results are Number values. *)
Definition createRange (line column : N) : Diagnostic.Range :=
  let adjustedLine := toNumber (Z.to_N (Z.max 0 (Z.of_N line - 1))) in
  let adjustedColumn := toNumber (Z.to_N (Z.max 0 (Z.of_N column - 1))) in
  {| Diagnostic.start := {| Diagnostic.line := adjustedLine; Diagnostic.character := adjustedColumn |};
     Diagnostic.end_ := {| Diagnostic.line := adjustedLine;
                           Diagnostic.character := toNumber (adjustedColumn + 1) |} |}.

Definition toDiagnostic (issue : PostmanIssue) : Diagnostic.t :=
  {| Diagnostic.range := createRange (line issue) (column issue);
     Diagnostic.severity := toVSCodeSeverity (severity issue);
     Diagnostic.message := message issue;
     Diagnostic.source := u "postman-governance";
     Diagnostic.code := Some (rule issue) |}.

(** ** Errors, completions and traces *)

(** An error object: its [name], its [message], and the [stdout] property
    that [scoreSpecFile] looks for on it. *)
Record JsError := mkError {
  err_name : jsstring;
  err_message : jsstring;
  err_stdout : option jsstring
}.

(** [new Error(msg)] *)
Definition newError (msg : jsstring) : JsError :=
  {| err_name := u "Error"; err_message := msg; err_stdout := None |}.

(** [Error.prototype.toString], what a template literal prints for an error. *)
Definition errorToString (e : JsError) : jsstring :=
  match err_name e, err_message e with
  | [], m => m
  | n, [] => n
  | n, m => n ++ u ": " ++ m
  end.

Inductive Completion (A : Type) : Type :=
| Normal (a : A)
| Throw (e : JsError).
Arguments Normal {A} a.
Arguments Throw {A} e.

(** [child_process.spawn(file, args, {env})]: the argument vector of the
    child is [file :: args]. *)
Record SpawnCall := mkSpawn {
  spawnFile : jsstring;
  spawnArgs : list jsstring;
  spawnEnv : gmap jsstring jsstring
}.

Definition argv (s : SpawnCall) : list jsstring := spawnFile s :: spawnArgs s.

(** What a run does to the outside, in order. *)
Inductive Action :=
| SendDiagnostics (uri : jsstring) (diagnostics : list Diagnostic.t)
| ConnWarn (msg : jsstring)            (* connection.console.warn *)
| ConnError (msg : jsstring)           (* connection.console.error *)
| ConsoleWarn (msg : jsstring)         (* console.warn *)
| WriteFile (file content : jsstring)  (* fs.writeFileSync, done *)
| Unlink (file : jsstring)             (* fs.unlink / fs.unlinkSync, done *)
| Spawn (call : SpawnCall)             (* child_process.spawn *)
| Kill.                                (* child.kill('SIGTERM') *)

(** A computation that logs its actions and completes normally or throws. *)
Definition M (A : Type) : Type := list Action * Completion A.

Definition ret {A} (a : A) : M A := ([], Normal a).
Definition throw {A} (e : JsError) : M A := ([], Throw e).
Definition emit (a : Action) : M unit := ([a], Normal tt).

Definition bind {A B} (m : M A) (f : A -> M B) : M B :=
  match m with
  | (t, Normal a) => let '(t', r) := f a in (t ++ t', r)
  | (t, Throw e) => (t, Throw e)
  end.

(** [try { m } catch (e) { h e }] *)
Definition try_catch {A} (m : M A) (h : JsError -> M A) : M A :=
  match m with
  | (t, Normal a) => (t, Normal a)
  | (t, Throw e) => let '(t', r) := h e in (t ++ t', r)
  end.

(** [try { m } finally { cleanup }] *)
Definition try_finally {A} (m : M A) (cleanup : M unit) : M A :=
  let '(t, r) := m in
  let '(t', r') := cleanup in
  (t ++ t', match r' with Normal _ => r | Throw e => Throw e end).

Notation "x <- m ;; k" := (bind m (fun x => k))
  (at level 100, m at next level, right associativity).
Notation "m ;;; k" := (bind m (fun _ => k))
  (at level 100, right associativity).

Definition trace {A} (m : M A) : list Action := fst m.
Definition result {A} (m : M A) : Completion A := snd m.

(** [Number.prototype.toString] of a natural number. *)
Fixpoint uintUnits (d : Decimal.uint) : jsstring :=
  match d with
  | Decimal.Nil => []
  | Decimal.D0 d' => 48 :: uintUnits d'
  | Decimal.D1 d' => 49 :: uintUnits d'
  | Decimal.D2 d' => 50 :: uintUnits d'
  | Decimal.D3 d' => 51 :: uintUnits d'
  | Decimal.D4 d' => 52 :: uintUnits d'
  | Decimal.D5 d' => 53 :: uintUnits d'
  | Decimal.D6 d' => 54 :: uintUnits d'
  | Decimal.D7 d' => 55 :: uintUnits d'
  | Decimal.D8 d' => 56 :: uintUnits d'
  | Decimal.D9 d' => 57 :: uintUnits d'
  end.

Definition numToString (n : N) : jsstring := uintUnits (N.to_uint n).

(** ** Process invoker *)

(** What the operating system answers to one invocation: the event that
    settles the promise of [executeWithTempFile]. *)
Inductive ProcOutcome :=
| ProcSpawnError (e : JsError)      (* the 'error' event *)
| ProcTimeout                       (* the 10 minute timer fires first *)
| ProcClosed (code : option Z)      (* the 'close' event, then ... *)
             (read : jsstring + JsError)   (* ... what readFile gives *)
             (unlinkError : option JsError). (* ... and what unlink throws *)

(** The environment of one call of [executeWithTempFile]. *)
Record ExecWorld := mkExecWorld {
  tmpdir : jsstring;                      (* os.tmpdir() *)
  execNow : N;                            (* Date.now() *)
  processEnv : gmap jsstring jsstring;    (* process.env *)
  outcome : ProcOutcome
}.

Record ExecResult := mkExecResult {
  stdout : jsstring;
  stderr : jsstring;
  code : option Z
}.

(** [path.join(dir, name)] for a directory without a trailing slash. *)
Definition path_join (dir name : jsstring) : jsstring := dir ++ u "/" ++ name.

(** [path.basename] (POSIX): trailing slashes are dropped, then the part
    after the last slash is kept. *)
Fixpoint dropSlashes (s : jsstring) : jsstring :=
  match s with
  | x :: s' => if x =? 47 then dropSlashes s' else s
  | [] => []
  end.

Fixpoint untilSlash (s : jsstring) : jsstring :=
  match s with
  | x :: s' => if x =? 47 then [] else x :: untilSlash s'
  | [] => []
  end.

Definition basename (p : jsstring) : jsstring :=
  rev (untilSlash (dropSlashes (rev p))).

Definition outputTempFile (w : ExecWorld) : jsstring :=
  path_join (tmpdir w) (u "postman-output-" ++ numToString (execNow w) ++ u ".txt").

(** The shell command line of [executeWithTempFile]. *)
Definition fullCommand (command : jsstring) (args : list jsstring)
    (apiKey tempFile : jsstring) : jsstring :=
  u "POSTMAN_API_KEY=" ++ [dquote] ++ apiKey ++ [dquote] ++ u " " ++ command
  ++ u " " ++ join (u " ") args ++ u " > " ++ [dquote] ++ tempFile ++ [dquote]
  ++ u " 2>&1".

(** The [spawn] call of [executeWithTempFile]. *)
Definition spawnOf (w : ExecWorld) (command : jsstring) (args : list jsstring)
    (apiKey : jsstring) : SpawnCall :=
  {| spawnFile := u "sh";
     spawnArgs := [u "-c"; fullCommand command args apiKey (outputTempFile w)];
     spawnEnv := <[u "POSTMAN_API_KEY" := apiKey]> (processEnv w) |}.

(** [executeWithTempFile]: the spawn, then how the promise settles. *)
Definition executeWithTempFile (w : ExecWorld) (command : jsstring)
    (args : list jsstring) (apiKey : jsstring) : M ExecResult :=
  emit (Spawn (spawnOf w command args apiKey)) ;;;
  match outcome w with
  | ProcTimeout =>
      emit Kill ;;;
      throw (newError (u "Command timeout after 10 minutes"))
  | ProcSpawnError e => throw e
  | ProcClosed c (inl out) unlinkError =>
      try_catch (match unlinkError with
                 | None => emit (Unlink (outputTempFile w))
                 | Some e => throw e
                 end)
                (fun cleanupError =>
                   emit (ConsoleWarn (u "Failed to cleanup temp file: "
                                      ++ errorToString cleanupError))) ;;;
      ret {| stdout := out; stderr := []; code := c |}
  | ProcClosed c (inr readError) _ =>
      throw (newError (u "Failed to read output file: " ++ errorToString readError))
  end.

(** ** scoreSpecFile *)

Module ScoreResult.
Record t := mk {
  score : Q;
  violations : list PostmanIssue;
  violationCount : N;
  issues : list PostmanIssue;
  summary : IssueSummary;
  api : jsstring;
  timestamp : jsstring;
  error : option jsstring
}.
End ScoreResult.

Record GovernanceScorer := mkScorer {
  apiKey : jsstring;
  mode : jsstring;
  teamDomain : jsstring;
  workspaceId : jsstring
}.

Definition zeroSummary : IssueSummary :=
  {| total := 0; error := 0; warn := 0; info := 0; hint := 0 |}.

(** [a || b] on strings: the empty string is falsy. *)
Definition orElse (a b : jsstring) : jsstring :=
  match a with [] => b | _ :: _ => a end.

Definition couldntParse : jsstring := u "Couldn't parse".

(** The result of the two failure returns of [scoreSpecFile]. *)
Definition failedScore (specPath iso msg : jsstring) : ScoreResult.t :=
  {| ScoreResult.score := 0;
     ScoreResult.violations := [];
     ScoreResult.violationCount := 0;
     ScoreResult.issues := [];
     ScoreResult.summary := zeroSummary;
     ScoreResult.api := basename specPath;
     ScoreResult.timestamp := iso;
     ScoreResult.error := Some msg |}.

(** [scoreSpecFile]; [iso] is what [new Date().toISOString()] gives. *)
Definition scoreSpecFile (self : GovernanceScorer) (w : ExecWorld) (iso : jsstring)
    (specPath : jsstring) : M ScoreResult.t :=
  try_catch
    (out <- try_catch
              (result <- executeWithTempFile w (u "postman")
                           [u "api"; u "lint"; specPath] (apiKey self) ;;
               ret (stdout result))
              (fun error =>
                 ret (orElse (default [] (err_stdout error))
                             (orElse (err_message error) []))) ;;
     if includes (u "Error:") out && includes couldntParse out then
       ret (failedScore specPath iso (u "Failed to parse API specification"))
     else
       let '(issues, summary) := parseStdoutToIssuesAndSummary out in
       ret {| ScoreResult.score := computeScore issues;
              ScoreResult.violations := issues;
              ScoreResult.violationCount := N.of_nat (length issues);
              ScoreResult.issues := issues;
              ScoreResult.summary := summary;
              ScoreResult.api := basename specPath;
              ScoreResult.timestamp := iso;
              ScoreResult.error := None |})
    (fun error => ret (failedScore specPath iso (err_message error))).

(** ** The language server *)

Record PostmanLintServerSettings := mkSettings {
  enable : bool;
  postmanCliPath : jsstring;
  lintOnSave : bool;
  lintOnChange : bool;
  lintOnChangeDelay : Z;
  maxFileSize : Z
}.

Definition DEFAULT_SETTINGS : PostmanLintServerSettings :=
  {| enable := true;
     postmanCliPath := u "postman";
     lintOnSave := true;
     lintOnChange := false;
     lintOnChangeDelay := 500;
     maxFileSize := 1048576 |}.

Module LintResult.
Record t := mk {
  success : bool;
  issues : list PostmanIssue;
  summary : IssueSummary;
  error : option jsstring;
  timestamp : jsstring
}.
End LintResult.

(** A document object of the text document manager. *)
Record TextDocument := mkDoc {
  uri : jsstring;
  getText : jsstring
}.

(** The fields of the server object that validation reads. *)
Record PostmanLintServer := mkServer {
  settings : PostmanLintServerSettings;
  governanceScorer : option GovernanceScorer;
  hasConfigurationCapability : bool
}.

(** What the outside answers during one validation run. *)
Record World := mkWorld {
  exec : ExecWorld;                (* the run of the external tool *)
  lintNow : N;                     (* Date.now() in lintDocumentContent *)
  writeError : option JsError;     (* what fs.writeFileSync throws *)
  unlinkError : option JsError;    (* what fs.unlinkSync throws *)
  scoreIso : jsstring;             (* toISOString() in scoreSpecFile *)
  lintIso : jsstring               (* toISOString() in lintDocumentContent *)
}.

Definition zToString (z : Z) : jsstring :=
  if (z <? 0)%Z then u "-" ++ numToString (Z.to_N (- z)) else numToString (Z.to_N z).

Definition isSupportedFile (uri : jsstring) : bool :=
  let supportedExtensions := [u ".yaml"; u ".yml"; u ".json"] in
  existsb (fun ext => endsWith ext (toLowerCase uri)) supportedExtensions.

Definition isOpenAPIContent (content : jsstring) : bool :=
  includes (u "openapi:") content
  || includes ([dquote] ++ u "openapi" ++ [dquote]) content
  || includes (u "swagger:") content
  || includes ([dquote] ++ u "swagger" ++ [dquote]) content.

Definition lintTempFile (w : World) : jsstring :=
  path_join (tmpdir (exec w)) (u "postman-lint-" ++ numToString (lintNow w) ++ u ".yaml").

Definition lintDocumentContent (self : PostmanLintServer) (w : World)
    (content : jsstring) : M LintResult.t :=
  match governanceScorer self with
  | None => throw (newError (u "Governance scorer not initialized"))
  | Some scorer =>
      let tempFile := lintTempFile w in
      try_finally
        (match writeError w with
         | None => emit (WriteFile tempFile content)
         | Some e => throw e
         end ;;;
         result <- scoreSpecFile scorer (exec w) (scoreIso w) tempFile ;;
         ret {| LintResult.success := true;
                LintResult.issues := ScoreResult.issues result;
                LintResult.summary := ScoreResult.summary result;
                LintResult.error := None;
                LintResult.timestamp := lintIso w |})
        (try_catch
           (match unlinkError w with
            | None => emit (Unlink tempFile)
            | Some e => throw e
            end)
           (fun cleanupError =>
              emit (ConnWarn (u "Failed to cleanup temp file: "
                              ++ errorToString cleanupError))))
  end.

(** The diagnostic of the catch block of [validateTextDocument]. *)
Definition errorDiagnostic (error : JsError) : Diagnostic.t :=
  {| Diagnostic.severity := 1;
     Diagnostic.range :=
       {| Diagnostic.start := {| Diagnostic.line := 0; Diagnostic.character := 0 |};
          Diagnostic.end_ := {| Diagnostic.line := 0; Diagnostic.character := 1 |} |};
     Diagnostic.message := u "Postman linting failed: " ++ errorToString error;
     Diagnostic.source := u "postman-governance";
     Diagnostic.code := None |}.

Definition validateTextDocument (self : PostmanLintServer) (w : World)
    (textDocument : TextDocument) : M unit :=
  if negb (enable (settings self))
     || match governanceScorer self with None => true | Some _ => false end
  then ret tt
  else
    try_catch
      (let content := getText textDocument in
       if (Z.of_nat (length content) >? maxFileSize (settings self))%Z then
         emit (ConnWarn (u "File " ++ uri textDocument
                         ++ u " exceeds maximum size limit ("
                         ++ zToString (maxFileSize (settings self)) ++ u " bytes)"))
       else if negb (isSupportedFile (uri textDocument)) then ret tt
       else if negb (isOpenAPIContent content) then
         emit (SendDiagnostics (uri textDocument) [])
       else
         result <- lintDocumentContent self w content ;;
         emit (SendDiagnostics (uri textDocument)
                 (List.map toDiagnostic (LintResult.issues result))))
      (fun error =>
         emit (ConnError (u "Error validating " ++ uri textDocument ++ u ": "
                          ++ errorToString error)) ;;;
         emit (SendDiagnostics (uri textDocument) [errorDiagnostic error])).

(** The diagnostics the client holds per document: a publication replaces
    the set of its document. *)
Definition published := gmap jsstring (list Diagnostic.t).

Definition applyAction (p : published) (a : Action) : published :=
  match a with
  | SendDiagnostics uri diagnostics => <[uri := diagnostics]> p
  | _ => p
  end.

Definition applyTrace (p : published) (t : list Action) : published :=
  fold_left applyAction t p.

Definition isSpawn (a : Action) : bool :=
  match a with Spawn _ => true | _ => false end.

Definition isPublish (a : Action) : bool :=
  match a with SendDiagnostics _ _ => true | _ => false end.

(** ** The event loop of the server *)

(** A pending debounce timer: when it is due, and the document object its
    callback closes over. *)
Record Timer := mkTimer {
  due : Z;
  target : nat
}.

(** The delay [setTimeout] really uses: 1 when the argument is below 1 or
    above 2^31 - 1. *)
Definition timerDelay (delay : Z) : Z :=
  if ((delay <? 1) || (delay >? 2147483647))%Z then 1%Z else delay.

(** The configuration object the client answers with: the fields it sets. *)
Record PartialSettings := mkPartial {
  p_enable : option bool;
  p_postmanCliPath : option jsstring;
  p_lintOnSave : option bool;
  p_lintOnChange : option bool;
  p_lintOnChangeDelay : option Z;
  p_maxFileSize : option Z
}.

(** [{ ...DEFAULT_SETTINGS, ...newSettings }] *)
Definition overlay (d : PostmanLintServerSettings) (n : PartialSettings)
  : PostmanLintServerSettings :=
  {| enable := default (enable d) (p_enable n);
     postmanCliPath := default (postmanCliPath d) (p_postmanCliPath n);
     lintOnSave := default (lintOnSave d) (p_lintOnSave n);
     lintOnChange := default (lintOnChange d) (p_lintOnChange n);
     lintOnChangeDelay := default (lintOnChangeDelay d) (p_lintOnChangeDelay n);
     maxFileSize := default (maxFileSize d) (p_maxFileSize n) |}.

(** The server process between two events. Document objects live in
    [heap] and are referred to by index: the manager ([synced], in
    insertion order) and the timer callbacks share them. [calls] lists the
    calls of [validateTextDocument], by document. *)
Record ServerState := mkState {
  self : PostmanLintServer;
  cliValidatorPath : jsstring;
  heap : list TextDocument;
  synced : list (jsstring * nat);
  timers : list Timer;
  clock : Z;
  log : list Action;
  calls : list jsstring
}.

Fixpoint syncedGet (uri : jsstring) (l : list (jsstring * nat)) : option nat :=
  match l with
  | [] => None
  | (k, r) :: l' => if str_eqb k uri then Some r else syncedGet uri l'
  end.

Fixpoint syncedSet (uri : jsstring) (r : nat) (l : list (jsstring * nat))
  : list (jsstring * nat) :=
  match l with
  | [] => [(uri, r)]
  | (k, r') :: l' =>
      if str_eqb k uri then (k, r) :: l' else (k, r') :: syncedSet uri r l'
  end.

Fixpoint syncedDelete (uri : jsstring) (l : list (jsstring * nat))
  : list (jsstring * nat) :=
  match l with
  | [] => []
  | (k, r) :: l' =>
      if str_eqb k uri then l' else (k, r) :: syncedDelete uri l'
  end.

(** A call of [validateTextDocument] on a document object, run to its end. *)
Definition runValidate (w : World) (doc : TextDocument) (st : ServerState)
  : ServerState :=
  {| self := self st;
     cliValidatorPath := cliValidatorPath st;
     heap := heap st;
     synced := synced st;
     timers := timers st;
     clock := clock st;
     log := log st ++ trace (validateTextDocument (self st) w doc);
     calls := calls st ++ [uri doc] |}.

Definition setTimers (ts : list Timer) (st : ServerState) : ServerState :=
  {| self := self st;
     cliValidatorPath := cliValidatorPath st;
     heap := heap st;
     synced := synced st;
     timers := ts;
     clock := clock st;
     log := log st;
     calls := calls st |}.

(** [onDidChangeDocument]: the timer is armed, nothing else. *)
Definition onDidChangeDocument (ref : nat) (st : ServerState) : ServerState :=
  if lintOnChange (settings (self st)) then
    setTimers
      (timers st ++ [ {| due := clock st + timerDelay (lintOnChangeDelay (settings (self st)));
                         target := ref |} ])
      st
  else st.

Definition onDidSaveDocument (w : World) (doc : TextDocument) (st : ServerState)
  : ServerState :=
  if lintOnSave (settings (self st)) then runValidate w doc st else st.

Definition onDidCloseDocument (doc : TextDocument) (st : ServerState) : ServerState :=
  {| self := self st;
     cliValidatorPath := cliValidatorPath st;
     heap := heap st;
     synced := synced st;
     timers := timers st;
     clock := clock st;
     log := log st ++ [SendDiagnostics (uri doc) []];
     calls := calls st |}.

(** [documents.all().forEach(validateTextDocument)]: [ws i] answers the
    run on the i-th open document. *)
Fixpoint validateAll (ws : nat -> World) (i : nat) (refs : list (jsstring * nat))
    (st : ServerState) : ServerState :=
  match refs with
  | [] => st
  | (_, r) :: refs' =>
      let st' :=
        match heap st !! r with
        | Some doc => runValidate (ws i) doc st
        | None => st
        end in
      validateAll ws (S i) refs' st'
  end.

Definition onDidChangeConfiguration (newSettings : PartialSettings)
    (ws : nat -> World) (st : ServerState) : ServerState :=
  let s :=
    if hasConfigurationCapability (self st)
    then overlay DEFAULT_SETTINGS newSettings
    else DEFAULT_SETTINGS in
  let st1 :=
    {| self := {| settings := s;
                  governanceScorer := governanceScorer (self st);
                  hasConfigurationCapability := hasConfigurationCapability (self st) |};
       cliValidatorPath := postmanCliPath s;
       heap := heap st;
       synced := synced st;
       timers := timers st;
       clock := clock st;
       log := log st;
       calls := calls st |} in
  validateAll ws 0 (synced st1) st1.

(** [initializeServer], when the CLI is there and a key is found. *)
Definition initializeServer (key : jsstring) (st : ServerState) : ServerState :=
  {| self := {| settings := settings (self st);
                governanceScorer :=
                  Some {| apiKey := key; mode := u "local";
                          teamDomain := []; workspaceId := [] |};
                hasConfigurationCapability := hasConfigurationCapability (self st) |};
     cliValidatorPath := cliValidatorPath st;
     heap := heap st;
     synced := synced st;
     timers := timers st;
     clock := clock st;
     log := log st;
     calls := calls st |}.

Inductive Event :=
| Initialized (key : jsstring)
| DidOpen (docUri text : jsstring)
| DidChangeContent (docUri text : jsstring)
| DidSave (docUri : jsstring) (w : World)
| DidClose (docUri : jsstring)
| DidChangeConfiguration (newSettings : PartialSettings) (ws : nat -> World)
| TimerFires (n : nat) (w : World)
| Tick (dt : Z).

(** One turn of the event loop. [None]: the event cannot happen in this
    state (no such document, no such timer, timer not due, time going
    backwards). *)
Definition step (st : ServerState) (e : Event) : option ServerState :=
  match e with
  | Initialized key => Some (initializeServer key st)
  | DidOpen docUri text =>
      let ref := length (heap st) in
      Some (onDidChangeDocument ref
              {| self := self st;
                 cliValidatorPath := cliValidatorPath st;
                 heap := heap st ++ [ {| uri := docUri; getText := text |} ];
                 synced := syncedSet docUri ref (synced st);
                 timers := timers st;
                 clock := clock st;
                 log := log st;
                 calls := calls st |})
  | DidChangeContent docUri text =>
      match syncedGet docUri (synced st) with
      | Some ref =>
          Some (onDidChangeDocument ref
                  {| self := self st;
                     cliValidatorPath := cliValidatorPath st;
                     heap := alter (fun doc => {| uri := uri doc; getText := text |})
                               ref (heap st);
                     synced := synced st;
                     timers := timers st;
                     clock := clock st;
                     log := log st;
                     calls := calls st |})
      | None => None
      end
  | DidSave docUri w =>
      match syncedGet docUri (synced st) with
      | Some ref =>
          match heap st !! ref with
          | Some doc => Some (onDidSaveDocument w doc st)
          | None => None
          end
      | None => None
      end
  | DidClose docUri =>
      match syncedGet docUri (synced st) with
      | Some ref =>
          match heap st !! ref with
          | Some doc =>
              Some (onDidCloseDocument doc
                      {| self := self st;
                         cliValidatorPath := cliValidatorPath st;
                         heap := heap st;
                         synced := syncedDelete docUri (synced st);
                         timers := timers st;
                         clock := clock st;
                         log := log st;
                         calls := calls st |})
          | None => None
          end
      | None => None
      end
  | DidChangeConfiguration newSettings ws =>
      Some (onDidChangeConfiguration newSettings ws st)
  | TimerFires n w =>
      match timers st !! n with
      | Some t =>
          if (due t <=? clock st)%Z then
            match heap st !! target t with
            | Some doc => Some (runValidate w doc (setTimers (delete n (timers st)) st))
            | None => None
            end
          else None
      | None => None
      end
  | Tick dt =>
      if (0 <=? dt)%Z then
        Some {| self := self st;
                cliValidatorPath := cliValidatorPath st;
                heap := heap st;
                synced := synced st;
                timers := timers st;
                clock := clock st + dt;
                log := log st;
                calls := calls st |}
      else None
  end.

Fixpoint steps (st : ServerState) (es : list Event) : option ServerState :=
  match es with
  | [] => Some st
  | e :: es' =>
      match step st e with
      | Some st' => steps st' es'
      | None => None
      end
  end.

(** * Vocabulary of the statements and sample inputs *)

(** The sum of the four severity counts of a summary. *)
Definition buckets (s : IssueSummary) : N := error s + warn s + info s + hint s.

(** The data row of the table: range, severity, description, path. *)
Definition dataRow : jsstring :=
  u "4:12 " ++ [vbar] ++ u " error " ++ [vbar] ++ u " Missing description "
  ++ [vbar] ++ u " #/paths/~1foo/get".

(** The same row inside a table as the tool draws it: a validation type
    header, a top border, the column header, a separator, the row between
    vertical bars, a bottom border. *)
Definition tableBlock : jsstring :=
  u "Validation Type: Governance" ++ [LF]
  ++ [0x250C; hbar; hbar; 0x252C; hbar; hbar; 0x2510] ++ [LF]
  ++ [vbar] ++ u " Range " ++ [vbar] ++ u " Severity " ++ [vbar]
  ++ u " Description " ++ [vbar] ++ u " Path " ++ [vbar] ++ [LF]
  ++ [0x251C; hbar; hbar; 0x253C; hbar; hbar; 0x2524] ++ [LF]
  ++ [vbar] ++ u " " ++ dataRow ++ u " " ++ [vbar] ++ [LF]
  ++ [0x2514; hbar; hbar; 0x2534; hbar; hbar; 0x2518] ++ [LF].

Definition expectedIssue : PostmanIssue :=
  {| severity := SevError;
     line := 4;
     column := 12;
     message := u "Missing description";
     path := u "#/paths/~1foo/get";
     rule := u "governance-rule" |}.

(** What one issue of a severity takes off the score. *)
Definition weight (s : Severity) : Q :=
  match s with
  | SevError => 10
  | SevWarn => 25 # 10
  | SevInfo => 5 # 10
  | SevHint => 5 # 100
  end.

(** The weight of an issue in hundredths. *)
Definition centiWeight (s : Severity) : Z :=
  match s with
  | SevError => 1000
  | SevWarn => 250
  | SevInfo => 50
  | SevHint => 5
  end.

Definition deductions (l : list PostmanIssue) : Q :=
  fold_right (fun i acc => weight (severity i) + acc)%Q 0%Q l.

Definition centiDeductions (l : list PostmanIssue) : Z :=
  fold_right (fun i acc => centiWeight (severity i) + acc)%Z 0%Z l.

(** A count as a rational. *)
Definition Nq (n : N) : Q := inject_Z (Z.of_N n).

(** The score in an arithmetic [F]: [minus] is the rounded subtraction of a
    weight, [round2] is [Math.round(score * 100) / 100], [max0] is
    [Math.max(0, score)]. *)
Definition runningScore {F : Type} (minus : F -> Severity -> F)
    (issues : list PostmanIssue) (start : F) : F :=
  fold_left
    (fun score issue => minus score (normalizeSeverity (severity_str (severity issue))))
    issues start.

Definition computeScoreIn {F : Type} (hundred : F) (minus : F -> Severity -> F)
    (round2 max0 : F -> F) (issues : list PostmanIssue) : F :=
  max0 (round2 (runningScore minus issues hundred)).

Definition sampleExecWorld (o : ProcOutcome) : ExecWorld :=
  {| tmpdir := u "/tmp"; execNow := 1700000000000; processEnv := ∅; outcome := o |}.

Definition sampleScorer : GovernanceScorer :=
  {| apiKey := u "PMAK-secret"; mode := u "local"; teamDomain := []; workspaceId := [] |}.

Definition sampleWorld (o : ProcOutcome) : World :=
  {| exec := sampleExecWorld o;
     lintNow := 1699999999999;
     writeError := None;
     unlinkError := None;
     scoreIso := u "2023-11-14T22:13:20.000Z";
     lintIso := u "2023-11-14T22:13:20.001Z" |}.

Definition customPathServer : PostmanLintServer :=
  {| settings :=
       {| enable := true;
          postmanCliPath := u "/opt/postman/bin/postman";
          lintOnSave := true;
          lintOnChange := false;
          lintOnChangeDelay := 500;
          maxFileSize := 1048576 |};
     governanceScorer := Some sampleScorer;
     hasConfigurationCapability := true |}.

Definition sampleDoc : TextDocument :=
  {| uri := u "file:///work/api.yaml"; getText := u "openapi: 3.0.0" |}.

(** The command lines handed to [sh -c] in a trace. *)
Definition spawnedCommands (t : list Action) : list jsstring :=
  flat_map (fun a => match a with
                     | Spawn call => List.skipn 2 (argv call)
                     | _ => []
                     end) t.

(** The text [scoreSpecFile] parses: the captured output when the process
    closed and its output could be read, and otherwise the [stdout]
    property or the message of the error. *)
Definition parsedText (o : ProcOutcome) : jsstring :=
  match o with
  | ProcClosed _ (inl out) _ => out
  | ProcClosed _ (inr readError) _ =>
      u "Failed to read output file: " ++ errorToString readError
  | ProcTimeout => u "Command timeout after 10 minutes"
  | ProcSpawnError e => orElse (default [] (err_stdout e)) (err_message e)
  end.

Definition hasParseErrorMarkers (text : jsstring) : bool :=
  includes (u "Error:") text && includes couldntParse text.

Definition execTrace (sc : GovernanceScorer) (w : ExecWorld) (specPath : jsstring)
  : list Action :=
  trace (executeWithTempFile w (u "postman") [u "api"; u "lint"; specPath] (apiKey sc)).

Definition oversize (self : PostmanLintServer) (doc : TextDocument) : bool :=
  (Z.of_nat (length (getText doc)) >? maxFileSize (settings self))%Z.

Definition scorerMissing (self : PostmanLintServer) : bool :=
  match governanceScorer self with None => true | Some _ => false end.

Definition oversizeWarning (self : PostmanLintServer) (doc : TextDocument) : Action :=
  ConnWarn (u "File " ++ uri doc ++ u " exceeds maximum size limit ("
            ++ zToString (maxFileSize (settings self)) ++ u " bytes)").

Definition tinyLimitServer : PostmanLintServer :=
  {| settings :=
       {| enable := true;
          postmanCliPath := u "postman";
          lintOnSave := true;
          lintOnChange := false;
          lintOnChangeDelay := 500;
          maxFileSize := 10 |};
     governanceScorer := Some sampleScorer;
     hasConfigurationCapability := true |}.

Definition noMarkerDoc : TextDocument :=
  {| uri := u "file:///work/notes.yaml"; getText := u "title: notes" |}.

Definition cleanupTrace (w : World) : list Action :=
  match unlinkError w with
  | None => [Unlink (lintTempFile w)]
  | Some e => [ConnWarn (u "Failed to cleanup temp file: " ++ errorToString e)]
  end.

(** The issues a run hands to [toDiagnostic]: those of the text the scorer
    parsed, none when that text has the two parse-error markers. *)
Definition lintedIssues (w : World) : list PostmanIssue :=
  let text := parsedText (outcome (exec w)) in
  if hasParseErrorMarkers text then []
  else fst (parseStdoutToIssuesAndSummary text).

Definition passesGates (self : PostmanLintServer) (doc : TextDocument) : bool :=
  enable (settings self) && negb (scorerMissing self) && negb (oversize self doc)
  && isSupportedFile (uri doc) && isOpenAPIContent (getText doc).

Definition defaultServer : PostmanLintServer :=
  {| settings := DEFAULT_SETTINGS;
     governanceScorer := Some sampleScorer;
     hasConfigurationCapability := true |}.

Definition spawnENOENT : JsError :=
  {| err_name := u "Error"; err_message := u "spawn sh ENOENT"; err_stdout := None |}.

Definition diskFull : JsError :=
  {| err_name := u "Error";
     err_message := u "ENOSPC: no space left on device, write";
     err_stdout := None |}.

Definition writeFailsWorld : World :=
  {| exec := sampleExecWorld ProcTimeout;
     lintNow := 1699999999999;
     writeError := Some diskFull;
     unlinkError := Some diskFull;
     scoreIso := [];
     lintIso := [] |}.

Definition newTimer (st : ServerState) (ref : nat) : Timer :=
  {| due := clock st + timerDelay (lintOnChangeDelay (settings (self st)));
     target := ref |}.

Definition changeOnServer : PostmanLintServer :=
  {| settings :=
       {| enable := true;
          postmanCliPath := u "postman";
          lintOnSave := true;
          lintOnChange := true;
          lintOnChangeDelay := 500;
          maxFileSize := 1048576 |};
     governanceScorer := Some sampleScorer;
     hasConfigurationCapability := true |}.

Definition editingState : ServerState :=
  {| self := changeOnServer;
     cliValidatorPath := u "postman";
     heap := [sampleDoc];
     synced := [(uri sampleDoc, 0%nat)];
     timers := [];
     clock := 1000;
     log := [];
     calls := [] |}.

(** The input does not go on with a code unit of the class [p]. *)
Definition stopsAt (p : N -> bool) (rest : jsstring) : bool :=
  match rest with
  | x :: _ => negb (p x)
  | [] => true
  end.

(** [summaryRegex] without its leading [.*?]. *)
Definition summaryBody : regex :=
  seqs [Grp 1 (Plus isDigit); Plus isSpace; Lit (u "problem"); Opt (Lit (u "s"));
        Star true isSpace; Lit (u "(");
        Grp 2 (Plus isDigit); Plus isSpace; Lit (u "error"); Opt (Lit (u "s"));
        Lit (u ","); Star true isSpace;
        Grp 3 (Plus isDigit); Plus isSpace; Lit (u "warning"); Opt (Lit (u "s"));
        Lit (u ","); Star true isSpace;
        Grp 4 (Plus isDigit); Plus isSpace; Lit (u "info"); Opt (Lit (u "s"));
        Lit (u ","); Star true isSpace;
        Grp 5 (Plus isDigit); Plus isSpace; Lit (u "hint"); Opt (Lit (u "s"));
        Lit (u ")")].

Definition matchBody (inp : jsstring) : mres := rmatch summaryBody inp ∅ accept.

(** The summary sentence "N problems (E errors, W warnings, I infos,
    H hints)", its numbers written as digit strings. *)
Definition sentenceOf (dn de dw di dh : jsstring) : jsstring :=
  dn ++ u " problems (" ++ de ++ u " errors, " ++ dw ++ u " warnings, "
  ++ di ++ u " infos, " ++ dh ++ u " hints)".

Definition summarySentence (n e w i h : N) : jsstring :=
  sentenceOf (numToString n) (numToString e) (numToString w) (numToString i)
    (numToString h).

Definition isNumeral (d : jsstring) : Prop := d <> [] /\ forallb isDigit d = true.

Definition sentenceCaps (dn de dw di dh : jsstring) : caps :=
  <[5%nat := dh]> (<[4%nat := di]> (<[3%nat := dw]> (<[2%nat := de]> (<[1%nat := dn]> ∅)))).

(** The pattern of the summary line matches at no position of [pre] (the
    text goes on with [rest]). *)
Fixpoint noEarlierMatch (pre rest : jsstring) : bool :=
  match pre with
  | [] => true
  | _ :: pre' =>
      match matchBody (pre ++ rest) with
      | Some _ => false
      | None => noEarlierMatch pre' rest
      end
  end.

Definition errorIssue : PostmanIssue :=
  {| severity := SevError; rule := u "governance-rule";
     message := u "Governance error"; path := []; line := 0; column := 0 |}.
Definition warningIssue : PostmanIssue :=
  {| severity := SevWarn; rule := u "governance-rule";
     message := u "Governance warning"; path := []; line := 0; column := 0 |}.
Definition infoIssue : PostmanIssue :=
  {| severity := SevInfo; rule := u "governance-rule";
     message := u "Governance info"; path := []; line := 0; column := 0 |}.
Definition hintIssue : PostmanIssue :=
  {| severity := SevHint; rule := u "governance-rule";
     message := u "Governance hint"; path := []; line := 0; column := 0 |}.

Definition genericIssues (e w i h : N) : list PostmanIssue :=
  repeat errorIssue (N.to_nat e) ++ repeat warningIssue (N.to_nat w)
  ++ repeat infoIssue (N.to_nat i) ++ repeat hintIssue (N.to_nat h).

(** Counting a run of equal issues. *)
Definition bump (sv : Severity) (k : N) (s : IssueSummary) : IssueSummary :=
  match sv with
  | SevError => {| total := total s; error := error s + k; warn := warn s; info := info s; hint := hint s |}
  | SevWarn => {| total := total s; error := error s; warn := warn s + k; info := info s; hint := hint s |}
  | SevInfo => {| total := total s; error := error s; warn := warn s; info := info s + k; hint := hint s |}
  | SevHint => {| total := total s; error := error s; warn := warn s; info := info s; hint := hint s + k |}
  end.

Definition colouredSummary : jsstring :=
  u "Linting /tmp/postman-lint-12.yaml" ++ [LF]
  ++ [ESC] ++ u "[31m" ++ [0x2716] ++ u " 3 problems (1 errors, 1 warnings, 0 infos, 1 hints)"
  ++ [ESC] ++ u "[0m" ++ [LF].

(** * Vocabulary of the further properties *)

(** The switch of [normalizeSeverity], on the cleaned token. *)
Definition classifySeverity (cleaned : jsstring) : Severity :=
  if str_eqb cleaned (u "error") || str_eqb cleaned (u "errors") then SevError
  else if str_eqb cleaned (u "warn") || str_eqb cleaned (u "warning")
          || str_eqb cleaned (u "warnings") then SevWarn
  else if str_eqb cleaned (u "info") || str_eqb cleaned (u "information") then SevInfo
  else SevHint.

Definition sev_eqb (a b : Severity) : bool :=
  match a, b with
  | SevError, SevError | SevWarn, SevWarn | SevInfo, SevInfo | SevHint, SevHint => true
  | _, _ => false
  end.

(** How many issues of a list have a given severity. *)
Definition countSeverity (sv : Severity) (l : list PostmanIssue) : N :=
  N.of_nat (length (List.filter (fun i => sev_eqb (severity i) sv) l)).

(** A cell as [parseLine] keeps it: not empty, without white space around
    it, without the column separator, and not one of the cells that mark a
    header or separator row. *)
Definition cleanCell (c : jsstring) : bool :=
  nonEmpty c && str_eqb (trim c) c && negb (existsb (N.eqb vbar) c)
  && negb (includes (u "Range") c) && negb (includes (u "Severity") c)
  && negb (includes [hbar] c).

(** The range cell "L:C". *)
Definition rangeCell (l c : N) : jsstring := numToString l ++ u ":" ++ numToString c.

(** A data row as the tool prints it, with and without the path column. *)
Definition rowLine4 (l c : N) (sev description pathStr : jsstring) : jsstring :=
  rangeCell l c ++ u " " ++ [vbar] ++ u " " ++ sev ++ u " " ++ [vbar] ++ u " "
  ++ description ++ u " " ++ [vbar] ++ u " " ++ pathStr.

Definition rowLine3 (l c : N) (sev description : jsstring) : jsstring :=
  rangeCell l c ++ u " " ++ [vbar] ++ u " " ++ sev ++ u " " ++ [vbar] ++ u " "
  ++ description.

Definition rowIssue (category : jsstring) (l c : N) (sev description pathStr : jsstring)
  : PostmanIssue :=
  {| severity := normalizeSeverity sev;
     rule := category ++ u "-rule";
     message := description;
     path := pathStr;
     line := l;
     column := c |}.

(** A code unit of the parameters of a colour sequence: a digit or [;]. *)
Definition isSgrParam (c : N) : bool := isDigit c || (c =? 59).

(** The colour sequence ESC [ parameters m. *)
Definition sgr (params : jsstring) : jsstring := [ESC] ++ u "[" ++ params ++ u "m".

Definition noEsc (s : jsstring) : bool := negb (existsb (N.eqb ESC) s).

(** The lines of a text that hold the column separator. *)
Definition barLines (clean : jsstring) : list jsstring :=
  List.filter (includes [vbar]) (split_on LF clean).

(** What every issue of the parser satisfies. *)
Definition wellFormedIssue (i : PostmanIssue) : Prop :=
  message i <> [] /\ endsWith (u "-rule") (rule i) = true.

(** The client's [handleDiagnostics] middleware: the diagnostics it hands
    on to the editor. *)
Definition handleDiagnostics (diagnostics : list Diagnostic.t) : list Diagnostic.t :=
  List.filter (fun diagnostic => str_eqb (Diagnostic.source diagnostic) (u "postman-governance"))
    diagnostics.

(** The publications of a trace, in order. *)
Definition publications (t : list Action) : list (jsstring * list Diagnostic.t) :=
  flat_map (fun a => match a with
                     | SendDiagnostics uri ds => [(uri, ds)]
                     | _ => []
                     end) t.






(** The documents the manager holds, in its order. *)
Definition openDocuments (st : ServerState) : list TextDocument :=
  flat_map (fun entry => match heap st !! snd entry with
                         | Some document => [document]
                         | None => []
                         end) (synced st).

Definition isInitialized (e : Event) : bool :=
  match e with Initialized _ => true | _ => false end.

(** A publication that clears: no diagnostics. *)
Definition isClearing (p : jsstring * list Diagnostic.t) : bool :=
  match snd p with [] => true | _ :: _ => false end.

(** A state without scorer: [sampleDoc] open, linting on change and on save. *)
Definition noScorerState : ServerState :=
  {| self := {| settings := settings changeOnServer;
                governanceScorer := None;
                hasConfigurationCapability := true |};
     cliValidatorPath := u "postman";
     heap := [sampleDoc];
     synced := [(uri sampleDoc, 0%nat)];
     timers := [];
     clock := 0;
     log := [];
     calls := [] |}.

(** The client sends a configuration that sets nothing. *)
Definition emptyPartial : PartialSettings :=
  {| p_enable := None; p_postmanCliPath := None; p_lintOnSave := None;
     p_lintOnChange := None; p_lintOnChangeDelay := None; p_maxFileSize := None |}.

Definition busyEvents : list Event :=
  [DidChangeConfiguration emptyPartial (fun _ => sampleWorld ProcTimeout);
   DidSave (uri sampleDoc) (sampleWorld ProcTimeout);
   DidClose (uri sampleDoc)].

(** * The CLI validator ([utils/cli-validator.ts]) *)

(** What the operating system answers to [executeCommand]: the event that
    resolves its promise, with the output collected until then. *)
Inductive CmdOutcome :=
| CmdClosed (code : option Z) (out err : jsstring)   (* the 'close' event *)
| CmdError (message out err : jsstring)               (* the 'error' event *)
| CmdTimeout (out err : jsstring)                     (* the timer fires first *)
| CmdSpawnThrows (e : JsError).                       (* [spawn] itself throws *)

Module CmdResult.
Record t := mk {
  success : bool;
  stdout : jsstring;
  stderr : jsstring;
  code : option Z
}.
End CmdResult.

(** The shell command line of [executeCommand]: the command and every
    argument between double quotes. *)
Definition quoted (s : jsstring) : jsstring := [dquote] ++ s ++ [dquote].

Definition validatorCommandLine (command : jsstring) (args : list jsstring) : jsstring :=
  quoted command ++ u " " ++ join (u " ") (List.map quoted args).

Definition validatorSpawn (env : gmap jsstring jsstring) (command : jsstring)
    (args : list jsstring) : SpawnCall :=
  {| spawnFile := u "sh";
     spawnArgs := [u "-c"; validatorCommandLine command args];
     spawnEnv := env |}.

(** How the promise of [executeCommand] settles: every event resolves it;
    it rejects only when [spawn] throws inside the executor. *)
Definition executeCommand (o : CmdOutcome) : Completion CmdResult.t :=
  match o with
  | CmdSpawnThrows e => Throw e
  | CmdClosed code out err => Normal
      {| CmdResult.success := match code with Some 0%Z => true | _ => false end;
         CmdResult.stdout := out;
         CmdResult.stderr := err;
         CmdResult.code := code |}
  | CmdError message out err => Normal
      {| CmdResult.success := false;
         CmdResult.stdout := out;
         CmdResult.stderr := err ++ message;
         CmdResult.code := None |}
  | CmdTimeout out err => Normal
      {| CmdResult.success := false;
         CmdResult.stdout := out;
         CmdResult.stderr := err ++ [LF] ++ u "Command timed out";
         CmdResult.code := None |}
  end.

(** [\d+\.\d+\.\d+] *)
Definition versionNumber : regex :=
  seqs [Plus isDigit; Lit (u "."); Plus isDigit; Lit (u "."); Plus isDigit].

(** The patterns of [extractVersion], in the order they are tried:
    [/version\s+(\d+\.\d+\.\d+)/i], [/v?(\d+\.\d+\.\d+)/], [/(\d+\.\d+\.\d+)/]. *)
Definition versionPatterns : list regex :=
  [seqs [LitI (u "version"); Plus isSpace; Grp 1 versionNumber];
   seqs [Opt (Lit (u "v")); Grp 1 versionNumber];
   Grp 1 versionNumber].

Fixpoint firstVersion (patterns : list regex) (output : jsstring) : jsstring :=
  match patterns with
  | [] => u "unknown"
  | pattern :: more =>
      match search pattern output with
      | Some (_, m) =>
          if nonEmpty (group 1 m) then group 1 m else firstVersion more output
      | None => firstVersion more output
      end
  end.

Definition extractVersion (output : jsstring) : jsstring :=
  firstVersion versionPatterns output.

(** [Number(s)] for a string of digits, the only strings the split of an
    extracted version gives; the empty string is 0, anything else is taken
    as NaN ([None]). *)
Definition digitsToNumber (s : jsstring) : option N :=
  if forallb isDigit s then Some (parseInt s) else None.

(** [isVersionCompatible]; a comparison with NaN or undefined is false. *)
Definition isVersionCompatible (version : jsstring) : bool :=
  if str_eqb version (u "unknown") then true
  else
    match split_on 46 version with
    | major :: _ =>
        match digitsToNumber major with
        | Some n => if n <? 1 then false else true
        | None => true
        end
    | [] => true
    end.

Module CliInfo.
Record t := mk {
  available : bool;
  version : option jsstring;
  path : jsstring;
  error : option jsstring
}.
End CliInfo.

(** [validateCli]: the result for a CLI path and the outcome of
    [<cliPath> --version]. *)
Definition validateCli (cliPath : jsstring) (o : CmdOutcome) : CliInfo.t :=
  match executeCommand o with
  | Normal result =>
      if CmdResult.success result && nonEmpty (CmdResult.stdout result) then
        let version := extractVersion (CmdResult.stdout result) in
        if negb (isVersionCompatible version) then
          {| CliInfo.available := false;
             CliInfo.version := Some version;
             CliInfo.path := cliPath;
             CliInfo.error :=
               Some (u "Postman CLI version " ++ version
                     ++ u " is not compatible. Please update to the latest version.") |}
        else
          {| CliInfo.available := true;
             CliInfo.version := Some version;
             CliInfo.path := cliPath;
             CliInfo.error := None |}
      else
        {| CliInfo.available := false;
           CliInfo.version := None;
           CliInfo.path := cliPath;
           CliInfo.error :=
             Some (u "Postman CLI not found at '" ++ cliPath
                   ++ u "'. Please install Postman CLI or update the path in settings.") |}
  | Throw error =>
      {| CliInfo.available := false;
         CliInfo.version := None;
         CliInfo.path := cliPath;
         CliInfo.error :=
           Some (u "Failed to validate Postman CLI: " ++ errorToString error) |}
  end.

(** [validateLintCommand]: whether [<cliPath> api lint --help] succeeds. *)
Definition validateLintCommand (o : CmdOutcome) : bool * option jsstring :=
  match executeCommand o with
  | Normal result =>
      if CmdResult.success result then (true, None)
      else (false,
            Some (u "Postman CLI does not support the " ++ [dquote] ++ u "api lint"
                  ++ [dquote] ++ u " command. Please update to the latest version."))
  | Throw error =>
      (false, Some (u "Failed to validate lint command: " ++ errorToString error))
  end.

(** A version "a.b.c". *)
Definition versionString (a b c : N) : jsstring :=
  numToString a ++ u "." ++ numToString b ++ u "." ++ numToString c.

(** No code unit of the text is a letter v, in either case. *)
Definition noLetterV (s : jsstring) : bool :=
  forallb (fun x => negb (canonicalize x =? 86)) s.

(** * The authentication manager ([utils/auth-manager.ts]) *)

(** A value as [JSON.parse] gives it; an object is the list of its own
    properties. *)
#[warnings="-register-all"]
Inductive JValue :=
| JNull
| JBool (b : bool)
| JNum (q : Q)
| JStr (s : jsstring)
| JArr (items : list JValue)
| JObj (props : list (jsstring * JValue)).

(** A JavaScript value met by this code: [None] is [undefined]. *)
Definition JsValue := option JValue.

Definition truthy (v : JsValue) : bool :=
  match v with
  | None => false
  | Some JNull => false
  | Some (JBool b) => b
  | Some (JNum q) => negb (Qeq_bool q 0)
  | Some (JStr s) => nonEmpty s
  | Some (JArr _) => true
  | Some (JObj _) => true
  end.

Fixpoint lookupProp (name : jsstring) (props : list (jsstring * JValue)) : JsValue :=
  match props with
  | [] => None
  | (k, v) :: more => if str_eqb k name then Some v else lookupProp name more
  end.

Definition typeError (msg : jsstring) : JsError :=
  {| err_name := u "TypeError"; err_message := msg; err_stdout := None |}.

(** [v.name] for the data properties this code reads ([login], [_profiles],
    [length], [alias], [postmanApiKey], [id]); of these, only [length] is
    there on a string or an array. *)
Definition getProp (v : JsValue) (name : jsstring) : Completion JsValue :=
  match v with
  | None =>
      Throw (typeError (u "Cannot read properties of undefined (reading '"
                        ++ name ++ u "')"))
  | Some JNull =>
      Throw (typeError (u "Cannot read properties of null (reading '"
                        ++ name ++ u "')"))
  | Some (JObj props) => Normal (lookupProp name props)
  | Some (JStr s) =>
      if str_eqb name (u "length")
      then Normal (Some (JNum (inject_Z (Z.of_nat (length s)))))
      else Normal None
  | Some (JArr items) =>
      if str_eqb name (u "length")
      then Normal (Some (JNum (inject_Z (Z.of_nat (length items)))))
      else Normal None
  | Some (JBool _) => Normal None
  | Some (JNum _) => Normal None
  end.

(** [Array.prototype.find] with a callback that may throw. *)
Fixpoint arrayFind (callback : JValue -> Completion bool) (items : list JValue)
    : Completion JsValue :=
  match items with
  | [] => Normal None
  | p :: more =>
      match callback p with
      | Throw e => Throw e
      | Normal true => Normal (Some p)
      | Normal false => arrayFind callback more
      end
  end.

(** [p => p.alias === 'default'] *)
Definition aliasIsDefault (p : JValue) : Completion bool :=
  match getProp (Some p) (u "alias") with
  | Throw e => Throw e
  | Normal (Some (JStr s)) => Normal (str_eqb s (u "default"))
  | Normal _ => Normal false
  end.

(** [_profiles.find(p => p.alias === 'default') || _profiles[0]]; only an
    array has a [find] that can be called. *)
Definition selectProfile (profiles : JsValue) : Completion JsValue :=
  match profiles with
  | Some (JArr items) =>
      match arrayFind aliasIsDefault items with
      | Throw e => Throw e
      | Normal found => Normal (if truthy found then found else head items)
      end
  | _ => Throw (typeError (u "config.login._profiles.find is not a function"))
  end.

Definition lift {A} (c : Completion A) : M A := ([], c).

(** What the file system answers about [~/.postman/postmanrc] at one moment:
    whether [fs.access] resolves, and what [fs.readFile] followed by
    [JSON.parse] gives, the error thrown or the value. *)
Module RcFile.
Record t := mk {
  accessible : bool;
  parsed : JsError + JValue
}.
End RcFile.

Definition readConfig (rc : RcFile.t) : M JValue :=
  match RcFile.parsed rc with
  | inl e => throw e
  | inr config => ret config
  end.

Module AuthStatus.
Record t := mk {
  isAuthenticated : bool;
  apiKey : JsValue;
  profile : JsValue;
  error : option jsstring
}.
End AuthStatus.

Section AuthManager.

(** [x > 0] for a string, an array or an object [x]: the conversion of such
    a value to a number is not modelled. *)
Variable convertedGtZero : JValue -> Completion bool.

(** [x > 0] *)
Definition gtZero (x : JsValue) : Completion bool :=
  match x with
  | None => Normal false
  | Some JNull => Normal false
  | Some (JBool b) => Normal b
  | Some (JNum q) => Normal (negb (Qle_bool q 0))
  | Some v => convertedGtZero v
  end.

(** [config.login && config.login._profiles && config.login._profiles.length > 0];
    gives the profiles when the condition holds. *)
Definition profilesOf (config : JValue) : M (option JsValue) :=
  login <- lift (getProp (Some config) (u "login")) ;;
  if truthy login then
    profiles <- lift (getProp login (u "_profiles")) ;;
    if truthy profiles then
      len <- lift (getProp profiles (u "length")) ;;
      positive <- lift (gtZero len) ;;
      if positive then ret (Some profiles) else ret None
    else ret None
  else ret None.

(** [getPostmanApiKey]; the result [None] is [null]. *)
Definition getPostmanApiKey (rc : RcFile.t) : M JsValue :=
  try_catch
    (if negb (RcFile.accessible rc) then ret None
     else
       config <- readConfig rc ;;
       cond <- profilesOf config ;;
       match cond with
       | Some profiles =>
           profile <- lift (selectProfile profiles) ;;
           if truthy profile then
             key <- lift (getProp profile (u "postmanApiKey")) ;;
             if truthy key then ret key else ret None
           else ret None
       | None => ret None
       end)
    (fun error =>
       emit (ConsoleWarn (u "Failed to read Postman API key: " ++ errorToString error)) ;;;
       ret None).

(** [getAuthStatus]: the file is read once by [getPostmanApiKey] and once
    more for the profile name. *)
Definition getAuthStatus (first second : RcFile.t) : M AuthStatus.t :=
  try_catch
    (apiKey <- getPostmanApiKey first ;;
     if negb (truthy apiKey) then
       ret {| AuthStatus.isAuthenticated := false;
              AuthStatus.apiKey := None;
              AuthStatus.profile := None;
              AuthStatus.error :=
                Some (u "No Postman API key found. Please run: postman login --with-api-key YOUR_KEY") |}
     else
       config <- readConfig second ;;
       cond <- profilesOf config ;;
       profile <-
         match cond with
         | Some profiles =>
             activeProfile <- lift (selectProfile profiles) ;;
             alias <- lift (getProp activeProfile (u "alias")) ;;
             if truthy alias then ret alias
             else
               id <- lift (getProp activeProfile (u "id")) ;;
               if truthy id then ret id else ret (Some (JStr (u "unknown")))
         | None => ret (Some (JStr (u "default")))
         end ;;
       ret {| AuthStatus.isAuthenticated := true;
              AuthStatus.apiKey := apiKey;
              AuthStatus.profile := profile;
              AuthStatus.error := None |})
    (fun error =>
       ret {| AuthStatus.isAuthenticated := false;
              AuthStatus.apiKey := None;
              AuthStatus.profile := None;
              AuthStatus.error :=
                Some (u "Failed to check authentication: " ++ errorToString error) |}).

End AuthManager.

(** A postmanrc file with the given list of profiles. *)
Definition rcWithProfiles (profiles : list JValue) : RcFile.t :=
  {| RcFile.accessible := true;
     RcFile.parsed :=
       inr (JObj [(u "login", JObj [(u "_profiles", JArr profiles)])]) |}.

Definition notNull (v : JValue) : bool :=
  match v with JNull => false | _ => true end.

(** The profile has the alias 'default'. *)
Definition hasDefaultAlias (p : JValue) : bool :=
  match p with
  | JObj props =>
      match lookupProp (u "alias") props with
      | Some (JStr s) => str_eqb s (u "default")
      | _ => false
      end
  | _ => false
  end.

(** The key stored in a profile, if it has one that counts as true. *)
Definition storedKey (p : JValue) : JsValue :=
  match p with
  | JObj props =>
      if truthy (lookupProp (u "postmanApiKey") props)
      then lookupProp (u "postmanApiKey") props
      else None
  | _ => None
  end.

(** No conversion is ever needed for these files. *)
Definition noConversion (v : JValue) : Completion bool := Normal false.

Definition profileOf (alias key : jsstring) : JValue :=
  JObj [(u "alias", JStr alias); (u "postmanApiKey", JStr key)].

(** * Properties *)

(** ** Severity *)

Lemma normalizeSeverity_canonical (s : Severity) :
  normalizeSeverity (severity_str s) = s.
Proof. destruct s; reflexivity. Qed.

(** ** Summary *)

Lemma countIssue_total (s : IssueSummary) (i : PostmanIssue) :
  total (countIssue s i) = total s.
Proof. unfold countIssue. destruct (normalizeSeverity _); reflexivity. Qed.

Lemma countIssue_buckets (s : IssueSummary) (i : PostmanIssue) :
  buckets (countIssue s i) = buckets s + 1.
Proof.
  unfold countIssue, buckets.
  destruct (normalizeSeverity _); simpl; lia.
Qed.

Lemma fold_countIssue (l : list PostmanIssue) :
  forall s,
    total (fold_left countIssue l s) = total s /\
    buckets (fold_left countIssue l s) = buckets s + N.of_nat (length l).
Proof.
  induction l as [|i l IH]; intros s; simpl fold_left.
  - split; [reflexivity | simpl; lia].
  - destruct (IH (countIssue s i)) as [Ht Hb].
    rewrite Ht, Hb, countIssue_total, countIssue_buckets.
    split; [reflexivity | simpl length; lia].
Qed.

Lemma summarizeIssues_invariant (l : list PostmanIssue) :
  total (summarizeIssues l) = N.of_nat (length l) /\
  buckets (summarizeIssues l) = total (summarizeIssues l).
Proof.
  unfold summarizeIssues.
  destruct (fold_countIssue l
              {| total := N.of_nat (length l); error := 0; warn := 0; info := 0; hint := 0 |})
    as [Ht Hb].
  rewrite Ht, Hb. unfold buckets. simpl. split; [reflexivity | lia].
Qed.

Lemma parse_summary (out : jsstring) :
  snd (parseStdoutToIssuesAndSummary out)
  = summarizeIssues (fst (parseStdoutToIssuesAndSummary out)).
Proof. reflexivity. Qed.

(** C5. Whatever the raw output, hence on the table path and on the
    fallback path alike, the summary the parser returns counts the issues
    it returns: [total] is the length of the issue list, and the four
    severity buckets add up to [total]. The same holds of [summarizeIssues]
    on any issue list. *)
Theorem summary_counts_issues :
  (forall out : jsstring,
     let issues := fst (parseStdoutToIssuesAndSummary out) in
     let summary := snd (parseStdoutToIssuesAndSummary out) in
     total summary = N.of_nat (length issues) /\
     error summary + warn summary + info summary + hint summary = total summary)
  /\
  (forall issues : list PostmanIssue,
     total (summarizeIssues issues) = N.of_nat (length issues) /\
     error (summarizeIssues issues) + warn (summarizeIssues issues)
     + info (summarizeIssues issues) + hint (summarizeIssues issues)
     = total (summarizeIssues issues)).
Proof.
  split.
  - intros out issues summary. subst issues summary.
    rewrite parse_summary. apply summarizeIssues_invariant.
  - intros issues. apply summarizeIssues_invariant.
Qed.

(** ** The table path on one row *)

(** C7. The raw output made of the single data row
    "4:12 | error | Missing description | #/paths/~1foo/get" (with the box
    drawing vertical bar) parses to exactly one issue: severity error,
    line 4, column 12, message "Missing description", path
    "#/paths/~1foo/get", rule "governance-rule"; so does the table block
    that draws this one row under its header. *)
Theorem parse_single_row :
  fst (parseStdoutToIssuesAndSummary dataRow) = [expectedIssue] /\
  fst (parseStdoutToIssuesAndSummary tableBlock) = [expectedIssue].
Proof. split; vm_compute; reflexivity. Qed.

(** ** Score *)

Lemma deduct_weight (a : Q) (i : PostmanIssue) :
  deduct a i = (a - weight (severity i))%Q.
Proof.
  unfold deduct. rewrite normalizeSeverity_canonical.
  destruct (severity i); reflexivity.
Qed.

Lemma fold_deduct (l : list PostmanIssue) :
  forall a : Q, (fold_left deduct l a == a - deductions l)%Q.
Proof.
  induction l as [|i l IH]; intros a; simpl.
  - ring.
  - rewrite IH, deduct_weight. ring.
Qed.

Lemma weight_centi (s : Severity) :
  (weight s * 100 == inject_Z (centiWeight s))%Q.
Proof. destruct s; reflexivity. Qed.

Lemma deductions_centi (l : list PostmanIssue) :
  (deductions l * 100 == inject_Z (centiDeductions l))%Q.
Proof.
  induction l as [|i l IH]; simpl.
  - reflexivity.
  - rewrite inject_Z_plus, <- IH, <- weight_centi. ring.
Qed.

Lemma centiWeight_pos (s : Severity) : (0 < centiWeight s)%Z.
Proof. destruct s; reflexivity. Qed.

Lemma centiDeductions_nonneg (l : list PostmanIssue) : (0 <= centiDeductions l)%Z.
Proof.
  induction l as [|i l IH]; simpl; [lia|].
  pose proof (centiWeight_pos (severity i)). lia.
Qed.

Lemma deductions_nonneg (l : list PostmanIssue) : (0 <= deductions l)%Q.
Proof.
  assert (H : (0 * 100 <= deductions l * 100)%Q).
  { rewrite deductions_centi. change (0 * 100)%Q with (inject_Z 0).
    rewrite <- Zle_Qle. apply centiDeductions_nonneg. }
  apply Qmult_le_r in H; [exact H | reflexivity].
Qed.

Lemma deductions_app (l m : list PostmanIssue) :
  (deductions (l ++ m) == deductions l + deductions m)%Q.
Proof.
  induction l as [|i l IH]; simpl.
  - ring.
  - rewrite IH. ring.
Qed.

Lemma Qfloor_plus_half (z : Z) : Qfloor (inject_Z z + (1 # 2)) = z.
Proof.
  unfold Qfloor, Qplus, inject_Z. simpl.
  symmetry. apply (Z.div_unique _ _ _ 1); lia.
Qed.

Lemma Math_round_integer (x : Q) (z : Z) :
  (x == inject_Z z)%Q -> Math_round x = inject_Z z.
Proof.
  intros E. unfold Math_round.
  rewrite (Qfloor_comp (x + (1 # 2)) (inject_Z z + (1 # 2))).
  - now rewrite Qfloor_plus_half.
  - now rewrite E.
Qed.

(** In exact arithmetic the rounding to two decimals changes nothing:
    every weight is a whole number of hundredths. *)
Lemma computeScore_closed (l : list PostmanIssue) :
  (computeScore l == Qmax 0 (100 - deductions l))%Q.
Proof.
  unfold computeScore.
  assert (E : (fold_left deduct l 100 * 100 == inject_Z (10000 - centiDeductions l))%Q).
  { rewrite fold_deduct. unfold Zminus. rewrite inject_Z_plus, inject_Z_opp, <- deductions_centi.
    ring. }
  rewrite (Math_round_integer _ _ E).
  apply Q.max_compat; [reflexivity|].
  rewrite <- E, fold_deduct. field.
Qed.

Lemma fold_countIssue_weights (l : list PostmanIssue) :
  forall s,
    let s' := fold_left countIssue l s in
    (10 * Nq (error s') + (25 # 10) * Nq (warn s') + (5 # 10) * Nq (info s')
     + (5 # 100) * Nq (hint s')
     == 10 * Nq (error s) + (25 # 10) * Nq (warn s) + (5 # 10) * Nq (info s)
        + (5 # 100) * Nq (hint s) + deductions l)%Q.
Proof.
  induction l as [|i l IH]; intros s; simpl.
  - ring.
  - rewrite IH. unfold countIssue. rewrite normalizeSeverity_canonical.
    destruct (severity i); simpl; unfold Nq;
      rewrite N2Z.inj_add, inject_Z_plus; simpl (Z.of_N 1); unfold weight; ring.
Qed.

Lemma deductions_summary (l : list PostmanIssue) :
  (deductions l
   == 10 * Nq (error (summarizeIssues l)) + (25 # 10) * Nq (warn (summarizeIssues l))
      + (5 # 10) * Nq (info (summarizeIssues l))
      + (5 # 100) * Nq (hint (summarizeIssues l)))%Q.
Proof.
  unfold summarizeIssues.
  rewrite (fold_countIssue_weights l). simpl. unfold Nq. simpl. ring.
Qed.

Lemma Qminus_le_l (a d1 d2 : Q) : (d1 <= d2)%Q -> (a - d2 <= a - d1)%Q.
Proof.
  intros H. unfold Qminus.
  apply Qplus_le_compat; [apply Qle_refl | apply Qopp_le_compat, H].
Qed.

(** C9. With numbers taken as exact rationals: the score of any issue list
    lies between 0 and 100; the score of a list extended by further issues
    is never above the score of the list; and the score is 100 minus 10 per
    error, 2.5 per warn, 0.5 per info and 0.05 per hint, clamped below at 0
    (the rounding to two decimals leaves such a number as it is). *)
Theorem computeScore_bounded_monotone (issues : list PostmanIssue) :
  (0 <= computeScore issues /\ computeScore issues <= 100)%Q /\
  (forall more : list PostmanIssue,
     (computeScore (issues ++ more) <= computeScore issues)%Q) /\
  (computeScore issues
   == Qmax 0 (100 - (10 * Nq (error (summarizeIssues issues))
                     + (25 # 10) * Nq (warn (summarizeIssues issues))
                     + (5 # 10) * Nq (info (summarizeIssues issues))
                     + (5 # 100) * Nq (hint (summarizeIssues issues)))))%Q.
Proof.
  split; [split|split].
  - rewrite computeScore_closed. apply Q.le_max_l.
  - rewrite computeScore_closed. apply Q.max_lub; [discriminate|].
    apply Qle_trans with (100 - 0)%Q; [|discriminate].
    apply Qminus_le_l, deductions_nonneg.
  - intros more. rewrite !computeScore_closed. apply Q.max_le_compat_l.
    apply Qminus_le_l. rewrite deductions_app.
    apply Qle_trans with (deductions issues + 0)%Q.
    + rewrite Qplus_0_r. apply Qle_refl.
    + apply Qplus_le_compat; [apply Qle_refl | apply deductions_nonneg].
  - rewrite computeScore_closed, <- deductions_summary. reflexivity.
Qed.

(** ** The score under any monotone rounding

    JavaScript evaluates [computeScore] in IEEE doubles, where every
    operation is the exact one followed by a rounding. The bounds and the
    monotonicity of the score do not depend on the exactness used above:
    they hold in any arithmetic whose operations are monotone, as rounding
    to nearest makes them, and in which 100 is kept by the final rounding. *)

Section ScoreUnderRounding.

Variable F : Type.
Variable le : F -> F -> Prop.
Variables hundred zero : F.
Variable minus : F -> Severity -> F.
Variables round2 max0 : F -> F.

Hypothesis le_refl : forall x, le x x.
Hypothesis le_trans : forall x y z, le x y -> le y z -> le x z.
Hypothesis minus_le : forall x s, le (minus x s) x.
Hypothesis round2_mono : forall x y, le x y -> le (round2 x) (round2 y).
Hypothesis max0_mono : forall x y, le x y -> le (max0 x) (max0 y).
Hypothesis max0_lower : forall x, le zero (max0 x).
Hypothesis keeps_hundred : le (max0 (round2 hundred)) hundred.

Lemma runningScore_le (issues : list PostmanIssue) :
  forall start, le (runningScore minus issues start) start.
Proof using le_refl le_trans minus_le.
  induction issues as [|i issues IH]; intros start; simpl.
  - apply le_refl.
  - eapply le_trans; [apply IH | apply minus_le].
Qed.

Lemma computeScoreIn_bounded_monotone (issues more : list PostmanIssue) :
  le zero (computeScoreIn hundred minus round2 max0 issues) /\
  le (computeScoreIn hundred minus round2 max0 issues) hundred /\
  le (computeScoreIn hundred minus round2 max0 (issues ++ more))
     (computeScoreIn hundred minus round2 max0 issues).
Proof using All.
  unfold computeScoreIn. split; [apply max0_lower|]. split.
  - eapply le_trans; [|apply keeps_hundred].
    apply max0_mono, round2_mono, runningScore_le.
  - apply max0_mono, round2_mono.
    unfold runningScore. rewrite fold_left_app. apply runningScore_le.
Qed.

End ScoreUnderRounding.

(** The exact arithmetic is one such arithmetic, and [computeScore] is the
    score in it. *)
Lemma computeScore_exact_instance (issues : list PostmanIssue) :
  computeScore issues
  = computeScoreIn 100%Q (fun x s => x - weight s)%Q
      (fun x => Math_round (x * 100) / 100)%Q (Qmax 0) issues.
Proof.
  assert (E : forall a : Q,
             fold_left deduct issues a
             = runningScore (fun x s => x - weight s)%Q issues a).
  { induction issues as [|i issues IH]; intros a; simpl; [reflexivity|].
    rewrite deduct_weight, normalizeSeverity_canonical. apply IH. }
  unfold computeScore, computeScoreIn. now rewrite E.
Qed.

Lemma Math_round_mono (x y : Q) : (x <= y)%Q -> (Math_round x <= Math_round y)%Q.
Proof.
  intros H. unfold Math_round. rewrite <- Zle_Qle. apply Qfloor_resp_le.
  apply Qplus_le_compat; [exact H | apply Qle_refl].
Qed.

Lemma computeScore_by_monotonicity (issues more : list PostmanIssue) :
  (0 <= computeScore issues)%Q /\
  (computeScore issues <= 100)%Q /\
  (computeScore (issues ++ more) <= computeScore issues)%Q.
Proof.
  rewrite !computeScore_exact_instance.
  apply (computeScoreIn_bounded_monotone Q Qle 100%Q 0%Q).
  - apply Qle_refl.
  - apply Qle_trans.
  - intros x s. apply Qle_trans with (x - 0)%Q.
    + apply Qminus_le_l. destruct s; discriminate.
    + unfold Qminus. rewrite Qplus_0_r. apply Qle_refl.
  - intros x y H. apply Qmult_le_compat_r; [|discriminate].
    apply Math_round_mono. apply Qmult_le_compat_r; [exact H | discriminate].
  - intros x y H. apply Q.max_le_compat_l, H.
  - intros x. apply Q.le_max_l.
  - discriminate.
Qed.

(** ** Substrings *)

Lemma strip_prefix_app (p s : jsstring) : strip_prefix p (p ++ s) = Some s.
Proof.
  induction p as [|x p IH]; simpl; [reflexivity|].
  now rewrite N.eqb_refl.
Qed.

Lemma includes_here (sub s : jsstring) : includes sub (sub ++ s) = true.
Proof.
  destruct (sub ++ s) eqn:E; simpl; unfold startsWith; rewrite <- E, strip_prefix_app;
    reflexivity.
Qed.

Lemma includes_cons (sub s : jsstring) (x : N) :
  includes sub s = true -> includes sub (x :: s) = true.
Proof. intros H. simpl. rewrite H. apply orb_true_r. Qed.

Lemma includes_app (sub a b : jsstring) : includes sub (a ++ sub ++ b) = true.
Proof.
  induction a as [|x a IH]; simpl app.
  - apply includes_here.
  - apply includes_cons, IH.
Qed.

(** ** The credential and the argument vector *)

(** C1, at the failing input. With the API key "PMAK-secret" the third
    element of the argument vector of the spawned process contains the key,
    and the argument vectors for two different keys differ. *)
Lemma api_key_in_argv :
  let w := sampleExecWorld (ProcClosed (Some 0%Z) (inl []) None) in
  let args := [u "api"; u "lint"; u "/tmp/postman-lint-1.yaml"] in
  existsb (includes (u "PMAK-secret")) (argv (spawnOf w (u "postman") args (u "PMAK-secret")))
  = true /\
  argv (spawnOf w (u "postman") args (u "PMAK-secret"))
  <> argv (spawnOf w (u "postman") args (u "PMAK-other")).
Proof.
  split.
  - vm_compute. reflexivity.
  - vm_compute. discriminate.
Qed.

(** The command line determines the key it was built from. *)
Lemma fullCommand_inj (command : jsstring) (args : list jsstring)
    (key key' tempFile : jsstring) :
  fullCommand command args key' tempFile = fullCommand command args key tempFile ->
  key' = key.
Proof.
  unfold fullCommand. intros H.
  apply app_inv_head in H. apply app_inv_head in H.
  now apply app_inv_tail in H.
Qed.

(** C1. For every key, [executeWithTempFile] spawns exactly one process,
    with the argument vector [sh], [-c], command line. The credential
    reaches the child through the environment variable POSTMAN_API_KEY, and
    it is written into the command line as well: an element of the argument
    vector contains the key. The argument vectors for two keys agree on
    their first two elements only: they are equal only when the keys are. *)
Theorem credential_in_env_and_command_line
    (w : ExecWorld) (command : jsstring) (args : list jsstring) (key : jsstring) :
  let call := spawnOf w command args key in
  List.filter isSpawn (trace (executeWithTempFile w command args key)) = [Spawn call] /\
  spawnEnv call !! u "POSTMAN_API_KEY" = Some key /\
  argv call = [u "sh"; u "-c"; fullCommand command args key (outputTempFile w)] /\
  includes key (fullCommand command args key (outputTempFile w)) = true /\
  existsb (includes key) (argv call) = true /\
  (forall key' : jsstring,
     firstn 2 (argv (spawnOf w command args key')) = firstn 2 (argv call) /\
     (argv (spawnOf w command args key') = argv call -> key' = key)).
Proof.
  intros call.
  assert (I : includes key (fullCommand command args key (outputTempFile w)) = true).
  { unfold fullCommand. rewrite app_assoc. apply includes_app. }
  split; [|split; [|split; [|split; [|split]]]].
  - unfold executeWithTempFile.
    destruct (outcome w) as [e| |c [out|re] [ue|]]; reflexivity.
  - unfold call, spawnOf. simpl. apply lookup_insert_eq.
  - reflexivity.
  - exact I.
  - unfold call, spawnOf, argv. cbn [spawnFile spawnArgs existsb]. rewrite I.
    now rewrite !orb_true_r.
  - intros key'. split; [reflexivity|].
    intros H. apply (f_equal (fun l => nth 2 l [])) in H.
    exact (fullCommand_inj command args key key' (outputTempFile w) H).
Qed.

(** ** What the scorer returns *)

Lemma orElse_nil (a : jsstring) : orElse a [] = a.
Proof. destruct a; reflexivity. Qed.

Lemma scoreSpecFile_result (sc : GovernanceScorer) (w : ExecWorld) (iso specPath : jsstring) :
  let text := parsedText (outcome w) in
  let issues := fst (parseStdoutToIssuesAndSummary text) in
  result (scoreSpecFile sc w iso specPath)
  = Normal
      (if hasParseErrorMarkers text
       then failedScore specPath iso (u "Failed to parse API specification")
       else {| ScoreResult.score := computeScore issues;
               ScoreResult.violations := issues;
               ScoreResult.violationCount := N.of_nat (length issues);
               ScoreResult.issues := issues;
               ScoreResult.summary := summarizeIssues issues;
               ScoreResult.api := basename specPath;
               ScoreResult.timestamp := iso;
               ScoreResult.error := None |}).
Proof.
  intros text issues. subst text issues.
  unfold scoreSpecFile, executeWithTempFile, hasParseErrorMarkers.
  destruct (outcome w) as [e| |c [out|re] [ue|]]; cbn [parsedText];
    unfold try_catch, bind, emit, throw, ret, result;
    cbn [snd fst app err_message err_stdout newError default stdout];
    rewrite ?orElse_nil; cbn [orElse].
  all: match goal with
       | |- context [includes (u "Error:") ?t && includes couldntParse ?t] =>
           destruct (includes (u "Error:") t && includes couldntParse t)
       end; reflexivity.
Qed.

Lemma scoreSpecFile_trace (sc : GovernanceScorer) (w : ExecWorld) (iso specPath : jsstring) :
  trace (scoreSpecFile sc w iso specPath) = execTrace sc w specPath.
Proof.
  unfold execTrace, scoreSpecFile, executeWithTempFile.
  destruct (outcome w) as [e| |c [out|re] [ue|]];
    unfold try_catch, bind, emit, throw, ret, trace;
    cbn [snd fst app err_message err_stdout newError default stdout];
    match goal with
    | |- context [if ?b then _ else _] => destruct b
    end; reflexivity.
Qed.


(** ** Gating *)

Lemma validate_off (self : PostmanLintServer) (w : World) (doc : TextDocument) :
  negb (enable (settings self)) || scorerMissing self = true ->
  validateTextDocument self w doc = ret tt.
Proof.
  intros H. unfold validateTextDocument. fold (scorerMissing self). now rewrite H.
Qed.

Lemma validate_oversize (self : PostmanLintServer) (w : World) (doc : TextDocument) :
  negb (enable (settings self)) || scorerMissing self = false ->
  oversize self doc = true ->
  validateTextDocument self w doc = ([oversizeWarning self doc], Normal tt).
Proof.
  intros H1 H2. unfold validateTextDocument. fold (scorerMissing self). rewrite H1.
  fold (oversize self doc). rewrite H2. reflexivity.
Qed.

Lemma validate_unsupported (self : PostmanLintServer) (w : World) (doc : TextDocument) :
  negb (enable (settings self)) || scorerMissing self = false ->
  oversize self doc = false ->
  isSupportedFile (uri doc) = false ->
  validateTextDocument self w doc = ret tt.
Proof.
  intros H1 H2 H3. unfold validateTextDocument. fold (scorerMissing self). rewrite H1.
  fold (oversize self doc). rewrite H2, H3. reflexivity.
Qed.

Lemma validate_no_marker (self : PostmanLintServer) (w : World) (doc : TextDocument) :
  negb (enable (settings self)) || scorerMissing self = false ->
  oversize self doc = false ->
  isSupportedFile (uri doc) = true ->
  isOpenAPIContent (getText doc) = false ->
  validateTextDocument self w doc = ([SendDiagnostics (uri doc) []], Normal tt).
Proof.
  intros H1 H2 H3 H4. unfold validateTextDocument. fold (scorerMissing self). rewrite H1.
  fold (oversize self doc). rewrite H2, H3, H4. reflexivity.
Qed.

(** C3, counterexample. With [maxFileSize] 10, the document "openapi: 3.0.0"
    (14 code units) is over the limit: the run logs a warning and publishes
    nothing, so no empty diagnostic set is published. *)
Lemma oversize_publishes_nothing :
  let w := sampleWorld (ProcClosed (Some 0%Z) (inl []) None) in
  oversize tinyLimitServer sampleDoc = true /\
  trace (validateTextDocument tinyLimitServer w sampleDoc)
  = [ConnWarn (u "File file:///work/api.yaml exceeds maximum size limit (10 bytes)")] /\
  List.filter isPublish (trace (validateTextDocument tinyLimitServer w sampleDoc)) = [].
Proof. repeat split. Qed.

(** C3, amended. When linting is disabled (or no scorer is there), or the
    content is longer than [maxFileSize], or the extension is not
    supported, or the content has no openapi/swagger marker, the run spawns
    no process and writes no file. In the marker-miss case reached after the
    other gates passed, it publishes the empty diagnostic set for the
    document, so that the client holds no diagnostic for it afterwards. In
    the oversize case it only logs a warning and publishes nothing. *)
Theorem gating_skips_the_tool
    (self : PostmanLintServer) (w : World) (doc : TextDocument) (p : published) :
  let t := trace (validateTextDocument self w doc) in
  let off := negb (enable (settings self)) || scorerMissing self in
  (off || oversize self doc || negb (isSupportedFile (uri doc))
   || negb (isOpenAPIContent (getText doc)) = true ->
   List.filter isSpawn t = [] /\
   List.filter (fun a => match a with WriteFile _ _ => true | _ => false end) t = []) /\
  (off = false -> oversize self doc = false -> isSupportedFile (uri doc) = true ->
   isOpenAPIContent (getText doc) = false ->
   t = [SendDiagnostics (uri doc) []] /\ applyTrace p t !! uri doc = Some []) /\
  (off = false -> oversize self doc = true ->
   t = [oversizeWarning self doc] /\ applyTrace p t = p).
Proof.
  intros t off. subst t off. repeat split.
  - destruct (negb (enable (settings self)) || scorerMissing self) eqn:H1;
      [rewrite validate_off by exact H1; reflexivity|].
    destruct (oversize self doc) eqn:H2;
      [rewrite validate_oversize by assumption; reflexivity|].
    destruct (isSupportedFile (uri doc)) eqn:H3;
      [|rewrite validate_unsupported by assumption; reflexivity].
    destruct (isOpenAPIContent (getText doc)) eqn:H4; [discriminate|].
    rewrite validate_no_marker by assumption; reflexivity.
  - destruct (negb (enable (settings self)) || scorerMissing self) eqn:H1;
      [rewrite validate_off by exact H1; reflexivity|].
    destruct (oversize self doc) eqn:H2;
      [rewrite validate_oversize by assumption; reflexivity|].
    destruct (isSupportedFile (uri doc)) eqn:H3;
      [|rewrite validate_unsupported by assumption; reflexivity].
    destruct (isOpenAPIContent (getText doc)) eqn:H4; [discriminate|].
    rewrite validate_no_marker by assumption; reflexivity.
  - rewrite validate_no_marker by assumption. reflexivity.
  - rewrite validate_no_marker by assumption. apply lookup_insert_eq.
  - rewrite validate_oversize by assumption. reflexivity.
  - rewrite validate_oversize by assumption. reflexivity.
Qed.

Lemma gating_skips_the_tool_witness :
  let w := sampleWorld (ProcClosed (Some 0%Z) (inl []) None) in
  (List.filter isSpawn (trace (validateTextDocument tinyLimitServer w noMarkerDoc)) = [] /\
   List.filter (fun a => match a with WriteFile _ _ => true | _ => false end)
     (trace (validateTextDocument tinyLimitServer w noMarkerDoc)) = []) /\
  (trace (validateTextDocument customPathServer w noMarkerDoc)
   = [SendDiagnostics (uri noMarkerDoc) []] /\
   applyTrace ∅ (trace (validateTextDocument customPathServer w noMarkerDoc))
     !! uri noMarkerDoc = Some []) /\
  (trace (validateTextDocument tinyLimitServer w sampleDoc)
   = [oversizeWarning tinyLimitServer sampleDoc] /\
   applyTrace ∅ (trace (validateTextDocument tinyLimitServer w sampleDoc)) = ∅).
Proof.
  intros w. split; [|split].
  - apply (gating_skips_the_tool tinyLimitServer w noMarkerDoc ∅). reflexivity.
  - apply (gating_skips_the_tool customPathServer w noMarkerDoc ∅); reflexivity.
  - apply (gating_skips_the_tool tinyLimitServer w sampleDoc ∅); reflexivity.
Defined.

(** ** A validation run that reaches the tool *)

Lemma scoreSpecFile_pair (sc : GovernanceScorer) (w : ExecWorld) (iso specPath : jsstring) :
  scoreSpecFile sc w iso specPath
  = (trace (scoreSpecFile sc w iso specPath), result (scoreSpecFile sc w iso specPath)).
Proof. unfold trace, result. now destruct (scoreSpecFile sc w iso specPath). Qed.

Lemma validate_write_fails (self : PostmanLintServer) (w : World) (doc : TextDocument)
    (e : JsError) :
  passesGates self doc = true ->
  writeError w = Some e ->
  trace (validateTextDocument self w doc)
  = cleanupTrace w
    ++ [ConnError (u "Error validating " ++ uri doc ++ u ": " ++ errorToString e);
        SendDiagnostics (uri doc) [errorDiagnostic e]].
Proof.
  unfold passesGates, scorerMissing, oversize. intros G W.
  apply andb_prop in G as [G G5]. apply andb_prop in G as [G G4].
  apply andb_prop in G as [G G3]. apply andb_prop in G as [G1 G2].
  unfold validateTextDocument, lintDocumentContent, cleanupTrace.
  destruct (governanceScorer self) as [sc|]; [|discriminate].
  rewrite G1. apply negb_true_iff in G3. rewrite G3, G4, G5, W.
  destruct (unlinkError w); reflexivity.
Qed.

Lemma validate_write_ok (self : PostmanLintServer) (w : World) (doc : TextDocument)
    (sc : GovernanceScorer) :
  passesGates self doc = true ->
  governanceScorer self = Some sc ->
  writeError w = None ->
  trace (validateTextDocument self w doc)
  = WriteFile (lintTempFile w) (getText doc)
    :: execTrace sc (exec w) (lintTempFile w)
    ++ cleanupTrace w
    ++ [SendDiagnostics (uri doc) (List.map toDiagnostic (lintedIssues w))].
Proof.
  unfold passesGates, scorerMissing, oversize. intros G S W.
  apply andb_prop in G as [G G5]. apply andb_prop in G as [G G4].
  apply andb_prop in G as [G G3]. apply andb_prop in G as [G1 G2].
  unfold validateTextDocument, lintDocumentContent, cleanupTrace, lintedIssues.
  rewrite S, G1. apply negb_true_iff in G3. rewrite G3, G4, G5, W.
  cbn [negb orb].
  rewrite (scoreSpecFile_pair sc (exec w) (scoreIso w) (lintTempFile w)).
  rewrite scoreSpecFile_trace, scoreSpecFile_result.
  unfold try_catch, try_finally, bind, emit, throw, ret, trace.
  destruct (hasParseErrorMarkers (parsedText (outcome (exec w))));
    destruct (unlinkError w); cbn; rewrite <- ?app_assoc; reflexivity.
Qed.







(** ** What scoreSpecFile returns on failures *)




(** ** Debounce timers *)

Lemma validateAll_timers (ws : nat -> World) (refs : list (jsstring * nat)) :
  forall i st, timers (validateAll ws i refs st) = timers st.
Proof.
  induction refs as [|[k r] refs IH]; intros i st; simpl; [reflexivity|].
  rewrite IH. destruct (heap st !! r); reflexivity.
Qed.

Lemma onDidChangeDocument_timers (ref : nat) (st : ServerState) :
  timers (onDidChangeDocument ref st)
  = timers st ++ (if lintOnChange (settings (self st)) then [newTimer st ref] else []).
Proof.
  unfold onDidChangeDocument.
  destruct (lintOnChange (settings (self st))); simpl; [reflexivity|].
  now rewrite app_nil_r.
Qed.

(** Every turn of the event loop other than the firing of a timer keeps the
    pending timers and may only add to them at the end; the firing of the
    n-th timer removes that timer and no other. *)
Lemma step_timers (st st' : ServerState) (e : Event) :
  step st e = Some st' ->
  match e with
  | TimerFires n _ => timers st' = delete n (timers st)
  | _ => exists new, timers st' = timers st ++ new
  end.
Proof.
  destruct e as [key|docUri text|docUri text|docUri w|docUri|ns ws|n w|dt]; simpl; intros H.
  - injection H as <-. exists []. now rewrite app_nil_r.
  - injection H as <-. rewrite onDidChangeDocument_timers. eexists. reflexivity.
  - destruct (syncedGet docUri (synced st)); [|discriminate].
    injection H as <-. rewrite onDidChangeDocument_timers. eexists. reflexivity.
  - destruct (syncedGet docUri (synced st)); [|discriminate].
    destruct (heap st !! n); [|discriminate].
    injection H as <-. exists []. rewrite app_nil_r. unfold onDidSaveDocument.
    destruct (lintOnSave (settings (self st))); reflexivity.
  - destruct (syncedGet docUri (synced st)); [|discriminate].
    destruct (heap st !! n); [|discriminate].
    injection H as <-. exists []. now rewrite app_nil_r.
  - injection H as <-. exists []. rewrite app_nil_r.
    unfold onDidChangeConfiguration. now rewrite validateAll_timers.
  - destruct (timers st !! n) as [t|]; [|discriminate].
    destruct (due t <=? clock st)%Z; [|discriminate].
    destruct (heap st !! target t); [|discriminate].
    injection H as <-. reflexivity.
  - destruct (0 <=? dt)%Z; [|discriminate].
    injection H as <-. exists []. now rewrite app_nil_r.
Qed.

Lemma change_arms_timer (st : ServerState) (docUri text : jsstring) (ref : nat) :
  lintOnChange (settings (self st)) = true ->
  syncedGet docUri (synced st) = Some ref ->
  exists st',
    step st (DidChangeContent docUri text) = Some st' /\
    timers st' = timers st ++ [newTimer st ref] /\
    self st' = self st /\ clock st' = clock st /\ calls st' = calls st /\
    synced st' = synced st /\
    heap st' = alter (fun doc => {| uri := uri doc; getText := text |}) ref (heap st).
Proof.
  intros L S. simpl. rewrite S. eexists. split; [reflexivity|].
  unfold onDidChangeDocument. simpl. rewrite L. simpl. repeat split.
Qed.

(** The state after the content changes [texts] of one document in a row. *)
Lemma changes_arm_timers (docUri : jsstring) (ref : nat) (texts : list jsstring) :
  forall st d,
    lintOnChange (settings (self st)) = true ->
    syncedGet docUri (synced st) = Some ref ->
    heap st !! ref = Some d ->
    exists st' d',
      steps st (List.map (DidChangeContent docUri) texts) = Some st' /\
      timers st' = timers st ++ repeat (newTimer st ref) (length texts) /\
      self st' = self st /\ clock st' = clock st /\ calls st' = calls st /\
      heap st' !! ref = Some d' /\ uri d' = uri d.
Proof.
  induction texts as [|text texts IH]; intros st d L S Hd.
  - exists st, d. simpl. rewrite app_nil_r. repeat split; assumption.
  - destruct (change_arms_timer st docUri text ref L S)
      as [st1 [E1 [T1 [Se1 [C1 [Ca1 [Sy1 H1]]]]]]].
    assert (Hd1 : heap st1 !! ref = Some {| uri := uri d; getText := text |}).
    { rewrite H1, list_lookup_alter_eq, Hd. reflexivity. }
    destruct (IH st1 _ ltac:(rewrite Se1; exact L) ltac:(rewrite Sy1; exact S) Hd1)
      as [st2 [d2 [E2 [T2 [Se2 [C2 [Ca2 [H2 U2]]]]]]]].
    exists st2, d2. cbn [List.map steps]. rewrite E1. split; [exact E2|].
    repeat split.
    + rewrite T2, T1. unfold newTimer. rewrite Se1, C1. simpl length.
      rewrite <- app_assoc. reflexivity.
    + congruence.
    + congruence.
    + congruence.
    + exact H2.
    + exact U2.
Qed.

(** Due timers fired one after the other: each firing is one call of
    [validateTextDocument]. *)
Lemma fire_all (pre : list Timer) (tm : Timer) (d : TextDocument) (ws : list World) :
  forall st,
    timers st = pre ++ repeat tm (length ws) ->
    (due tm <= clock st)%Z ->
    heap st !! target tm = Some d ->
    exists st',
      steps st (List.map (TimerFires (length pre)) ws) = Some st' /\
      timers st' = pre /\
      calls st' = calls st ++ repeat (uri d) (length ws).
Proof.
  induction ws as [|w ws IH]; intros st T D H.
  - exists st. simpl in *. rewrite !app_nil_r in *. auto.
  - cbn [List.map steps step]. simpl length in T. cbn [repeat] in T.
    rewrite T, list_lookup_middle by reflexivity.
    apply Z.leb_le in D. rewrite D. rewrite H.
    rewrite delete_middle.
    match goal with
    | |- exists st', steps ?s _ = _ /\ _ => destruct (IH s) as [st' [E [T' C']]]
    end; [reflexivity | apply Z.leb_le, D | exact H |].
    exists st'. split; [exact E|]. split; [exact T'|].
    rewrite C'. simpl. rewrite <- app_assoc. reflexivity.
Qed.

(** C6. With [lintOnChange] set, a content change of an open document arms
    one more timer, due [lintOnChangeDelay] milliseconds later, behind the
    timers that are pending. No turn of the event loop takes a pending
    timer away except the firing of that very timer. So after the content
    changes [texts] in a row there is one pending timer per change, and
    once the delay has passed and these timers have fired there has been
    one call of [validateTextDocument] on the document per change. *)
Theorem debounce_timers_accumulate
    (st : ServerState) (docUri : jsstring) (ref : nat) (d : TextDocument)
    (texts : list jsstring) (ws : list World) :
  lintOnChange (settings (self st)) = true ->
  syncedGet docUri (synced st) = Some ref ->
  heap st !! ref = Some d ->
  length ws = length texts ->
  (forall text : jsstring,
     exists st',
       step st (DidChangeContent docUri text) = Some st' /\
       timers st' = timers st ++ [newTimer st ref]) /\
  ((1 <= lintOnChangeDelay (settings (self st)) <= 2147483647)%Z ->
   due (newTimer st ref) = (clock st + lintOnChangeDelay (settings (self st)))%Z) /\
  (forall (s s' : ServerState) (e : Event),
     step s e = Some s' ->
     match e with
     | TimerFires n _ => timers s' = delete n (timers s)
     | _ => exists new, timers s' = timers s ++ new
     end) /\
  (exists st1 st2 : ServerState,
     steps st (List.map (DidChangeContent docUri) texts) = Some st1 /\
     timers st1 = timers st ++ repeat (newTimer st ref) (length texts) /\
     steps st1 (Tick (timerDelay (lintOnChangeDelay (settings (self st))))
                :: List.map (TimerFires (length (timers st))) ws) = Some st2 /\
     timers st2 = timers st /\
     calls st2 = calls st ++ repeat (uri d) (length texts)).
Proof.
  intros L S Hd Hlen. split; [|split; [|split]].
  - intros text.
    destruct (change_arms_timer st docUri text ref L S) as [st' [E [T _]]].
    exists st'. split; assumption.
  - intros [Lo Hi]. unfold newTimer, timerDelay. cbn [due].
    replace (lintOnChangeDelay (settings (self st)) <? 1)%Z with false
      by (symmetry; apply Z.ltb_ge; lia).
    replace (lintOnChangeDelay (settings (self st)) >? 2147483647)%Z with false
      by (symmetry; rewrite Z.gtb_ltb; apply Z.ltb_ge; lia).
    reflexivity.
  - intros s s' e. apply step_timers.
  - destruct (changes_arm_timers docUri ref texts st d L S Hd)
      as [st1 [d1 [E1 [T1 [Se1 [C1 [Ca1 [H1 U1]]]]]]]].
    assert (Hpos : (0 <= timerDelay (lintOnChangeDelay (settings (self st))))%Z).
    { unfold timerDelay.
      destruct ((_ <? 1) || _)%Z eqn:B; [lia|].
      apply orb_false_iff in B as [B _]. apply Z.ltb_ge in B. lia. }
    set (dt := timerDelay (lintOnChangeDelay (settings (self st)))) in *.
    set (st1' := {| self := self st1; cliValidatorPath := cliValidatorPath st1;
                    heap := heap st1; synced := synced st1; timers := timers st1;
                    clock := clock st1 + dt; log := log st1; calls := calls st1 |}).
    destruct (fire_all (timers st) (newTimer st ref) d1 ws st1') as [st2 [E2 [T2 C2]]].
    + simpl. rewrite T1, Hlen. reflexivity.
    + simpl. rewrite C1. fold dt. lia.
    + exact H1.
    + exists st1, st2. split; [exact E1|]. split; [exact T1|].
      cbn [steps step]. apply Z.leb_le in Hpos. rewrite Hpos. fold st1'.
      split; [exact E2|]. split; [exact T2|].
      rewrite C2. simpl. rewrite Ca1, U1, Hlen. reflexivity.
Qed.

Lemma debounce_timers_accumulate_witness :
  exists st1 st2 : ServerState,
    steps editingState
      (List.map (DidChangeContent (uri sampleDoc)) [u "a"; u "ab"; u "abc"]) = Some st1 /\
    timers st1 = repeat {| due := 1500; target := 0 |} 3 /\
    steps st1 (Tick 500 :: List.map (TimerFires 0)
                 [sampleWorld ProcTimeout; sampleWorld ProcTimeout; sampleWorld ProcTimeout])
    = Some st2 /\
    timers st2 = [] /\
    calls st2 = repeat (uri sampleDoc) 3.
Proof.
  exact (proj2 (proj2 (proj2 (debounce_timers_accumulate editingState (uri sampleDoc) 0 sampleDoc
                 [u "a"; u "ab"; u "abc"]
                 [sampleWorld ProcTimeout; sampleWorld ProcTimeout; sampleWorld ProcTimeout]
                 eq_refl eq_refl eq_refl eq_refl)))).
Defined.

(** ** Decimal numerals *)

Lemma uintUnits_digits (d : Decimal.uint) : forallb isDigit (uintUnits d) = true.
Proof. induction d; simpl; auto. Qed.

Lemma digitsValue_acc (d : Decimal.uint) :
  forall acc : positive,
    fold_left (fun a c => a * 10 + (c - 48)) (uintUnits d) (N.pos acc)
    = N.pos (Pos.of_uint_acc d acc).
Proof.
  induction d; intros acc; simpl; try reflexivity;
    match goal with
    | |- fold_left _ _ ?a = _ =>
        match goal with
        | |- _ = N.pos (Pos.of_uint_acc _ ?b) =>
            replace a with (N.pos b) by lia
        end
    end; apply IHd.
Qed.

Lemma digitsValue_uint (d : Decimal.uint) : digitsValue (uintUnits d) = N.of_uint d.
Proof.
  unfold digitsValue, N.of_uint.
  induction d; simpl; try reflexivity; try exact IHd;
    match goal with
    | |- fold_left _ _ ?a = N.pos (Pos.of_uint_acc _ ?b) =>
        change a with (N.pos b)
    end; apply digitsValue_acc.
Qed.

Lemma digitsValue_numToString (n : N) : digitsValue (numToString n) = n.
Proof. unfold numToString. rewrite digitsValue_uint. apply DecimalN.Unsigned.of_to. Qed.

(** A natural number below 2^53 is its own Number value. *)
Lemma toNumber_small (n : N) : n < 2 ^ 53 -> toNumber n = n.
Proof.
  intros H. unfold toNumber.
  destruct (N.size n <=? 53) eqn:E; [reflexivity|].
  apply N.leb_gt in E. exfalso.
  pose proof (N.size_le n) as L. rewrite N.succ_double_spec in L.
  assert (P : 2 ^ 54 <= 2 ^ N.size n) by (apply N.pow_le_mono_r; lia).
  change (2 ^ 54) with (2 * 2 ^ 53) in P. lia.
Qed.

(** The Number value of a positive natural number is positive. *)
Lemma toNumber_pos (n : N) : 0 < n -> 0 < toNumber n.
Proof.
  intros H. unfold toNumber.
  destruct (N.size n <=? 53) eqn:E; [exact H|].
  apply N.leb_gt in E.
  set (ulp := 2 ^ (N.size n - 53)).
  assert (U : 0 < ulp) by (apply N.neq_0_lt_0, N.pow_nonzero; discriminate).
  assert (Un : ulp <= n).
  { pose proof (N.size_log2 n ltac:(lia)) as S.
    apply N.le_trans with (2 ^ N.log2 n); [|apply N.log2_spec; exact H].
    unfold ulp. apply N.pow_le_mono_r; lia. }
  assert (Q : 1 <= n / ulp) by (apply N.div_le_lower_bound; lia).
  cbv zeta.
  assert (M : ulp <= (if (ulp <? 2 * (n mod ulp)) || (2 * (n mod ulp) =? ulp) && N.odd (n / ulp)
                      then n / ulp + 1 else n / ulp) * ulp).
  { destruct ((ulp <? 2 * (n mod ulp)) || (2 * (n mod ulp) =? ulp) && N.odd (n / ulp)); nia. }
  apply N.min_glb_lt; [lia|].
  apply N.neq_0_lt_0, N.pow_nonzero; discriminate.
Qed.

(** [toNumber] rounds to nearest, ties to even: the value is a multiple
    [q * ulp] of the unit in the last place with a significand [q] of at
    most 53 bits (or 2^53, the next power of two), at most half a unit away
    from [n], with [q] even when [n] is half-way between two such numbers;
    it is replaced by Infinity when it reaches 2^1024. *)
Lemma toNumber_nearest (n : N) :
  let ulp := 2 ^ (N.size n - 53) in
  exists q,
    q <= 2 ^ 53 /\
    (toNumber n = q * ulp \/ (toNumber n = 2 ^ 1024 /\ 2 ^ 1024 <= q * ulp)) /\
    2 * (q * ulp) <= 2 * n + ulp /\
    2 * n <= 2 * (q * ulp) + ulp /\
    ((2 * (q * ulp) = 2 * n + ulp \/ 2 * n = 2 * (q * ulp) + ulp) -> N.even q = true).
Proof.
  intros ulp. unfold toNumber.
  destruct (N.size n <=? 53) eqn:E.
  - apply N.leb_le in E.
    assert (U : ulp = 1).
    { unfold ulp. replace (N.size n - 53) with 0 by lia. reflexivity. }
    exists n. rewrite U, N.mul_1_r.
    split.
    { apply N.lt_le_incl, N.lt_le_trans with (2 ^ N.size n); [apply N.size_gt|].
      apply N.pow_le_mono_r; [discriminate | exact E]. }
    split; [left; reflexivity|]. split; [lia|]. split; lia.
  - fold ulp. cbv zeta. apply N.leb_gt in E.
    assert (U : ulp <> 0) by (apply N.pow_nonzero; discriminate).
    pose proof (N.div_mod n ulp U) as D.
    pose proof (N.mod_lt n ulp U) as R.
    assert (Q : n / ulp < 2 ^ 53).
    { apply N.Div0.div_lt_upper_bound.
      unfold ulp. rewrite <- N.pow_add_r.
      replace (N.size n - 53 + 53) with (N.size n) by lia. apply N.size_gt. }
    set (q := n / ulp) in *. set (r := n mod ulp) in *.
    destruct ((ulp <? 2 * r) || (2 * r =? ulp) && N.odd q) eqn:B.
    + exists (q + 1).
      assert (Hr : ulp <= 2 * r /\ (2 * r = ulp -> N.odd q = true)).
      { apply orb_true_iff in B as [B|B].
        - apply N.ltb_lt in B. split; [lia|]. intros; lia.
        - apply andb_prop in B as [B1 B2]. apply N.eqb_eq in B1. split; [lia|].
          intros _. exact B2. }
      destruct Hr as [Hr Ho].
      set (m := q * ulp) in *.
      replace ((q + 1) * ulp) with (m + ulp) by (unfold m; lia).
      rewrite (N.mul_comm ulp q) in D. fold m in D.
      split; [lia|]. split; [|split; [lia|split; [lia|]]].
      * destruct (N.min_spec (m + ulp) (2 ^ 1024)) as [[L ->]|[L ->]];
          [left; reflexivity | right; split; [reflexivity | exact L]].
      * intros [T|T]; [|lia].
        assert (T' : 2 * r = ulp) by lia.
        specialize (Ho T'). rewrite N.add_1_r, N.even_succ. exact Ho.
    + exists q.
      assert (Hr : 2 * r <= ulp /\ (2 * r = ulp -> N.odd q = false)).
      { apply orb_false_iff in B as [B1 B2]. apply N.ltb_ge in B1. split; [exact B1|].
        intros T. apply andb_false_iff in B2 as [B2|B2]; [|exact B2].
        apply N.eqb_neq in B2. contradiction. }
      destruct Hr as [Hr Ho].
      set (m := q * ulp) in *.
      rewrite (N.mul_comm ulp q) in D. fold m in D.
      split; [lia|]. split; [|split; [lia|split; [lia|]]].
      * destruct (N.min_spec m (2 ^ 1024)) as [[L ->]|[L ->]];
          [left; reflexivity | right; split; [reflexivity | exact L]].
      * intros [T|T]; [lia|].
        assert (T' : 2 * r = ulp) by lia.
        specialize (Ho T'). rewrite <- N.negb_odd, Ho. reflexivity.
Qed.

(** From 2^1024 on every number reads as Infinity. *)
Lemma toNumber_overflow (n : N) : 2 ^ 1024 <= n -> toNumber n = 2 ^ 1024.
Proof.
  intros H. unfold toNumber.
  assert (P : 0 < n).
  { apply N.lt_le_trans with (2 ^ 1024); [|exact H].
    apply N.neq_0_lt_0, N.pow_nonzero. discriminate. }
  assert (L : 1024 <= N.log2 n) by (apply N.log2_le_pow2; assumption).
  pose proof (N.size_log2 n ltac:(lia)) as S.
  destruct (N.size n <=? 53) eqn:E; [apply N.leb_le in E; lia|].
  cbv zeta. set (ulp := 2 ^ (N.size n - 53)).
  assert (U : ulp <> 0) by (apply N.pow_nonzero; discriminate).
  assert (B : 2 ^ 1024 <= n / ulp * ulp).
  { apply N.le_trans with (2 ^ 52 * ulp).
    - unfold ulp. rewrite <- N.pow_add_r. apply N.pow_le_mono_r; [discriminate | lia].
    - apply N.mul_le_mono_r. apply N.div_le_lower_bound; [exact U|].
      rewrite N.mul_comm. unfold ulp. rewrite <- N.pow_add_r.
      apply N.le_trans with (2 ^ N.log2 n); [|apply N.log2_spec; exact P].
      apply N.pow_le_mono_r; [discriminate | lia]. }
  apply N.min_r.
  destruct ((ulp <? 2 * (n mod ulp)) || (2 * (n mod ulp) =? ulp) && N.odd (n / ulp)).
  - apply N.le_trans with (n / ulp * ulp); [exact B|].
    apply N.mul_le_mono_r. lia.
  - exact B.
Qed.

(** Reading the numeral of [n] gives the Number value of [n]. *)
Lemma parseInt_numToString (n : N) : parseInt (numToString n) = toNumber n.
Proof. unfold parseInt. now rewrite digitsValue_numToString. Qed.

(** The Number read from the numeral of [n] is below 1 exactly when [n] is. *)
Lemma parseInt_lt1 (n : N) : (parseInt (numToString n) <? 1) = (n <? 1).
Proof.
  rewrite parseInt_numToString.
  destruct (N.eq_dec n 0) as [->|Hn]; [reflexivity|].
  pose proof (toNumber_pos n ltac:(lia)) as P.
  destruct (toNumber n <? 1) eqn:A; destruct (n <? 1) eqn:B; try reflexivity.
  - apply N.ltb_lt in A. lia.
  - apply N.ltb_lt in B. lia.
Qed.

Lemma numToString_digits (n : N) : forallb isDigit (numToString n) = true.
Proof. apply uintUnits_digits. Qed.

Lemma numToString_nonempty (n : N) : numToString n <> [].
Proof.
  unfold numToString. intros H.
  assert (E : N.to_uint n = Decimal.Nil).
  { destruct (N.to_uint n); try discriminate H. reflexivity. }
  pose proof (DecimalN.Unsigned.of_to n) as R. rewrite E in R. simpl in R.
  subst n. discriminate E.
Qed.

(** ** The matcher on the summary sentence *)

Lemma rmatch_seq (r1 r2 : regex) (inp : jsstring) (c : caps)
    (k : jsstring -> caps -> mres) :
  rmatch (Seq r1 r2) inp c k = rmatch r1 inp c (fun rest c' => rmatch r2 rest c' k).
Proof. reflexivity. Qed.

Lemma rmatch_lit (s rest : jsstring) (c : caps) (k : jsstring -> caps -> mres)
    (r : jsstring * caps) :
  k rest c = Some r -> rmatch (Lit s) (s ++ rest) c k = Some r.
Proof. intros H. simpl. now rewrite strip_prefix_app. Qed.

Lemma rmatch_opt_lit (s rest : jsstring) (c : caps) (k : jsstring -> caps -> mres)
    (r : jsstring * caps) :
  k rest c = Some r -> rmatch (Opt (Lit s)) (s ++ rest) c k = Some r.
Proof. intros H. cbn [rmatch]. now rewrite strip_prefix_app, H. Qed.

(** A greedy star over a run of [p] after which the input stops being in
    [p]: when the continuation succeeds after the whole run, that is the
    match. *)
Lemma star_greedy_run (p : N -> bool) (k : jsstring -> mres) (run rest : jsstring)
    (r : jsstring * caps) :
  forallb p run = true -> stopsAt p rest = true -> k rest = Some r ->
  star_greedy p k (run ++ rest) = Some r.
Proof.
  intros Hrun Hx Hk. induction run as [|y run IH]; simpl.
  - destruct rest as [|x rest]; simpl; [exact Hk|].
    simpl in Hx. apply negb_true_iff in Hx. now rewrite Hx.
  - simpl in Hrun. apply andb_prop in Hrun as [Hy Hrun].
    now rewrite Hy, (IH Hrun).
Qed.

Lemma firstn_run {A} (run rest : list A) :
  firstn (length (run ++ rest) - length rest) (run ++ rest) = run.
Proof.
  rewrite length_app, Nat.add_sub. rewrite firstn_app, Nat.sub_diag, firstn_all.
  simpl. apply app_nil_r.
Qed.

(** [(p+)] as the i-th group, on a non-empty run of [p]. *)
Lemma rmatch_group_run (i : nat) (p : N -> bool) (run rest : jsstring) (c : caps)
    (k : jsstring -> caps -> mres) (r : jsstring * caps) :
  run <> [] -> forallb p run = true -> stopsAt p rest = true ->
  k rest (<[i := run]> c) = Some r ->
  rmatch (Grp i (Plus p)) (run ++ rest) c k = Some r.
Proof.
  intros Hne Hrun Hx Hk. destruct run as [|y run]; [contradiction|].
  simpl in Hrun. apply andb_prop in Hrun as [Hy Hrun].
  unfold Plus. cbn [rmatch].
  match goal with
  | |- context [star_greedy p ?K _] => set (K' := K)
  end.
  cbn [app]. rewrite Hy.
  apply star_greedy_run; [exact Hrun | exact Hx |].
  subst K'. cbv beta.
  rewrite (firstn_run (y :: run) rest). exact Hk.
Qed.

(** [\s+] and [\s*] on the single space of the sentence. *)
Lemma rmatch_plus_space (rest : jsstring) (c : caps)
    (k : jsstring -> caps -> mres) (r : jsstring * caps) :
  stopsAt isSpace rest = true ->
  k rest c = Some r ->
  rmatch (Plus isSpace) (u " " ++ rest) c k = Some r.
Proof.
  intros Hx Hk. unfold Plus. cbn [rmatch]. simpl.
  destruct rest as [|x rest]; simpl; [exact Hk|].
  simpl in Hx. apply negb_true_iff in Hx. now rewrite Hx.
Qed.

Lemma rmatch_star_space (rest : jsstring) (c : caps)
    (k : jsstring -> caps -> mres) (r : jsstring * caps) :
  stopsAt isSpace rest = true ->
  k rest c = Some r ->
  rmatch (Star true isSpace) (u " " ++ rest) c k = Some r.
Proof.
  intros Hx Hk. cbn [rmatch]. simpl.
  destruct rest as [|x rest]; simpl; [now rewrite Hk|].
  simpl in Hx. apply negb_true_iff in Hx. now rewrite Hx, Hk.
Qed.

Lemma summaryRegex_here (inp : jsstring) :
  match_here summaryRegex inp = star_lazy isDot matchBody inp.
Proof. reflexivity. Qed.

Lemma sentence_pieces (dn de dw di dh post : jsstring) :
  sentenceOf dn de dw di dh ++ post
  = dn ++ u " " ++ u "problem" ++ u "s" ++ u " " ++ u "("
    ++ de ++ u " " ++ u "error" ++ u "s" ++ u "," ++ u " "
    ++ dw ++ u " " ++ u "warning" ++ u "s" ++ u "," ++ u " "
    ++ di ++ u " " ++ u "info" ++ u "s" ++ u "," ++ u " "
    ++ dh ++ u " " ++ u "hint" ++ u "s" ++ u ")" ++ post.
Proof. unfold sentenceOf. rewrite <- !app_assoc. reflexivity. Qed.

Lemma digit_not_space (x : N) : isDigit x = true -> isSpace x = false.
Proof.
  unfold isDigit, isSpace. intros H.
  apply andb_prop in H as [H1 H2]. apply N.leb_le in H1. apply N.leb_le in H2.
  repeat match goal with
         | |- _ || _ = false => apply orb_false_intro
         | |- (_ =? _) = false => apply N.eqb_neq; lia
         | |- (_ <=? _) && (_ <=? _) = false =>
             apply andb_false_iff; first [ right; apply N.leb_gt; lia
                                         | left; apply N.leb_gt; lia ]
         end.
Qed.

Lemma numeral_stops_space (d rest : jsstring) :
  d <> [] -> forallb isDigit d = true -> stopsAt isSpace (d ++ rest) = true.
Proof.
  intros Hne Hd. destruct d as [|x d]; [contradiction|].
  simpl in *. apply andb_prop in Hd as [Hx _].
  now rewrite (digit_not_space x Hx).
Qed.

Ltac next_atom :=
  lazymatch goal with
  | |- rmatch (Seq _ _) _ _ _ = _ => rewrite rmatch_seq
  | _ => idtac
  end;
  lazymatch goal with
  | |- rmatch (Grp _ _) _ _ _ = _ =>
      apply rmatch_group_run; [assumption | assumption | reflexivity | cbv beta]
  | |- rmatch (Plus _) _ _ _ = _ =>
      apply rmatch_plus_space; [reflexivity | cbv beta]
  | |- rmatch (Star _ _) _ _ _ = _ =>
      apply rmatch_star_space;
      [first [reflexivity | apply numeral_stops_space; assumption] | cbv beta]
  | |- rmatch (Opt _) _ _ _ = _ => apply rmatch_opt_lit; cbv beta
  | |- rmatch (Lit _) _ _ _ = _ => apply rmatch_lit; cbv beta
  end.

Lemma matchBody_sentence (dn de dw di dh post : jsstring) :
  isNumeral dn -> isNumeral de -> isNumeral dw -> isNumeral di -> isNumeral dh ->
  matchBody (sentenceOf dn de dw di dh ++ post)
  = Some (post, sentenceCaps dn de dw di dh).
Proof.
  intros [Nn Dn] [Ne De] [Nw Dw] [Ni Di] [Nh Dh].
  rewrite sentence_pieces. unfold matchBody, summaryBody. cbn [seqs].
  do 29 next_atom.
  reflexivity.
Qed.

(** ** The fallback path *)

Lemma search_unfold (r : regex) (inp : jsstring) :
  search r inp
  = match match_here r inp with
    | Some m => Some m
    | None => match inp with [] => None | _ :: t => search r t end
    end.
Proof. destruct inp; reflexivity. Qed.

Lemma star_lazy_unfold (p : N -> bool) (k : jsstring -> mres) (inp : jsstring) :
  star_lazy p k inp
  = match k inp with
    | Some r => Some r
    | None =>
        match inp with
        | x :: t => if p x then star_lazy p k t else None
        | [] => None
        end
    end.
Proof. destruct inp; reflexivity. Qed.

(** An attempt that starts inside [pre] either fails or finds the match
    that begins right after [pre]. *)
Lemma attempt_in_prefix (pre rest : jsstring) (m : jsstring * caps) :
  noEarlierMatch pre rest = true ->
  matchBody rest = Some m ->
  star_lazy isDot matchBody (pre ++ rest) = None \/
  star_lazy isDot matchBody (pre ++ rest) = Some m.
Proof.
  intros Hpre Hm. induction pre as [|x pre IH].
  - right. simpl app. rewrite star_lazy_unfold, Hm. reflexivity.
  - cbn [noEarlierMatch] in Hpre.
    destruct (matchBody ((x :: pre) ++ rest)) eqn:E; [discriminate|].
    rewrite star_lazy_unfold, E. cbn [app].
    destruct (isDot x); [exact (IH Hpre) | now left].
Qed.

Lemma search_first_match (pre rest : jsstring) (m : jsstring * caps) :
  noEarlierMatch pre rest = true ->
  matchBody rest = Some m ->
  search summaryRegex (pre ++ rest) = Some m.
Proof.
  intros Hpre Hm. induction pre as [|x pre IH].
  - simpl app. rewrite search_unfold, summaryRegex_here, star_lazy_unfold, Hm.
    reflexivity.
  - rewrite search_unfold, summaryRegex_here.
    destruct (attempt_in_prefix (x :: pre) rest m Hpre Hm) as [E|E]; rewrite E.
    + cbn [app]. apply IH. cbn [noEarlierMatch] in Hpre.
      destruct (matchBody ((x :: pre) ++ rest)); [discriminate | exact Hpre].
    + reflexivity.
Qed.

Lemma group_sentenceCaps (dn de dw di dh : jsstring) :
  group 2 (sentenceCaps dn de dw di dh) = de /\
  group 3 (sentenceCaps dn de dw di dh) = dw /\
  group 4 (sentenceCaps dn de dw di dh) = di /\
  group 5 (sentenceCaps dn de dw di dh) = dh.
Proof.
  unfold group, sentenceCaps. repeat split.
Qed.

Lemma numeral_numToString (n : N) : isNumeral (numToString n).
Proof. split; [apply numToString_nonempty | apply numToString_digits]. Qed.

Lemma parseFallback_sentence (pre post : jsstring) (n e w i h : N) :
  e < 2 ^ 53 -> w < 2 ^ 53 -> i < 2 ^ 53 -> h < 2 ^ 53 ->
  noEarlierMatch pre (summarySentence n e w i h ++ post) = true ->
  parseFallback (pre ++ summarySentence n e w i h ++ post) = genericIssues e w i h.
Proof.
  intros He Hw Hi Hh Hpre. unfold parseFallback.
  rewrite (search_first_match pre _ (post, sentenceCaps (numToString n) (numToString e)
             (numToString w) (numToString i) (numToString h)) Hpre)
    by (apply matchBody_sentence; apply numeral_numToString).
  destruct (group_sentenceCaps (numToString n) (numToString e) (numToString w)
              (numToString i) (numToString h)) as [G2 [G3 [G4 G5]]].
  rewrite G2, G3, G4, G5, !parseInt_numToString, !toNumber_small by assumption.
  reflexivity.
Qed.

Lemma fold_countIssue_repeat (iss : PostmanIssue) (n : nat) :
  forall s, fold_left countIssue (repeat iss n) s = bump (severity iss) (N.of_nat n) s.
Proof.
  induction n as [|n IH]; intros s.
  - destruct s, (severity iss); simpl; f_equal; lia.
  - cbn [repeat fold_left]. rewrite IH. unfold countIssue.
    rewrite normalizeSeverity_canonical.
    destruct s, (severity iss); simpl; f_equal; lia.
Qed.

Lemma summarize_genericIssues (e w i h : N) :
  summarizeIssues (genericIssues e w i h)
  = {| total := e + w + i + h; error := e; warn := w; info := i; hint := h |}.
Proof.
  unfold summarizeIssues, genericIssues.
  rewrite !length_app, !repeat_length, !fold_left_app, !fold_countIssue_repeat.
  simpl. f_equal; lia.
Qed.

Lemma genericIssues_length (e w i h : N) :
  N.of_nat (length (genericIssues e w i h)) = e + w + i + h.
Proof. unfold genericIssues. rewrite !length_app, !repeat_length. lia. Qed.

Lemma genericIssues_positionless (e w i h : N) :
  Forall (fun x => line x = 0 /\ column x = 0) (genericIssues e w i h).
Proof.
  assert (R : forall (x : PostmanIssue) (k : nat),
             line x = 0 /\ column x = 0 ->
             Forall (fun x => line x = 0 /\ column x = 0) (repeat x k)).
  { intros x k Hx. induction k; simpl; constructor; assumption. }
  unfold genericIssues. rewrite !Forall_app.
  repeat split; apply R; split; reflexivity.
Qed.

(** C8. When the raw output has no table row, and its text (colour codes
    removed) contains the summary sentence "N problems (E errors,
    W warnings, I infos, H hints)" as the first place where the pattern of
    the summary line matches, with counts that an array can hold
    (E + W + I + H below 2^32), the parser returns E generic error issues,
    then W warnings, I infos and H hints: E + W + I + H issues in all, each
    with line 0 and column 0, and the summary counts them as E, W, I and H.
    In particular the text "3 problems (1 errors, 1 warnings, 0 infos,
    1 hints)" alone gives three issues (error, warn, hint) with the counts
    error 1, warn 1, info 0, hint 1. *)
Theorem fallback_synthesizes_counts :
  (forall (out pre post : jsstring) (n e w i h : N),
     e + w + i + h < 2 ^ 32 ->
     stripAnsi out = pre ++ summarySentence n e w i h ++ post ->
     parseTable (stripAnsi out) = [] ->
     noEarlierMatch pre (summarySentence n e w i h ++ post) = true ->
     fst (parseStdoutToIssuesAndSummary out) = genericIssues e w i h /\
     N.of_nat (length (fst (parseStdoutToIssuesAndSummary out))) = e + w + i + h /\
     Forall (fun x => line x = 0 /\ column x = 0) (fst (parseStdoutToIssuesAndSummary out)) /\
     snd (parseStdoutToIssuesAndSummary out)
     = {| total := e + w + i + h; error := e; warn := w; info := i; hint := h |}) /\
  parseStdoutToIssuesAndSummary (u "3 problems (1 errors, 1 warnings, 0 infos, 1 hints)")
  = ([errorIssue; warningIssue; hintIssue],
     {| total := 3; error := 1; warn := 1; info := 0; hint := 1 |}).
Proof.
  split; [|vm_compute; reflexivity].
  intros out pre post n e w i h Hbound Hclean Htable Hpre.
  assert (B : 2 ^ 32 < 2 ^ 53) by reflexivity.
  assert (E : fst (parseStdoutToIssuesAndSummary out) = genericIssues e w i h).
  { unfold parseStdoutToIssuesAndSummary. cbn [fst]. rewrite Htable, Hclean.
    apply parseFallback_sentence; [lia | lia | lia | lia | exact Hpre]. }
  rewrite parse_summary, E.
  split; [reflexivity|]. split; [apply genericIssues_length|].
  split; [apply genericIssues_positionless | apply summarize_genericIssues].
Qed.

Lemma fallback_synthesizes_counts_witness :
  fst (parseStdoutToIssuesAndSummary colouredSummary) = genericIssues 1 1 0 1 /\
  N.of_nat (length (fst (parseStdoutToIssuesAndSummary colouredSummary))) = 1 + 1 + 0 + 1 /\
  Forall (fun x => line x = 0 /\ column x = 0)
    (fst (parseStdoutToIssuesAndSummary colouredSummary)) /\
  snd (parseStdoutToIssuesAndSummary colouredSummary)
  = {| total := 1 + 1 + 0 + 1; error := 1; warn := 1; info := 0; hint := 1 |}.
Proof.
  apply (proj1 fallback_synthesizes_counts colouredSummary
           (u "Linting /tmp/postman-lint-12.yaml" ++ [LF] ++ [0x2716] ++ u " ")
           [LF] 3 1 1 0 1).
  - reflexivity.
  - vm_compute. reflexivity.
  - vm_compute. reflexivity.
  - vm_compute. reflexivity.
Defined.

Lemma matchBody_nondigit (x : N) (rest : jsstring) :
  isDigit x = false -> matchBody (x :: rest) = None.
Proof.
  intros H. unfold matchBody, summaryBody. cbn [seqs]. rewrite rmatch_seq.
  unfold Plus at 1. cbn [rmatch]. now rewrite H.
Qed.

(** A sufficient condition for [noEarlierMatch]: no digit before the
    sentence. *)
Lemma noEarlierMatch_no_digit (pre rest : jsstring) :
  forallb (fun x => negb (isDigit x)) pre = true -> noEarlierMatch pre rest = true.
Proof.
  induction pre as [|x pre IH]; intros H; [reflexivity|].
  simpl in H. apply andb_prop in H as [Hx Hpre]. apply negb_true_iff in Hx.
  cbn [noEarlierMatch app]. rewrite (matchBody_nondigit x _ Hx). exact (IH Hpre).
Qed.

(** ** The executable that is launched *)

Lemma spawnedCommands_app (a b : list Action) :
  spawnedCommands (a ++ b) = spawnedCommands a ++ spawnedCommands b.
Proof. unfold spawnedCommands. apply flat_map_app. Qed.

Lemma spawnedCommands_execTrace (sc : GovernanceScorer) (w : ExecWorld) (specPath : jsstring) :
  spawnedCommands (execTrace sc w specPath)
  = [fullCommand (u "postman") [u "api"; u "lint"; specPath] (apiKey sc) (outputTempFile w)].
Proof.
  unfold execTrace, executeWithTempFile.
  destruct (outcome w) as [e| |c [out|re] [ue|]]; reflexivity.
Qed.

Lemma spawnedCommands_cleanup (w : World) : spawnedCommands (cleanupTrace w) = [].
Proof. unfold cleanupTrace. destruct (unlinkError w); reflexivity. Qed.

(** Whatever the settings, a validation run launches nothing or the one
    command line built from the literal "postman". *)
Lemma spawned_command_fixed (self : PostmanLintServer) (w : World) (doc : TextDocument) :
  spawnedCommands (trace (validateTextDocument self w doc)) = [] \/
  exists sc,
    governanceScorer self = Some sc /\
    spawnedCommands (trace (validateTextDocument self w doc))
    = [fullCommand (u "postman") [u "api"; u "lint"; lintTempFile w] (apiKey sc)
         (outputTempFile (exec w))].
Proof.
  destruct (passesGates self doc) eqn:G.
  - destruct (writeError w) as [e|] eqn:W.
    + left. rewrite (validate_write_fails self w doc e G W).
      rewrite spawnedCommands_app, spawnedCommands_cleanup. reflexivity.
    + assert (S : exists sc, governanceScorer self = Some sc).
      { unfold passesGates, scorerMissing in G.
        destruct (governanceScorer self) as [sc|]; [now exists sc|].
        rewrite andb_false_r in G. discriminate. }
      destruct S as [sc S]. right. exists sc. split; [exact S|].
      rewrite (validate_write_ok self w doc sc G S W).
      change (WriteFile ?f ?c :: ?t) with ([WriteFile f c] ++ t).
      rewrite !spawnedCommands_app, spawnedCommands_execTrace, spawnedCommands_cleanup.
      reflexivity.
  - left. unfold passesGates in G.
    destruct (negb (enable (settings self)) || scorerMissing self) eqn:H1;
      [rewrite validate_off by exact H1; reflexivity|].
    destruct (oversize self doc) eqn:H2;
      [rewrite validate_oversize by assumption; reflexivity|].
    destruct (isSupportedFile (uri doc)) eqn:H3;
      [|rewrite validate_unsupported by assumption; reflexivity].
    destruct (isOpenAPIContent (getText doc)) eqn:H4;
      [|rewrite validate_no_marker by assumption; reflexivity].
    apply orb_false_iff in H1 as [E S]. apply negb_false_iff in E.
    rewrite E, S in G. discriminate.
Qed.

(** C4. The executable a validation run launches does not follow the
    [postmanCliPath] setting: whatever the settings, the run launches
    nothing or the command line built from the literal "postman". With
    [postmanCliPath] set to "/opt/postman/bin/postman" the run launches
    [postman api lint <temp file>] all the same, and the configured path
    occurs nowhere in the command line. *)
Theorem configured_cli_path_not_used :
  (forall (self : PostmanLintServer) (w : World) (doc : TextDocument),
     spawnedCommands (trace (validateTextDocument self w doc)) = [] \/
     exists sc,
       governanceScorer self = Some sc /\
       spawnedCommands (trace (validateTextDocument self w doc))
       = [fullCommand (u "postman") [u "api"; u "lint"; lintTempFile w] (apiKey sc)
            (outputTempFile (exec w))]) /\
  (let w := sampleWorld (ProcClosed (Some 0%Z) (inl []) None) in
   postmanCliPath (settings customPathServer) = u "/opt/postman/bin/postman" /\
   spawnedCommands (trace (validateTextDocument customPathServer w sampleDoc))
   = [u "POSTMAN_API_KEY=" ++ [dquote] ++ u "PMAK-secret" ++ [dquote]
      ++ u " postman api lint /tmp/postman-lint-1699999999999.yaml > " ++ [dquote]
      ++ u "/tmp/postman-output-1700000000000.txt" ++ [dquote] ++ u " 2>&1"] /\
   forallb (fun c => negb (includes (postmanCliPath (settings customPathServer)) c))
     (spawnedCommands (trace (validateTextDocument customPathServer w sampleDoc)))
   = true).
Proof.
  split; [exact spawned_command_fixed|].
  repeat split; vm_compute; reflexivity.
Qed.

(** * Further properties of the code *)

(** ** Severity tokens *)

Ltac bool_to_prop :=
  repeat match goal with
         | H : _ || _ = true |- _ => apply orb_prop in H; destruct H as [H|H]
         | H : _ && _ = true |- _ =>
             let H' := fresh H in apply andb_prop in H; destruct H as [H' H]
         | H : (_ <=? _) = true |- _ => apply N.leb_le in H
         | H : (_ =? _) = true |- _ => apply N.eqb_eq in H
         | H : _ || _ = false |- _ =>
             let H' := fresh H in apply orb_false_elim in H; destruct H as [H' H]
         | H : (_ =? _) = false |- _ => apply N.eqb_neq in H
         | H : (_ <=? _) = false |- _ => apply N.leb_gt in H
         | H : _ && _ = false |- _ => apply andb_false_iff in H; destruct H as [H|H]
         end.

Lemma normalizeSeverity_cleaned (s : jsstring) :
  normalizeSeverity s = classifySeverity (trim (toLowerCase s)).
Proof. destruct s; reflexivity. Qed.

Lemma toLowerCase_app (a b : jsstring) :
  toLowerCase (a ++ b) = toLowerCase a ++ toLowerCase b.
Proof. apply flat_map_app. Qed.

Lemma lowerUnit_space (c : N) : isSpace c = true -> lowerUnit c = [c].
Proof.
  intros H. unfold isSpace in H. unfold lowerUnit, isUpper.
  destruct ((65 <=? c) && (c <=? 90)) eqn:E1; [bool_to_prop; lia|].
  destruct (c =? 8490) eqn:E2; [bool_to_prop; lia|].
  destruct (c =? 304) eqn:E3; [bool_to_prop; lia|].
  reflexivity.
Qed.

Lemma toLowerCase_spaces (ws : jsstring) :
  forallb isSpace ws = true -> toLowerCase ws = ws.
Proof.
  induction ws as [|c ws IH]; intros H; [reflexivity|].
  simpl in H. apply andb_prop in H as [Hc Hws].
  unfold toLowerCase in *. simpl. rewrite (lowerUnit_space c Hc), (IH Hws). reflexivity.
Qed.

Lemma lowerUnit_canonicalize (c : N) : lowerUnit (canonicalize c) = lowerUnit c.
Proof.
  unfold canonicalize, isLower.
  destruct ((97 <=? c) && (c <=? 122)) eqn:E; [|reflexivity].
  unfold lowerUnit, isUpper.
  destruct ((65 <=? c - 32) && (c - 32 <=? 90)) eqn:E1; [|bool_to_prop; lia].
  destruct ((65 <=? c) && (c <=? 90)) eqn:E2; [bool_to_prop; lia|].
  destruct (c =? 8490) eqn:E3; [bool_to_prop; lia|].
  destruct (c =? 304) eqn:E4; [bool_to_prop; lia|].
  f_equal. bool_to_prop; lia.
Qed.

Lemma toLowerCase_canonicalize (s : jsstring) :
  toLowerCase (List.map canonicalize s) = toLowerCase s.
Proof.
  unfold toLowerCase. induction s as [|c s IH]; simpl; [reflexivity|].
  now rewrite lowerUnit_canonicalize, IH.
Qed.

Lemma trimStart_app (s t : jsstring) :
  trimStart (s ++ t)
  = match trimStart s with
    | [] => trimStart t
    | _ :: _ => trimStart s ++ t
    end.
Proof.
  induction s as [|c s IH]; simpl.
  - now destruct (trimStart t).
  - destruct (isSpace c); [exact IH | reflexivity].
Qed.

Lemma trimStart_spaces (ws : jsstring) : forallb isSpace ws = true -> trimStart ws = [].
Proof.
  induction ws as [|c ws IH]; intros H; [reflexivity|].
  simpl in *. apply andb_prop in H as [Hc Hws]. now rewrite Hc, IH.
Qed.

Lemma forallb_rev {A} (p : A -> bool) (l : list A) :
  forallb p (rev l) = forallb p l.
Proof.
  induction l as [|x l IH]; simpl; [reflexivity|].
  rewrite forallb_app, IH. simpl. rewrite andb_true_r. apply andb_comm.
Qed.

(** Surrounding white space does not change what [trim] returns. *)
Lemma trim_padded (ws1 s ws2 : jsstring) :
  forallb isSpace ws1 = true -> forallb isSpace ws2 = true ->
  trim (ws1 ++ s ++ ws2) = trim s.
Proof.
  intros H1 H2. unfold trim.
  rewrite (trimStart_app ws1), (trimStart_spaces ws1 H1).
  rewrite (trimStart_app s ws2).
  destruct (trimStart s) as [|c t] eqn:E.
  - now rewrite (trimStart_spaces ws2 H2).
  - rewrite rev_app_distr, trimStart_app, trimStart_spaces.
    + reflexivity.
    + now rewrite forallb_rev.
Qed.

(** X1. [normalizeSeverity] looks at its token up to ASCII letter case and
    up to white space around it: a token written in capitals and padded
    with white space gets the severity of the plain token. On the four
    canonical names "error", "warn", "info" and "hint" it is the identity,
    and the plural and long forms go to their canonical name. *)
Theorem normalizeSeverity_case_and_padding
    (ws1 s ws2 : jsstring) :
  forallb isSpace ws1 = true -> forallb isSpace ws2 = true ->
  normalizeSeverity (ws1 ++ List.map canonicalize s ++ ws2) = normalizeSeverity s /\
  (forall v : Severity, normalizeSeverity (severity_str v) = v) /\
  normalizeSeverity (u "errors") = SevError /\
  normalizeSeverity (u "warning") = SevWarn /\
  normalizeSeverity (u "warnings") = SevWarn /\
  normalizeSeverity (u "information") = SevInfo /\
  normalizeSeverity (u "hints") = SevHint.
Proof.
  intros H1 H2. split; [|split; [apply normalizeSeverity_canonical|]].
  - rewrite !normalizeSeverity_cleaned, !toLowerCase_app, toLowerCase_canonicalize.
    rewrite (toLowerCase_spaces ws1 H1), (toLowerCase_spaces ws2 H2).
    now rewrite trim_padded.
  - split; [|split; [|split; [|split]]]; reflexivity.
Qed.

Lemma normalizeSeverity_case_and_padding_witness :
  normalizeSeverity (u "  " ++ List.map canonicalize (u "Warnings") ++ [9; 13])
  = normalizeSeverity (u "Warnings") /\
  normalizeSeverity (severity_str SevWarn) = SevWarn.
Proof.
  destruct (normalizeSeverity_case_and_padding (u "  ") (u "Warnings") [9; 13]
              eq_refl eq_refl) as [P [C _]].
  split; [exact P | exact (C SevWarn)].
Defined.

(** ** Summary buckets *)

Lemma fold_countIssue_counts (l : list PostmanIssue) :
  forall s,
    let s' := fold_left countIssue l s in
    error s' = error s + countSeverity SevError l /\
    warn s' = warn s + countSeverity SevWarn l /\
    info s' = info s + countSeverity SevInfo l /\
    hint s' = hint s + countSeverity SevHint l.
Proof.
  unfold countSeverity.
  induction l as [|i l IH]; intros s; cbn [fold_left].
  - simpl. repeat split; lia.
  - destruct (IH (countIssue s i)) as [He [Hw [Hi Hh]]].
    rewrite He, Hw, Hi, Hh. unfold countIssue. rewrite normalizeSeverity_canonical.
    cbn [List.filter]. destruct (severity i); simpl; repeat split; lia.
Qed.

Lemma countSeverity_perm (sv : Severity) (l l' : list PostmanIssue) :
  Permutation l l' -> countSeverity sv l = countSeverity sv l'.
Proof.
  unfold countSeverity. intros P. f_equal.
  induction P as [|x l l' P IH|x y l|l l' l'' P1 IH1 P2 IH2]; simpl.
  - reflexivity.
  - destruct (sev_eqb (severity x) sv); simpl; now rewrite IH.
  - destruct (sev_eqb (severity x) sv), (sev_eqb (severity y) sv); reflexivity.
  - now rewrite IH1.
Qed.

(** X2. Each bucket of the summary is the number of issues of that
    severity, so the summary of a list does not depend on the order of its
    issues. *)
Theorem summary_buckets_count_by_severity (issues : list PostmanIssue) :
  error (summarizeIssues issues) = countSeverity SevError issues /\
  warn (summarizeIssues issues) = countSeverity SevWarn issues /\
  info (summarizeIssues issues) = countSeverity SevInfo issues /\
  hint (summarizeIssues issues) = countSeverity SevHint issues /\
  (forall issues', Permutation issues issues' ->
                   summarizeIssues issues' = summarizeIssues issues).
Proof.
  assert (C : forall l,
             summarizeIssues l
             = {| total := N.of_nat (length l);
                  error := countSeverity SevError l; warn := countSeverity SevWarn l;
                  info := countSeverity SevInfo l; hint := countSeverity SevHint l |}).
  { intros l. unfold summarizeIssues.
    pose proof (fold_countIssue_counts l
                  {| total := N.of_nat (length l); error := 0; warn := 0; info := 0; hint := 0 |})
      as [He [Hw [Hi Hh]]].
    pose proof (fold_countIssue l
                  {| total := N.of_nat (length l); error := 0; warn := 0; info := 0; hint := 0 |})
      as [Ht _].
    destruct (fold_left countIssue l _) as [t e w i h]. simpl in *.
    subst. reflexivity. }
  rewrite (C issues). simpl. repeat split.
  intros issues' P. rewrite (C issues').
  rewrite <- (Permutation_length P).
  now rewrite <- !(countSeverity_perm _ _ _ P).
Qed.

(** ** More on the score *)

Lemma weight_pos (s : Severity) : (0 < weight s)%Q.
Proof. destruct s; reflexivity. Qed.

Lemma deductions_pos (l : list PostmanIssue) : l <> [] -> (0 < deductions l)%Q.
Proof.
  destruct l as [|i l]; [contradiction|]. intros _. simpl.
  apply Qlt_le_trans with (weight (severity i) + 0)%Q.
  - rewrite Qplus_0_r. apply weight_pos.
  - apply Qplus_le_compat; [apply Qle_refl | apply deductions_nonneg].
Qed.

Lemma Qminus_lt_l (a d : Q) : (0 < d)%Q -> (a - d < a)%Q.
Proof.
  intros H. apply Qlt_minus_iff. ring_simplify. exact H.
Qed.

(** X3. With numbers taken as exact rationals: the score is 100 exactly
    when there is no issue, and as long as the score is above 0 one more
    issue, whatever its severity, makes it strictly smaller. *)
Theorem score_perfect_iff_no_issue (issues : list PostmanIssue) :
  ((computeScore issues == 100)%Q <-> issues = []) /\
  (forall i : PostmanIssue,
     (0 < computeScore issues)%Q ->
     (computeScore (issues ++ [i]) < computeScore issues)%Q).
Proof.
  split.
  - split.
    + intros E. destruct issues as [|i l]; [reflexivity|]. exfalso.
      rewrite computeScore_closed in E.
      assert (L : (Qmax 0 (100 - deductions (i :: l)) < 100)%Q).
      { apply Q.max_lub_lt; [reflexivity|].
        apply Qminus_lt_l, deductions_pos. discriminate. }
      rewrite E in L. discriminate L.
    + intros ->. reflexivity.
  - intros i P. rewrite !computeScore_closed in *.
    assert (D : (0 < 100 - deductions issues)%Q).
    { destruct (Q.max_dec 0 (100 - deductions issues)) as [E|E]; rewrite E in P;
        [discriminate P | exact P]. }
    rewrite (Q.max_r 0 (100 - deductions issues)) by (apply Qlt_le_weak, D).
    apply Q.max_lub_lt; [exact D|].
    rewrite deductions_app. simpl.
    apply Qlt_minus_iff. ring_simplify.
    setoid_replace (weight (severity i)) with (weight (severity i) + 0)%Q
      using relation Qeq by ring.
    rewrite Qplus_0_r. apply weight_pos.
Qed.

Lemma score_perfect_iff_no_issue_witness :
  (computeScore [hintIssue; hintIssue] < computeScore [hintIssue])%Q.
Proof.
  apply (proj2 (score_perfect_iff_no_issue [hintIssue]) hintIssue). reflexivity.
Defined.

Lemma deductions_perm (l l' : list PostmanIssue) :
  Permutation l l' -> (deductions l == deductions l')%Q.
Proof.
  intros P. induction P as [|x l l' P IH|x y l|l l' l'' P1 IH1 P2 IH2]; simpl.
  - reflexivity.
  - now rewrite IH.
  - ring.
  - now rewrite IH1.
Qed.

(** X4. With numbers taken as exact rationals, the score of a list does not
    depend on the order of its issues. *)
Theorem score_order_independent (issues issues' : list PostmanIssue) :
  Permutation issues issues' -> (computeScore issues' == computeScore issues)%Q.
Proof.
  intros P. rewrite !computeScore_closed, (deductions_perm _ _ P). reflexivity.
Qed.

Lemma score_order_independent_witness :
  (computeScore [errorIssue; hintIssue] == computeScore [hintIssue; errorIssue])%Q.
Proof.
  apply (score_order_independent [hintIssue; errorIssue] [errorIssue; hintIssue]).
  apply perm_swap.
Defined.

(** ** Table rows *)

Lemma str_eqb_eq (a b : jsstring) : str_eqb a b = true -> a = b.
Proof.
  revert b. induction a as [|x a IH]; intros [|y b] H; simpl in H;
    try discriminate; [reflexivity|].
  apply andb_prop in H as [Hx Hab]. apply N.eqb_eq in Hx. subst y.
  now rewrite (IH b Hab).
Qed.

Lemma split_on_absent (sep : N) (s : jsstring) :
  existsb (N.eqb sep) s = false -> split_on sep s = [s].
Proof.
  induction s as [|x s IH]; intros H; [reflexivity|].
  simpl in H. apply orb_false_elim in H as [Hx Hs].
  simpl. rewrite (IH Hs). rewrite N.eqb_sym, Hx. reflexivity.
Qed.

Lemma split_on_nonempty (sep : N) (s : jsstring) : split_on sep s <> [].
Proof.
  destruct s as [|x s]; simpl; [discriminate|].
  destruct (split_on sep s); [discriminate|]. destruct (x =? sep); discriminate.
Qed.

Lemma split_on_app (sep : N) (a b : jsstring) :
  existsb (N.eqb sep) a = false ->
  split_on sep (a ++ sep :: b) = a :: split_on sep b.
Proof.
  induction a as [|x a IH]; intros H.
  - simpl. rewrite N.eqb_refl. destruct (split_on sep b) eqn:E; [|reflexivity].
    now apply split_on_nonempty in E.
  - simpl in H. apply orb_false_elim in H as [Hx Ha].
    simpl. rewrite (IH Ha). rewrite N.eqb_sym, Hx. reflexivity.
Qed.

Lemma trim_fixed (s : jsstring) :
  stopsAt isSpace s = true -> stopsAt isSpace (rev s) = true -> trim s = s.
Proof.
  intros H1 H2. unfold trim.
  assert (T : forall t, stopsAt isSpace t = true -> trimStart t = t).
  { intros [|x t] H; [reflexivity|]. simpl in *.
    apply negb_true_iff in H. now rewrite H. }
  rewrite (T s H1), (T (rev s) H2). apply rev_involutive.
Qed.

Lemma includes_absent_head (c : N) (sub s : jsstring) :
  existsb (N.eqb c) s = false -> includes (c :: sub) s = false.
Proof.
  induction s as [|x s IH]; intros H; [reflexivity|].
  simpl in H. apply orb_false_elim in H as [Hx Hs].
  simpl. unfold startsWith. simpl. rewrite Hx. simpl. exact (IH Hs).
Qed.

Lemma digits_exclude (c : N) (d : jsstring) :
  isDigit c = false -> forallb isDigit d = true -> existsb (N.eqb c) d = false.
Proof.
  intros Hc. induction d as [|x d IH]; intros H; [reflexivity|].
  simpl in H. apply andb_prop in H as [Hx Hd]. simpl. rewrite (IH Hd).
  destruct (c =? x) eqn:E; [|reflexivity].
  apply N.eqb_eq in E. subst x. congruence.
Qed.

Lemma rangeCell_excludes (c l k : N) :
  isDigit c = false -> (c =? 58) = false ->
  existsb (N.eqb c) (rangeCell l k) = false.
Proof.
  intros Hd Hc. unfold rangeCell. rewrite !existsb_app.
  rewrite !(digits_exclude c _ Hd (numToString_digits _)).
  change (u ":") with [58]. cbn [existsb orb]. now rewrite Hc.
Qed.

Lemma numeral_stops (d rest : jsstring) :
  d <> [] -> forallb isDigit d = true -> stopsAt isSpace (d ++ rest) = true.
Proof. apply numeral_stops_space. Qed.

Lemma rangeCell_trim (l c : N) : trim (rangeCell l c ++ u " ") = rangeCell l c.
Proof.
  transitivity (trim (rangeCell l c)).
  { apply (trim_padded [] (rangeCell l c) (u " ")); reflexivity. }
  apply trim_fixed; unfold rangeCell.
  - apply numeral_stops; [apply numToString_nonempty | apply numToString_digits].
  - rewrite !rev_app_distr, <- app_assoc. apply numeral_stops.
    + intros E. apply (f_equal (@rev N)) in E. rewrite rev_involutive in E.
      now apply numToString_nonempty in E.
    + rewrite forallb_rev. apply numToString_digits.
Qed.

Lemma rmatch_eos (c : caps) (k : jsstring -> caps -> mres) :
  rmatch Eos [] c k = k [] c.
Proof. reflexivity. Qed.

Lemma rmatch_group_all (i : nat) (p : N -> bool) (run : jsstring) (c : caps)
    (k : jsstring -> caps -> mres) (r : jsstring * caps) :
  run <> [] -> forallb p run = true ->
  k [] (<[i := run]> c) = Some r ->
  rmatch (Grp i (Plus p)) run c k = Some r.
Proof.
  intros Hne Hrun Hk.
  pose proof (rmatch_group_run i p run [] c k r Hne Hrun eq_refl Hk) as H.
  now rewrite app_nil_r in H.
Qed.

Lemma rangeRegex_rangeCell (l c : N) :
  match_here rangeRegex (rangeCell l c)
  = Some ([], <[2%nat := numToString c]> (<[1%nat := numToString l]> ∅)).
Proof.
  unfold match_here, rangeRegex, rangeCell. cbn [seqs].
  rewrite rmatch_seq. apply rmatch_group_run;
    [apply numToString_nonempty | apply numToString_digits | reflexivity | cbv beta].
  rewrite rmatch_seq. apply rmatch_lit. cbv beta.
  rewrite rmatch_seq.
  apply rmatch_group_all;
    [apply numToString_nonempty | apply numToString_digits | cbv beta].
  reflexivity.
Qed.

Lemma group_rangeCaps (l c : N) :
  group 1 (<[2%nat := numToString c]> (<[1%nat := numToString l]> ∅)) = numToString l /\
  group 2 (<[2%nat := numToString c]> (<[1%nat := numToString l]> ∅)) = numToString c.
Proof. split; reflexivity. Qed.

Lemma cleanCell_spec (c : jsstring) :
  cleanCell c = true ->
  c <> [] /\ trim c = c /\ existsb (N.eqb vbar) c = false /\
  includes (u "Range") c = false /\ includes (u "Severity") c = false /\
  includes [hbar] c = false.
Proof.
  unfold cleanCell. intros H.
  repeat (apply andb_prop in H as [H ?]).
  repeat match goal with
         | X : negb _ = true |- _ => apply negb_true_iff in X
         end.
  repeat split; try assumption.
  - intros ->. discriminate.
  - now apply str_eqb_eq.
Qed.

Lemma cell_trim (c : jsstring) : trim c = c -> trim (u " " ++ c ++ u " ") = c.
Proof. intros H. now rewrite trim_padded. Qed.

Lemma cell_trim_last (c : jsstring) : trim c = c -> trim (u " " ++ c) = c.
Proof.
  intros H. rewrite <- (app_nil_r c) at 1. now rewrite (trim_padded (u " ") c []).
Qed.

Lemma rangeCell_not_header (l c : N) :
  includes (u "Range") (rangeCell l c) || includes (u "Severity") (rangeCell l c)
  || includes [hbar] (rangeCell l c) = false.
Proof.
  change (u "Range") with (82 :: u "ange"). change (u "Severity") with (83 :: u "everity").
  rewrite !includes_absent_head; [reflexivity | | |]; apply rangeCell_excludes; reflexivity.
Qed.

Lemma rangeCell_nonempty (l c : N) : rangeCell l c <> [].
Proof.
  unfold rangeCell. intros E. apply app_eq_nil in E as [E _].
  now apply numToString_nonempty in E.
Qed.

Lemma split_first_cell (a rest : jsstring) :
  existsb (N.eqb vbar) (a ++ u " ") = false ->
  split_on vbar (a ++ u " " ++ [vbar] ++ rest) = (a ++ u " ") :: split_on vbar rest.
Proof.
  intros H.
  replace (a ++ u " " ++ [vbar] ++ rest) with ((a ++ u " ") ++ vbar :: rest)
    by (rewrite <- !app_assoc; reflexivity).
  apply (split_on_app vbar (a ++ u " ") rest H).
Qed.

Lemma split_cell (c rest : jsstring) :
  existsb (N.eqb vbar) c = false ->
  split_on vbar (u " " ++ c ++ u " " ++ [vbar] ++ rest)
  = (u " " ++ c ++ u " ") :: split_on vbar rest.
Proof.
  intros H.
  replace (u " " ++ c ++ u " " ++ [vbar] ++ rest)
    with ((u " " ++ c ++ u " ") ++ vbar :: rest)
    by (rewrite <- !app_assoc; reflexivity).
  apply (split_on_app vbar (u " " ++ c ++ u " ") rest).
  rewrite !existsb_app, H. reflexivity.
Qed.

(** One iteration of the loop on a data row with four cells. *)
Lemma parseLine_row4 (st : parseState) (l c : N) (sev description pathStr : jsstring) :
  cleanCell sev = true -> cleanCell description = true -> cleanCell pathStr = true ->
  includes (u "Validation Type:") (rowLine4 l c sev description pathStr) = false ->
  parseLine st (rowLine4 l c sev description pathStr)
  = (fst st,
     snd st ++ [rowIssue (fst st) (toNumber l) (toNumber c) sev description pathStr]).
Proof.
  intros Hs Hd Hp Hv. destruct st as [cur issues].
  apply cleanCell_spec in Hs as [Ns [Ts [Vs [Rs [Ss Bs]]]]].
  apply cleanCell_spec in Hd as [Nd [Td [Vd [Rd [Sd Bd]]]]].
  apply cleanCell_spec in Hp as [Np [Tp [Vp [Rp [Sp Bp]]]]].
  unfold parseLine. rewrite Hv.
  assert (I : includes [vbar] (rowLine4 l c sev description pathStr) = true).
  { unfold rowLine4. rewrite (app_assoc (rangeCell l c)). apply includes_app. }
  rewrite I. cbn [negb].
  assert (S : split_on vbar (rowLine4 l c sev description pathStr)
              = [rangeCell l c ++ u " "; u " " ++ sev ++ u " ";
                 u " " ++ description ++ u " "; u " " ++ pathStr]).
  { unfold rowLine4.
    rewrite split_first_cell
      by (rewrite existsb_app, rangeCell_excludes by reflexivity; reflexivity).
    rewrite (split_cell sev) by exact Vs.
    rewrite (split_cell description) by exact Vd.
    rewrite split_on_absent by (rewrite existsb_app, Vp; reflexivity).
    reflexivity. }
  rewrite S. cbn [List.map].
  rewrite rangeCell_trim, (cell_trim sev Ts), (cell_trim description Td),
    (cell_trim_last pathStr Tp).
  assert (F : List.filter nonEmpty [rangeCell l c; sev; description; pathStr]
              = [rangeCell l c; sev; description; pathStr]).
  { cbn [List.filter].
    pose proof (rangeCell_nonempty l c).
    destruct (rangeCell l c), sev, description, pathStr; try contradiction; reflexivity. }
  rewrite F. unfold isHeaderOrSeparator. cbn [existsb].
  rewrite rangeCell_not_header, Rs, Ss, Bs, Rd, Sd, Bd, Rp, Sp, Bp. cbn [orb].
  rewrite rangeRegex_rangeCell.
  rewrite (proj1 (group_rangeCaps l c)), (proj2 (group_rangeCaps l c)).
  rewrite !parseInt_numToString. reflexivity.
Qed.

(** One iteration of the loop on a data row with three cells. *)
Lemma parseLine_row3 (st : parseState) (l c : N) (sev description : jsstring) :
  cleanCell sev = true -> cleanCell description = true ->
  includes (u "Validation Type:") (rowLine3 l c sev description) = false ->
  parseLine st (rowLine3 l c sev description)
  = (fst st, snd st ++ [rowIssue (fst st) (toNumber l) (toNumber c) sev description []]).
Proof.
  intros Hs Hd Hv. destruct st as [cur issues].
  apply cleanCell_spec in Hs as [Ns [Ts [Vs [Rs [Ss Bs]]]]].
  apply cleanCell_spec in Hd as [Nd [Td [Vd [Rd [Sd Bd]]]]].
  unfold parseLine. rewrite Hv.
  assert (I : includes [vbar] (rowLine3 l c sev description) = true).
  { unfold rowLine3. rewrite (app_assoc (rangeCell l c)). apply includes_app. }
  rewrite I. cbn [negb].
  assert (S : split_on vbar (rowLine3 l c sev description)
              = [rangeCell l c ++ u " "; u " " ++ sev ++ u " "; u " " ++ description]).
  { unfold rowLine3.
    rewrite split_first_cell
      by (rewrite existsb_app, rangeCell_excludes by reflexivity; reflexivity).
    rewrite (split_cell sev) by exact Vs.
    rewrite split_on_absent by (rewrite existsb_app, Vd; reflexivity).
    reflexivity. }
  rewrite S. cbn [List.map].
  rewrite rangeCell_trim, (cell_trim sev Ts), (cell_trim_last description Td).
  assert (F : List.filter nonEmpty [rangeCell l c; sev; description]
              = [rangeCell l c; sev; description]).
  { cbn [List.filter].
    pose proof (rangeCell_nonempty l c).
    destruct (rangeCell l c), sev, description; try contradiction; reflexivity. }
  rewrite F. unfold isHeaderOrSeparator. cbn [existsb].
  rewrite rangeCell_not_header, Rs, Ss, Bs, Rd, Sd, Bd. cbn [orb].
  rewrite rangeRegex_rangeCell.
  rewrite (proj1 (group_rangeCaps l c)), (proj2 (group_rangeCaps l c)).
  rewrite !parseInt_numToString. reflexivity.
Qed.

(** A line that holds the text "Validation Type:" is taken as a header
    and never adds an issue. *)
Lemma parseLine_marked (st : parseState) (ln : jsstring) :
  includes (u "Validation Type:") ln = true -> snd (parseLine st ln) = snd st.
Proof.
  intros H. destruct st as [cur issues]. unfold parseLine. rewrite H.
  destruct (search validationTypeRegex ln) as [[rest typeMatch]|]; reflexivity.
Qed.

(** X5. A table row "L:C | severity | description | path" (cells separated
    by the box-drawing bar and one space; no cell empty, padded, holding a
    bar or marking a header) that does not hold the text "Validation Type:"
    makes one iteration of the parser's loop append exactly one issue: as
    line and column the Number values of L and C, which are L and C
    themselves below 2^53 (a row at line 9007199254740993 is reported at
    line 9007199254740992), then the normalised severity, the description as
    message, the path, and the rule "<current type>-rule"; the issues before
    it and the current validation type are kept. A row without the path
    column gives the same issue with the empty path. A line that holds the
    text "Validation Type:" adds no issue, whatever its cells are. *)
Theorem table_row_round_trip
    (st : parseState) (l c : N) (sev description pathStr : jsstring) :
  cleanCell sev = true -> cleanCell description = true ->
  (cleanCell pathStr = true ->
   includes (u "Validation Type:") (rowLine4 l c sev description pathStr) = false ->
   parseLine st (rowLine4 l c sev description pathStr)
   = (fst st,
      snd st ++ [rowIssue (fst st) (toNumber l) (toNumber c) sev description pathStr])) /\
  (includes (u "Validation Type:") (rowLine3 l c sev description) = false ->
   parseLine st (rowLine3 l c sev description)
   = (fst st,
      snd st ++ [rowIssue (fst st) (toNumber l) (toNumber c) sev description []])) /\
  (l < 2 ^ 53 -> toNumber l = l) /\
  (c < 2 ^ 53 -> toNumber c = c) /\
  toNumber 9007199254740993 = 9007199254740992 /\
  (forall ln : jsstring,
     includes (u "Validation Type:") ln = true -> snd (parseLine st ln) = snd st).
Proof.
  intros Hs Hd. split; [|split; [|split; [|split; [|split]]]].
  - intros Hp Hv. now apply parseLine_row4.
  - intros Hv. now apply parseLine_row3.
  - apply toNumber_small.
  - apply toNumber_small.
  - vm_compute. reflexivity.
  - intros ln. apply parseLine_marked.
Qed.

Lemma table_row_round_trip_witness :
  parseLine (u "security", [expectedIssue])
    (rowLine4 120 7 (u "WARNING") (u "Operation must have a tag") (u "#/paths/~1pets/get"))
  = (u "security",
     [expectedIssue;
      {| severity := SevWarn; rule := u "security-rule";
         message := u "Operation must have a tag"; path := u "#/paths/~1pets/get";
         line := 120; column := 7 |}]).
Proof.
  apply (proj1 (table_row_round_trip (u "security", [expectedIssue]) 120 7 (u "WARNING")
                  (u "Operation must have a tag") (u "#/paths/~1pets/get")
                  eq_refl eq_refl)); reflexivity.
Defined.

(** ** Validation type headers *)

Lemma strip_prefix_ci_app (p rest : jsstring) : strip_prefix_ci p (p ++ rest) = Some rest.
Proof.
  induction p as [|x p IH]; simpl; [reflexivity|]. now rewrite N.eqb_refl.
Qed.

Lemma rmatch_litI (s rest : jsstring) (c : caps) (k : jsstring -> caps -> mres)
    (r : jsstring * caps) :
  k rest c = Some r -> rmatch (LitI s) (s ++ rest) c k = Some r.
Proof. intros H. cbn [rmatch]. now rewrite strip_prefix_ci_app. Qed.

Lemma word_not_space (x : N) : isWord x = true -> isSpace x = false.
Proof.
  unfold isWord, isDigit, isUpper, isLower, isSpace. intros H.
  repeat match goal with
         | |- _ || _ = false => apply orb_false_intro
         end;
    first [ apply N.eqb_neq; bool_to_prop; lia
          | apply andb_false_iff;
            destruct (9 <=? x) eqn:A; [right|left; reflexivity];
            apply N.leb_gt; bool_to_prop; lia
          | apply andb_false_iff;
            destruct (8192 <=? x) eqn:A; [right|left; reflexivity];
            apply N.leb_gt; bool_to_prop; lia ].
Qed.

Lemma word_stops_space (w rest : jsstring) :
  w <> [] -> forallb isWord w = true -> stopsAt isSpace (w ++ rest) = true.
Proof.
  intros Hne Hw. destruct w as [|x w]; [contradiction|].
  simpl in *. apply andb_prop in Hw as [Hx _]. now rewrite (word_not_space x Hx).
Qed.

(** The header line "Validation Type: W": the loop takes the lower-cased
    word as the current type and pushes nothing. *)
Lemma parseLine_header (st : parseState) (w rest : jsstring) :
  w <> [] -> forallb isWord w = true -> stopsAt isWord rest = true ->
  parseLine st (u "Validation Type: " ++ w ++ rest) = (toLowerCase w, snd st).
Proof.
  intros Hne Hw Hrest. destruct st as [cur issues]. unfold parseLine.
  assert (I : includes (u "Validation Type:") (u "Validation Type: " ++ w ++ rest) = true).
  { apply (includes_app (u "Validation Type:") [] (u " " ++ w ++ rest)). }
  rewrite I.
  assert (M : match_here validationTypeRegex (u "Validation Type: " ++ w ++ rest)
              = Some (rest, <[1%nat := w]> ∅)).
  { unfold match_here, validationTypeRegex. cbn [seqs].
    change (u "Validation Type: " ++ w ++ rest)
      with (u "Validation Type:" ++ u " " ++ w ++ rest).
    rewrite rmatch_seq. apply rmatch_litI. cbv beta.
    rewrite rmatch_seq.
    apply rmatch_star_space; [now apply word_stops_space | cbv beta].
    apply rmatch_group_run; [assumption | assumption | assumption | reflexivity]. }
  rewrite search_unfold, M. reflexivity.
Qed.

(** X6. After a header line "Validation Type: W" the rows that follow
    carry the rule "w-rule", w being W in lower case: the header sets the
    current validation type and adds no issue, and the next data row (clean
    cells, and no "Validation Type:" in it, which would make it a header) is
    tagged with it; its line and column are the Number values of the numbers
    written in the row, which are these numbers themselves below 2^53. *)
Theorem header_sets_rule_of_rows
    (st : parseState) (w : jsstring) (l c : N) (sev description pathStr : jsstring) :
  w <> [] -> forallb isWord w = true ->
  cleanCell sev = true -> cleanCell description = true -> cleanCell pathStr = true ->
  includes (u "Validation Type:") (rowLine4 l c sev description pathStr) = false ->
  parseLine st (u "Validation Type: " ++ w) = (toLowerCase w, snd st) /\
  fold_left parseLine
    [u "Validation Type: " ++ w; rowLine4 l c sev description pathStr] st
  = (toLowerCase w,
     snd st ++ [rowIssue (toLowerCase w) (toNumber l) (toNumber c)
                  sev description pathStr]) /\
  (l < 2 ^ 53 -> toNumber l = l) /\
  (c < 2 ^ 53 -> toNumber c = c).
Proof.
  intros Hne Hw Hs Hd Hp Hv.
  assert (H : parseLine st (u "Validation Type: " ++ w) = (toLowerCase w, snd st)).
  { rewrite <- (app_nil_r w) at 1. now apply parseLine_header. }
  split; [exact H|]. split; [|split; apply toNumber_small].
  cbn [fold_left]. rewrite H. now rewrite parseLine_row4.
Qed.

Lemma header_sets_rule_of_rows_witness :
  fold_left parseLine
    [u "Validation Type: Security";
     rowLine4 3 1 (u "error") (u "API must use https") (u "#/servers/0")]
    (u "governance", [])
  = (u "security",
     [ {| severity := SevError; rule := u "security-rule";
          message := u "API must use https"; path := u "#/servers/0";
          line := 3; column := 1 |} ]).
Proof.
  apply (proj1 (proj2 (header_sets_rule_of_rows (u "governance", []) (u "Security") 3 1
                  (u "error") (u "API must use https") (u "#/servers/0")
                  ltac:(discriminate) eq_refl eq_refl eq_refl eq_refl eq_refl))).
Defined.

(** ** Colour codes *)

Lemma ansi_no_match (x : N) (t : jsstring) :
  (ESC =? x) = false -> match_here ansiRegex (x :: t) = None.
Proof.
  intros H. unfold match_here, ansiRegex. cbn [seqs]. rewrite rmatch_seq.
  cbn [rmatch]. change (ESC :: u "[") with (ESC :: [91]). cbn [strip_prefix].
  now rewrite H.
Qed.

Lemma remove_all_plain (a rest : jsstring) :
  noEsc a = true ->
  remove_all ansiRegex 0 (a ++ rest) = a ++ remove_all ansiRegex 0 rest.
Proof.
  unfold noEsc. induction a as [|x a IH]; intros H; [reflexivity|].
  simpl in H. apply negb_true_iff, orb_false_elim in H as [Hx Ha].
  cbn [app remove_all]. rewrite (ansi_no_match x _ Hx).
  now rewrite IH by (now apply negb_true_iff).
Qed.

Lemma remove_all_skip (r : regex) (p rest : jsstring) :
  remove_all r (length p) (p ++ rest) = remove_all r 0 rest.
Proof. induction p as [|x p IH]; [reflexivity|]. simpl. exact IH. Qed.

Lemma ansi_match (params rest : jsstring) :
  forallb isSgrParam params = true ->
  match_here ansiRegex (sgr params ++ rest) = Some (rest, ∅).
Proof.
  intros H. unfold match_here, ansiRegex, sgr. cbn [seqs].
  rewrite <- !app_assoc.
  change ([ESC] ++ u "[" ++ params ++ u "m" ++ rest)
    with ((ESC :: u "[") ++ params ++ u "m" ++ rest).
  rewrite rmatch_seq. apply rmatch_lit. cbv beta.
  rewrite rmatch_seq. cbn [rmatch].
  apply star_greedy_run; [exact H | reflexivity |].
  now rewrite strip_prefix_app.
Qed.

Lemma remove_all_sgr (params rest : jsstring) :
  forallb isSgrParam params = true ->
  remove_all ansiRegex 0 (sgr params ++ rest) = remove_all ansiRegex 0 rest.
Proof.
  intros H. pose proof (ansi_match params rest H) as M.
  unfold sgr in *. rewrite <- !app_assoc in *. cbn [app] in *.
  cbn [remove_all]. rewrite M.
  replace (length (ESC :: u "[" ++ params ++ u "m" ++ rest) - length rest)%nat
    with (S (length (u "[" ++ params ++ u "m"))).
  - replace (u "[" ++ params ++ u "m" ++ rest) with ((u "[" ++ params ++ u "m") ++ rest)
      by (rewrite <- !app_assoc; reflexivity).
    apply remove_all_skip.
  - cbn [length]. rewrite !length_app. cbn [length]. lia.
Qed.

(** X7. Removing the colour codes leaves a text without ESC as it is, and
    takes out a sequence ESC [ parameters m (parameters being digits and
    semicolons) that follows such a text, whole and alone: what comes after
    it is treated in the same way. *)
Theorem stripAnsi_removes_colour_codes (a params rest : jsstring) :
  noEsc a = true -> forallb isSgrParam params = true ->
  stripAnsi a = a /\
  stripAnsi (a ++ sgr params ++ rest) = a ++ stripAnsi rest.
Proof.
  intros Ha Hp. unfold stripAnsi. split.
  - rewrite <- (app_nil_r a) at 1. rewrite remove_all_plain by exact Ha.
    simpl. apply app_nil_r.
  - rewrite remove_all_plain by exact Ha. now rewrite remove_all_sgr.
Qed.

Lemma stripAnsi_removes_colour_codes_witness :
  stripAnsi (u "1 problem") = u "1 problem" /\
  stripAnsi (u "1 problem" ++ sgr (u "1;31") ++ u " found") = u "1 problem" ++ stripAnsi (u " found").
Proof.
  apply (stripAnsi_removes_colour_codes (u "1 problem") (u "1;31") (u " found")); reflexivity.
Defined.

(** ** Invariants of the parser *)

Lemma parseLine_grows (st : parseState) (ln : jsstring) :
  snd (parseLine st ln) = snd st \/
  (includes [vbar] ln = true /\
   exists range sev description more (l c : N),
     List.filter nonEmpty (List.map trim (split_on vbar ln))
     = range :: sev :: description :: more /\
     snd (parseLine st ln)
     = snd st ++ [ {| severity := normalizeSeverity sev;
                      rule := fst st ++ u "-rule";
                      message := description;
                      path := match more with p :: _ => p | [] => [] end;
                      line := l; column := c |} ]).
Proof.
  destruct st as [cur issues]. unfold parseLine.
  destruct (includes (u "Validation Type:") ln).
  { left. destruct (search validationTypeRegex ln) as [[? ?]|]; reflexivity. }
  destruct (includes [vbar] ln); [|now left]. cbn [negb].
  destruct (isHeaderOrSeparator _); [now left|].
  destruct (List.filter nonEmpty (List.map trim (split_on vbar ln)))
    as [|range [|sev [|description more]]]; try (now left).
  right. split; [reflexivity|].
  exists range, sev, description, more.
  destruct (match_here rangeRegex range) as [[? rangeMatch]|].
  - eexists _, _. split; reflexivity.
  - exists 0, 0. split; reflexivity.
Qed.

Lemma fold_parseLine_bound (lines : list jsstring) :
  forall st,
    (length (snd (fold_left parseLine lines st))
     <= length (snd st) + length (List.filter (includes [vbar]) lines))%nat.
Proof.
  induction lines as [|ln lines IH]; intros st; cbn [fold_left List.filter].
  - simpl. lia.
  - specialize (IH (parseLine st ln)).
    destruct (parseLine_grows st ln) as [E|[I [r [s [d [m [l [c [_ E]]]]]]]]].
    + rewrite E in IH. destruct (includes [vbar] ln); simpl; lia.
    + rewrite E, length_app in IH. rewrite I. simpl in *. lia.
Qed.

(** X8. The table path yields at most one issue per line that holds the
    column separator: the parser never reports more issues from tables
    than the output has such lines, and none when it has none. *)
Theorem table_issues_bounded_by_rows (out : jsstring) :
  (length (parseTable (stripAnsi out)) <= length (barLines (stripAnsi out)))%nat /\
  (barLines (stripAnsi out) = [] -> parseTable (stripAnsi out) = []).
Proof.
  assert (B : (length (parseTable (stripAnsi out))
               <= length (barLines (stripAnsi out)))%nat).
  { unfold parseTable, barLines.
    pose proof (fold_parseLine_bound (split_on LF (stripAnsi out)) (u "governance", [])) as H.
    simpl in H. exact H. }
  split; [exact B|].
  intros E. rewrite E in B. simpl in B.
  destruct (parseTable (stripAnsi out)); [reflexivity | simpl in B; lia].
Qed.

Lemma table_issues_bounded_by_rows_witness :
  parseTable (stripAnsi (u "3 problems (1 errors, 1 warnings, 0 infos, 1 hints)")) = [].
Proof.
  apply (proj2 (table_issues_bounded_by_rows
                  (u "3 problems (1 errors, 1 warnings, 0 infos, 1 hints)"))).
  reflexivity.
Defined.

Lemma endsWith_app (a suffix : jsstring) : endsWith suffix (a ++ suffix) = true.
Proof.
  unfold endsWith, startsWith. now rewrite rev_app_distr, strip_prefix_app.
Qed.

Lemma filter_nonEmpty_in (x : jsstring) (l : list jsstring) :
  In x (List.filter nonEmpty l) -> x <> [].
Proof.
  intros H. apply List.filter_In in H as [_ H]. intros ->. discriminate.
Qed.

Lemma fold_parseLine_wellFormed (lines : list jsstring) :
  forall st,
    Forall wellFormedIssue (snd st) ->
    Forall wellFormedIssue (snd (fold_left parseLine lines st)).
Proof.
  induction lines as [|ln lines IH]; intros st H; cbn [fold_left]; [exact H|].
  apply IH.
  destruct (parseLine_grows st ln) as [E|[_ [r [s [d [m [l [c [F E]]]]]]]]];
    rewrite E; [exact H|].
  apply Forall_app. split; [exact H|]. constructor; [|constructor].
  split; simpl.
  - apply (filter_nonEmpty_in d (List.map trim (split_on vbar ln))).
    rewrite F. simpl. auto.
  - apply endsWith_app.
Qed.

Lemma Forall_repeat {A} (P : A -> Prop) (x : A) (n : nat) : P x -> Forall P (repeat x n).
Proof. intros H. induction n; simpl; constructor; assumption. Qed.

Lemma parseFallback_wellFormed (clean : jsstring) :
  Forall wellFormedIssue (parseFallback clean).
Proof.
  unfold parseFallback. destruct (search summaryRegex clean) as [[? m]|]; [|constructor].
  rewrite !Forall_app. repeat split; apply Forall_repeat; split;
    try discriminate; reflexivity.
Qed.

(** X9. Every issue the parser returns, from a table row or from the
    summary line, has a non-empty message and a rule that ends in "-rule". *)
Theorem parsed_issues_well_formed (out : jsstring) :
  Forall wellFormedIssue (fst (parseStdoutToIssuesAndSummary out)).
Proof.
  unfold parseStdoutToIssuesAndSummary. cbn [fst].
  destruct (parseTable (stripAnsi out)) as [|i l] eqn:E.
  - apply parseFallback_wellFormed.
  - rewrite <- E. unfold parseTable. apply fold_parseLine_wellFormed. constructor.
Qed.

(** ** What a validation run publishes *)

Lemma toDiagnostic_source (l : list PostmanIssue) :
  Forall (fun d => Diagnostic.source d = u "postman-governance") (List.map toDiagnostic l).
Proof. induction l; simpl; constructor; auto. Qed.

Lemma publications_app (a b : list Action) :
  publications (a ++ b) = publications a ++ publications b.
Proof. unfold publications. apply flat_map_app. Qed.

Lemma publications_cleanup (w : World) : publications (cleanupTrace w) = [].
Proof. unfold cleanupTrace. destruct (unlinkError w); reflexivity. Qed.

Lemma publications_execTrace (sc : GovernanceScorer) (w : ExecWorld) (specPath : jsstring) :
  publications (execTrace sc w specPath) = [].
Proof.
  unfold execTrace, executeWithTempFile.
  destruct (outcome w) as [e| |c [out|re] [ue|]]; reflexivity.
Qed.

Lemma passesGates_scorer (self : PostmanLintServer) (doc : TextDocument) :
  passesGates self doc = true -> exists sc, governanceScorer self = Some sc.
Proof.
  unfold passesGates, scorerMissing. intros G.
  destruct (governanceScorer self) as [sc|]; [now exists sc|].
  rewrite andb_false_r in G. discriminate.
Qed.

(** The publications of a run: none, or one for the document of the run,
    with diagnostics that all carry the source tag. *)
Lemma validate_publications (self : PostmanLintServer) (w : World) (doc : TextDocument) :
  publications (trace (validateTextDocument self w doc)) = [] \/
  exists ds,
    publications (trace (validateTextDocument self w doc)) = [(uri doc, ds)] /\
    Forall (fun d => Diagnostic.source d = u "postman-governance") ds.
Proof.
  destruct (passesGates self doc) eqn:G.
  - right. destruct (writeError w) as [e|] eqn:W.
    + exists [errorDiagnostic e]. rewrite (validate_write_fails self w doc e G W).
      rewrite publications_app, publications_cleanup. split; [reflexivity|].
      constructor; [reflexivity | constructor].
    + destruct (passesGates_scorer self doc G) as [sc S].
      exists (List.map toDiagnostic (lintedIssues w)).
      rewrite (validate_write_ok self w doc sc G S W).
      change (WriteFile ?f ?c :: ?t) with ([WriteFile f c] ++ t).
      rewrite !publications_app, publications_execTrace, publications_cleanup.
      split; [reflexivity | apply toDiagnostic_source].
  - unfold passesGates in G.
    destruct (negb (enable (settings self)) || scorerMissing self) eqn:H1;
      [left; rewrite validate_off by exact H1; reflexivity|].
    destruct (oversize self doc) eqn:H2;
      [left; rewrite validate_oversize by assumption; reflexivity|].
    destruct (isSupportedFile (uri doc)) eqn:H3;
      [|left; rewrite validate_unsupported by assumption; reflexivity].
    destruct (isOpenAPIContent (getText doc)) eqn:H4.
    + apply orb_false_iff in H1 as [E S]. apply negb_false_iff in E.
      rewrite E, S in G. discriminate.
    + right. exists []. rewrite validate_no_marker by assumption.
      split; [reflexivity | constructor].
Qed.

Lemma handleDiagnostics_keeps (ds : list Diagnostic.t) :
  Forall (fun d => Diagnostic.source d = u "postman-governance") ds ->
  handleDiagnostics ds = ds.
Proof.
  unfold handleDiagnostics. induction 1 as [|d ds Hd _ IH]; [reflexivity|].
  simpl. rewrite Hd, IH. reflexivity.
Qed.

(** X10. Whatever a validation run publishes passes the client's
    [handleDiagnostics] filter unchanged: every diagnostic the server sends,
    from an issue or from the catch block, carries the source
    "postman-governance" that the filter keeps. *)
Theorem client_filter_keeps_server_diagnostics
    (self : PostmanLintServer) (w : World) (doc : TextDocument)
    (docUri : jsstring) (ds : list Diagnostic.t) :
  In (docUri, ds) (publications (trace (validateTextDocument self w doc))) ->
  handleDiagnostics ds = ds /\
  Forall (fun d => Diagnostic.source d = u "postman-governance") ds.
Proof.
  intros H. destruct (validate_publications self w doc) as [E|[ds' [E F]]];
    rewrite E in H; simpl in H; [contradiction|].
  destruct H as [H|[]]. injection H as _ <-.
  split; [now apply handleDiagnostics_keeps | exact F].
Qed.

Lemma client_filter_keeps_server_diagnostics_witness :
  handleDiagnostics [errorDiagnostic diskFull] = [errorDiagnostic diskFull] /\
  Forall (fun d => Diagnostic.source d = u "postman-governance") [errorDiagnostic diskFull].
Proof.
  apply (client_filter_keeps_server_diagnostics defaultServer writeFailsWorld sampleDoc
           (uri sampleDoc) [errorDiagnostic diskFull]).
  vm_compute. left. reflexivity.
Defined.

Lemma try_catch_unit (m : M unit) (h : JsError -> M unit) :
  (forall e, result (h e) = Normal tt) -> result (try_catch m h) = Normal tt.
Proof.
  intros H. destruct m as [t [[]|e]]; simpl; [reflexivity|].
  specialize (H e). unfold result in H. destruct (h e) as [t' r]. exact H.
Qed.

(** X11. A validation run never throws, whatever the outside answers; it
    publishes at most one diagnostic set, and only for the document it was
    called on. *)
Theorem validation_run_completes_and_publishes_once
    (self : PostmanLintServer) (w : World) (doc : TextDocument) :
  result (validateTextDocument self w doc) = Normal tt /\
  (length (publications (trace (validateTextDocument self w doc))) <= 1)%nat /\
  (forall docUri ds,
     In (docUri, ds) (publications (trace (validateTextDocument self w doc))) ->
     docUri = uri doc).
Proof.
  split; [|split].
  - unfold validateTextDocument.
    destruct (negb (enable (settings self)) || _); [reflexivity|].
    apply try_catch_unit. intros e. reflexivity.
  - destruct (validate_publications self w doc) as [E|[ds [E _]]]; rewrite E; simpl; lia.
  - intros docUri ds H.
    destruct (validate_publications self w doc) as [E|[ds' [E _]]];
      rewrite E in H; simpl in H; [contradiction|].
    destruct H as [H|[]]. now injection H as <- _.
Qed.

(** ** The temporary file of a run *)


Lemma lintDocumentContent_write_fails (self : PostmanLintServer) (w : World)
    (content : jsstring) (sc : GovernanceScorer) (e : JsError) :
  governanceScorer self = Some sc ->
  writeError w = Some e ->
  lintDocumentContent self w content = (cleanupTrace w, Throw e).
Proof.
  intros S W. unfold lintDocumentContent, cleanupTrace. rewrite S, W.
  destruct (unlinkError w); reflexivity.
Qed.






(** ** The lintDocument request *)



(** ** Supported files *)

(** X14. A URI whose last characters are ".yaml", ".yml" or ".json" in any
    mix of upper and lower case is a supported file, whatever comes before
    them. *)
Theorem isSupportedFile_extension_any_case (base ext : jsstring) :
  toLowerCase ext = u ".yaml" \/ toLowerCase ext = u ".yml" \/ toLowerCase ext = u ".json" ->
  isSupportedFile (base ++ ext) = true.
Proof.
  intros H. unfold isSupportedFile. rewrite toLowerCase_app. cbn [existsb].
  destruct H as [H|[H|H]]; rewrite H, endsWith_app; cbn [orb];
    rewrite ?orb_true_r; reflexivity.
Qed.

Lemma isSupportedFile_extension_any_case_witness :
  isSupportedFile (u "file:///C:/Specs/Pet Store" ++ u ".YaML") = true.
Proof.
  apply (isSupportedFile_extension_any_case (u "file:///C:/Specs/Pet Store") (u ".YaML")).
  left. reflexivity.
Defined.

(** ** The result of the scorer *)

(** X15. Whatever the outcome of the invocation, the result of
    [scoreSpecFile] is consistent: [violations] is the issue list,
    [violationCount] its length, the summary counts these issues, [api] is
    the base name of the spec path, and a result with an error message has
    no issue and score 0. *)
Theorem score_result_consistent
    (sc : GovernanceScorer) (w : ExecWorld) (iso specPath : jsstring) :
  exists r : ScoreResult.t,
    result (scoreSpecFile sc w iso specPath) = Normal r /\
    ScoreResult.violations r = ScoreResult.issues r /\
    ScoreResult.violationCount r = N.of_nat (length (ScoreResult.issues r)) /\
    ScoreResult.summary r = summarizeIssues (ScoreResult.issues r) /\
    ScoreResult.api r = basename specPath /\
    ScoreResult.timestamp r = iso /\
    (ScoreResult.error r <> None ->
     ScoreResult.issues r = [] /\ (ScoreResult.score r == 0)%Q).
Proof.
  eexists. split; [apply scoreSpecFile_result|].
  destruct (hasParseErrorMarkers (parsedText (outcome w))); cbn.
  - repeat split.
  - repeat split;
      match goal with
      | X : None <> None |- _ => now contradiction X
      end.
Qed.

(** ** Configuration changes and the scorer *)

Lemma runValidate_frame (w : World) (doc : TextDocument) (st : ServerState) :
  self (runValidate w doc st) = self st /\
  heap (runValidate w doc st) = heap st /\
  synced (runValidate w doc st) = synced st /\
  timers (runValidate w doc st) = timers st /\
  clock (runValidate w doc st) = clock st.
Proof. repeat split. Qed.

Lemma validateAll_frame (ws : nat -> World) (refs : list (jsstring * nat)) :
  forall i st,
    self (validateAll ws i refs st) = self st /\
    heap (validateAll ws i refs st) = heap st /\
    synced (validateAll ws i refs st) = synced st /\
    cliValidatorPath (validateAll ws i refs st) = cliValidatorPath st.
Proof.
  induction refs as [|[k r] refs IH]; intros i st; simpl; [repeat split|].
  destruct (IH (S i) (match heap st !! r with
                      | Some doc => runValidate (ws i) doc st
                      | None => st
                      end)) as [A [B [C D]]].
  rewrite A, B, C, D. destruct (heap st !! r); repeat split.
Qed.

Lemma validateAll_calls (ws : nat -> World) (refs : list (jsstring * nat)) :
  forall i st,
    calls (validateAll ws i refs st)
    = calls st
      ++ List.map uri
           (flat_map (fun entry => match heap st !! snd entry with
                                   | Some document => [document]
                                   | None => []
                                   end) refs).
Proof.
  induction refs as [|[k r] refs IH]; intros i st; simpl.
  - now rewrite app_nil_r.
  - rewrite IH. destruct (heap st !! r) as [doc|]; simpl.
    + now rewrite <- app_assoc.
    + reflexivity.
Qed.

(** X16. A configuration change validates every open document once, in
    the order of the document manager. With the configuration capability
    each of the six settings becomes the value the client sent for it, or
    its default (true, "postman", true, false, 500, 1048576) when the client
    sent none; without the capability the settings become the defaults. So
    nothing of the previous settings survives. The change points the CLI
    validator at the new path, and it leaves the scorer, the documents and
    the pending timers as they are. *)
Theorem configuration_change_revalidates_all
    (st : ServerState) (newSettings : PartialSettings) (ws : nat -> World) :
  let st' := onDidChangeConfiguration newSettings ws st in
  calls st' = calls st ++ List.map uri (openDocuments st) /\
  (forall st2 : ServerState,
     hasConfigurationCapability (self st2) = hasConfigurationCapability (self st) ->
     settings (self (onDidChangeConfiguration newSettings ws st2)) = settings (self st')) /\
  (hasConfigurationCapability (self st) = true ->
   settings (self st') = overlay DEFAULT_SETTINGS newSettings /\
   enable (settings (self st'))
   = match p_enable newSettings with Some v => v | None => true end /\
   postmanCliPath (settings (self st'))
   = match p_postmanCliPath newSettings with Some v => v | None => u "postman" end /\
   lintOnSave (settings (self st'))
   = match p_lintOnSave newSettings with Some v => v | None => true end /\
   lintOnChange (settings (self st'))
   = match p_lintOnChange newSettings with Some v => v | None => false end /\
   lintOnChangeDelay (settings (self st'))
   = match p_lintOnChangeDelay newSettings with Some v => v | None => 500%Z end /\
   maxFileSize (settings (self st'))
   = match p_maxFileSize newSettings with Some v => v | None => 1048576%Z end) /\
  (hasConfigurationCapability (self st) = false ->
   settings (self st') = DEFAULT_SETTINGS /\
   DEFAULT_SETTINGS
   = {| enable := true; postmanCliPath := u "postman"; lintOnSave := true;
        lintOnChange := false; lintOnChangeDelay := 500; maxFileSize := 1048576 |}) /\
  cliValidatorPath st' = postmanCliPath (settings (self st')) /\
  governanceScorer (self st') = governanceScorer (self st) /\
  heap st' = heap st /\ synced st' = synced st /\ timers st' = timers st.
Proof.
  intros st'. subst st'.
  set (s := if hasConfigurationCapability (self st)
            then overlay DEFAULT_SETTINGS newSettings else DEFAULT_SETTINGS).
  set (st1 := {| self := {| settings := s;
                            governanceScorer := governanceScorer (self st);
                            hasConfigurationCapability :=
                              hasConfigurationCapability (self st) |};
                 cliValidatorPath := postmanCliPath s;
                 heap := heap st; synced := synced st; timers := timers st;
                 clock := clock st; log := log st; calls := calls st |}).
  assert (E : onDidChangeConfiguration newSettings ws st
              = validateAll ws 0 (synced st1) st1) by reflexivity.
  rewrite E.
  destruct (validateAll_frame ws (synced st1) 0 st1) as [A1 [A2 [A3 A4]]].
  rewrite A1, A2, A3, A4, validateAll_timers, validateAll_calls.
  cbn [self heap synced timers calls cliValidatorPath settings governanceScorer st1].
  split; [reflexivity|].
  split.
  { intros st2 E2. unfold onDidChangeConfiguration.
    match goal with
    | |- context [validateAll ?w ?i ?refs ?x] =>
        destruct (validateAll_frame w refs i x) as [B _]; rewrite B
    end.
    cbn [self settings]. subst s. now rewrite E2. }
  split.
  { intros C. subst s. rewrite C.
    split; [reflexivity|]. split; [reflexivity|]. split; [reflexivity|].
    split; [reflexivity|]. split; [reflexivity|]. split; reflexivity. }
  split.
  { intros C. subst s. rewrite C. split; reflexivity. }
  split; [reflexivity|]. split; [reflexivity|]. split; [reflexivity|].
  split; reflexivity.
Qed.

Lemma runValidate_off (w : World) (doc : TextDocument) (st : ServerState) :
  governanceScorer (self st) = None ->
  log (runValidate w doc st) = log st.
Proof.
  intros S. unfold runValidate. cbn [log].
  rewrite validate_off; [apply app_nil_r|].
  unfold scorerMissing. rewrite S. apply orb_true_r.
Qed.

Lemma validateAll_off (ws : nat -> World) (refs : list (jsstring * nat)) :
  forall i st,
    governanceScorer (self st) = None ->
    log (validateAll ws i refs st) = log st.
Proof.
  induction refs as [|[k r] refs IH]; intros i st S; simpl; [reflexivity|].
  destruct (heap st !! r) as [doc|]; [|now apply IH].
  rewrite IH by exact S. now apply runValidate_off.
Qed.

Lemma step_without_scorer (st st' : ServerState) (e : Event) :
  isInitialized e = false ->
  governanceScorer (self st) = None ->
  step st e = Some st' ->
  governanceScorer (self st') = None /\
  exists new,
    log st' = log st ++ new /\
    spawnedCommands new = [] /\
    forallb isClearing (publications new) = true.
Proof.
  intros I S H.
  destruct e as [key|docUri text|docUri text|docUri w|docUri|ns ws|n w|dt]; simpl in H.
  - discriminate I.
  - injection H as <-. unfold onDidChangeDocument. cbn [self settings].
    destruct (lintOnChange (settings (self st))); cbn;
      (split; [exact S | exists []; now rewrite app_nil_r]).
  - destruct (syncedGet docUri (synced st)); [|discriminate].
    injection H as <-. unfold onDidChangeDocument. cbn [self settings].
    destruct (lintOnChange (settings (self st))); cbn;
      (split; [exact S | exists []; now rewrite app_nil_r]).
  - destruct (syncedGet docUri (synced st)); [|discriminate].
    destruct (heap st !! n) as [doc|]; [|discriminate].
    injection H as <-. unfold onDidSaveDocument.
    destruct (lintOnSave (settings (self st))).
    + split; [exact S|]. exists []. rewrite app_nil_r.
      rewrite (runValidate_off w doc st S). repeat split.
    + split; [exact S|]. exists []. now rewrite app_nil_r.
  - destruct (syncedGet docUri (synced st)); [|discriminate].
    destruct (heap st !! n) as [doc|]; [|discriminate].
    injection H as <-. cbn. split; [exact S|].
    exists [SendDiagnostics (uri doc) []]. repeat split.
  - injection H as <-. unfold onDidChangeConfiguration.
    match goal with
    | |- context [validateAll ?w ?i ?refs ?x] =>
        destruct (validateAll_frame w refs i x) as [A _];
        pose proof (validateAll_off w refs i x S) as L
    end.
    rewrite A, L. cbn. split; [exact S|]. exists []. now rewrite app_nil_r.
  - destruct (timers st !! n) as [t|]; [|discriminate].
    destruct (due t <=? clock st)%Z; [|discriminate].
    destruct (heap st !! target t) as [doc|]; [|discriminate].
    injection H as <-. split; [exact S|]. exists [].
    rewrite app_nil_r, runValidate_off by exact S. repeat split.
  - destruct (0 <=? dt)%Z; [|discriminate].
    injection H as <-. cbn. split; [exact S|]. exists []. now rewrite app_nil_r.
Qed.

(** X17. The scorer is created by the initialisation only. When it is
    missing, no sequence of document events, saves, timer firings and
    configuration changes brings it into being: through all of them no
    process is ever spawned and the only publications are the empty sets
    sent when documents are closed. *)
Theorem missing_scorer_is_never_created (es : list Event) :
  forall st st' : ServerState,
    forallb (fun e => negb (isInitialized e)) es = true ->
    governanceScorer (self st) = None ->
    steps st es = Some st' ->
    governanceScorer (self st') = None /\
    exists new,
      log st' = log st ++ new /\
      spawnedCommands new = [] /\
      forallb isClearing (publications new) = true.
Proof.
  induction es as [|e es IH]; intros st st' I S H.
  - injection H as <-. split; [exact S|]. exists []. now rewrite app_nil_r.
  - simpl in I. apply andb_prop in I as [Ie Ies]. apply negb_true_iff in Ie.
    cbn [steps] in H. destruct (step st e) as [st1|] eqn:E; [|discriminate].
    destruct (step_without_scorer st st1 e Ie S E) as [S1 [n1 [L1 [P1 C1]]]].
    destruct (IH st1 st' Ies S1 H) as [S2 [n2 [L2 [P2 C2]]]].
    split; [exact S2|]. exists (n1 ++ n2). rewrite L2, L1, <- app_assoc.
    split; [reflexivity|].
    rewrite spawnedCommands_app, P1, P2, publications_app, forallb_app, C1, C2.
    repeat split.
Qed.

Lemma missing_scorer_is_never_created_witness :
  exists st',
    steps noScorerState busyEvents = Some st' /\
    governanceScorer (self st') = None /\
    exists new,
      log st' = log noScorerState ++ new /\
      spawnedCommands new = [] /\
      forallb isClearing (publications new) = true.
Proof.
  destruct (steps noScorerState busyEvents) as [st'|] eqn:E; [|discriminate E].
  exists st'. split; [reflexivity|].
  exact (missing_scorer_is_never_created busyEvents noScorerState st' eq_refl eq_refl E).
Defined.

(** ** Closing a document with a timer pending *)




(** ** The CLI validator *)

Lemma rmatch_grp (i : nat) (r : regex) (inp : jsstring) (c : caps)
    (k : jsstring -> caps -> mres) :
  rmatch (Grp i r) inp c k
  = rmatch r inp c
      (fun rest c' => k rest (<[i := firstn (length inp - length rest) inp]> c')).
Proof. reflexivity. Qed.

Lemma rmatch_plus_run (p : N -> bool) (run rest : jsstring) (c : caps)
    (k : jsstring -> caps -> mres) (r : jsstring * caps) :
  run <> [] -> forallb p run = true -> stopsAt p rest = true ->
  k rest c = Some r ->
  rmatch (Plus p) (run ++ rest) c k = Some r.
Proof.
  intros Hne Hrun Hx Hk. destruct run as [|y run]; [contradiction|].
  simpl in Hrun. apply andb_prop in Hrun as [Hy Hrun].
  unfold Plus. cbn [rmatch app]. rewrite Hy.
  now apply star_greedy_run.
Qed.

Lemma numeral_head (n : N) :
  exists x t, numToString n = x :: t /\ isDigit x = true.
Proof.
  pose proof (numToString_nonempty n) as Hne.
  pose proof (numToString_digits n) as Hd.
  destruct (numToString n) as [|x t]; [contradiction|].
  simpl in Hd. apply andb_prop in Hd as [Hx _]. now exists x, t.
Qed.

Lemma versionNumber_match (a b c : N) (rest : jsstring) (cp : caps)
    (k : jsstring -> caps -> mres) (r : jsstring * caps) :
  stopsAt isDigit rest = true ->
  k rest (<[1%nat := versionString a b c]> cp) = Some r ->
  rmatch (Grp 1 versionNumber) (versionString a b c ++ rest) cp k = Some r.
Proof.
  intros Hrest Hk. rewrite rmatch_grp.
  set (inp := versionString a b c ++ rest).
  assert (E : inp = numToString a ++ u "." ++ numToString b ++ u "." ++ numToString c ++ rest).
  { unfold inp, versionString. now rewrite <- !app_assoc. }
  rewrite E at 1. unfold versionNumber. cbn [seqs].
  rewrite rmatch_seq. apply rmatch_plus_run;
    [apply numToString_nonempty | apply numToString_digits | reflexivity | cbv beta].
  rewrite rmatch_seq. apply rmatch_lit. cbv beta.
  rewrite rmatch_seq. apply rmatch_plus_run;
    [apply numToString_nonempty | apply numToString_digits | reflexivity | cbv beta].
  rewrite rmatch_seq. apply rmatch_lit. cbv beta.
  apply rmatch_plus_run;
    [apply numToString_nonempty | apply numToString_digits | exact Hrest | cbv beta].
  unfold inp. rewrite firstn_run. exact Hk.
Qed.

Lemma versionPattern1_none (text : jsstring) :
  noLetterV text = true ->
  search (seqs [LitI (u "version"); Plus isSpace; Grp 1 versionNumber]) text = None.
Proof.
  unfold noLetterV. induction text as [|x t IH]; intros H.
  - reflexivity.
  - simpl in H. apply andb_prop in H as [Hx Ht]. apply negb_true_iff in Hx.
    rewrite search_unfold. unfold match_here. cbn [seqs]. rewrite rmatch_seq.
    cbn [rmatch]. change (u "version") with (118 :: u "ersion"). cbn [strip_prefix_ci].
    change (canonicalize 118) with 86. rewrite N.eqb_sym, Hx. now apply IH.
Qed.

Lemma digit_not_v (x : N) : isDigit x = true -> (118 =? x) = false.
Proof.
  unfold isDigit. intros H. apply N.eqb_neq. bool_to_prop. lia.
Qed.

Lemma versionPattern2_here (a b c : N) (rest : jsstring) :
  stopsAt isDigit rest = true ->
  match_here (seqs [Opt (Lit (u "v")); Grp 1 versionNumber]) (versionString a b c ++ rest)
  = Some (rest, <[1%nat := versionString a b c]> ∅).
Proof.
  intros Hrest. unfold match_here. cbn [seqs]. rewrite rmatch_seq.
  assert (F : rmatch (Lit (u "v")) (versionString a b c ++ rest) ∅
                (fun rest0 c' => rmatch (Grp 1 versionNumber) rest0 c' accept) = None).
  { destruct (numeral_head a) as [x [t [E Hx]]]. unfold versionString. rewrite E.
    cbn [rmatch app]. change (u "v") with [118]. cbn [strip_prefix].
    now rewrite (digit_not_v x Hx). }
  change (rmatch (Opt (Lit (u "v"))) ?i ?c ?k)
    with (match rmatch (Lit (u "v")) i c k with Some x => Some x | None => k i c end).
  rewrite F. now apply versionNumber_match.
Qed.

Lemma versionPattern2_skip (x : N) (t : jsstring) :
  isDigit x = false -> (canonicalize x =? 86) = false ->
  match_here (seqs [Opt (Lit (u "v")); Grp 1 versionNumber]) (x :: t) = None.
Proof.
  intros Hd Hv. unfold match_here. cbn [seqs]. rewrite rmatch_seq.
  assert (V : (118 =? x) = false).
  { apply N.eqb_neq. intros <-. discriminate Hv. }
  change (rmatch (Opt (Lit (u "v"))) ?i ?c ?k)
    with (match rmatch (Lit (u "v")) i c k with Some x => Some x | None => k i c end).
  cbn [rmatch]. change (u "v") with [118]. cbn [strip_prefix]. rewrite V.
  unfold versionNumber. cbn [seqs rmatch Plus]. now rewrite Hd.
Qed.

Lemma versionPattern2_search (pre : jsstring) (a b c : N) (rest : jsstring) :
  forallb (fun x => negb (isDigit x)) pre = true -> noLetterV pre = true ->
  stopsAt isDigit rest = true ->
  search (seqs [Opt (Lit (u "v")); Grp 1 versionNumber]) (pre ++ versionString a b c ++ rest)
  = Some (rest, <[1%nat := versionString a b c]> ∅).
Proof.
  unfold noLetterV. intros Hd Hv Hrest. induction pre as [|x pre IH].
  - cbn [app]. rewrite search_unfold, versionPattern2_here by exact Hrest. reflexivity.
  - simpl in Hd, Hv. apply andb_prop in Hd as [Hx Hd]. apply andb_prop in Hv as [Vx Hv].
    apply negb_true_iff in Hx. apply negb_true_iff in Vx.
    cbn [app]. rewrite search_unfold, versionPattern2_skip by assumption.
    now apply IH.
Qed.

Lemma noLetterV_app (a b : jsstring) :
  noLetterV (a ++ b) = noLetterV a && noLetterV b.
Proof. unfold noLetterV. apply forallb_app. Qed.

Lemma digits_noLetterV (d : jsstring) : forallb isDigit d = true -> noLetterV d = true.
Proof.
  unfold noLetterV. induction d as [|x d IH]; intros H; [reflexivity|].
  simpl in *. apply andb_prop in H as [Hx Hd]. rewrite (IH Hd), andb_true_r.
  apply negb_true_iff, N.eqb_neq. unfold canonicalize, isLower, isDigit in *.
  destruct ((97 <=? x) && (x <=? 122)) eqn:E; bool_to_prop; lia.
Qed.

Lemma versionString_noLetterV (a b c : N) : noLetterV (versionString a b c) = true.
Proof.
  unfold versionString. rewrite !noLetterV_app.
  rewrite !(digits_noLetterV _ (numToString_digits _)). reflexivity.
Qed.

Lemma extractVersion_bare (pre : jsstring) (a b c : N) (rest : jsstring) :
  forallb (fun x => negb (isDigit x)) pre = true -> noLetterV pre = true ->
  stopsAt isDigit rest = true -> noLetterV rest = true ->
  extractVersion (pre ++ versionString a b c ++ rest) = versionString a b c.
Proof.
  intros Hd Hv Hrest Vrest. unfold extractVersion, versionPatterns. cbn [firstVersion].
  rewrite versionPattern1_none
    by (rewrite !noLetterV_app, Hv, versionString_noLetterV, Vrest; reflexivity).
  rewrite versionPattern2_search by assumption.
  assert (G : group 1 (<[1%nat := versionString a b c]> ∅) = versionString a b c)
    by reflexivity.
  rewrite G.
  destruct (numeral_head a) as [x [t [E _]]].
  unfold versionString at 1. rewrite E. reflexivity.
Qed.

Lemma isVersionCompatible_version (a b c : N) :
  isVersionCompatible (versionString a b c) = (1 <=? a).
Proof.
  unfold isVersionCompatible.
  assert (U : str_eqb (versionString a b c) (u "unknown") = false).
  { destruct (numeral_head a) as [x [t [E Hx]]]. unfold versionString. rewrite E.
    change (u "unknown") with (117 :: u "nknown"). cbn [app str_eqb].
    replace (x =? 117) with false; [reflexivity|].
    symmetry. apply N.eqb_neq. unfold isDigit in Hx. bool_to_prop. lia. }
  rewrite U. unfold versionString.
  change (u "." ++ ?x) with (46 :: x).
  rewrite split_on_app by (apply digits_exclude; [reflexivity | apply numToString_digits]).
  unfold digitsToNumber. rewrite numToString_digits, parseInt_lt1.
  destruct (a <? 1) eqn:L.
  - apply N.ltb_lt in L. symmetry. apply N.leb_gt. exact L.
  - apply N.ltb_ge in L. symmetry. apply N.leb_le. exact L.
Qed.

(** X19. When the CLI answers [--version] with exit code 0 and prints a
    version "a.b.c" (after a text without digits and without the letter v,
    and followed by something that is not a digit and holds no letter v,
    such as the end of the line), [validateCli] reads exactly this version,
    and reports the CLI available if and only if the major number a is at
    least 1; a version 0.b.c is reported unavailable with the message that
    names the version. *)
Theorem validateCli_reads_bare_version
    (cliPath pre : jsstring) (a b c : N) (rest err : jsstring) :
  forallb (fun x => negb (isDigit x)) pre = true -> noLetterV pre = true ->
  stopsAt isDigit rest = true -> noLetterV rest = true ->
  let info := validateCli cliPath
                (CmdClosed (Some 0%Z) (pre ++ versionString a b c ++ rest) err) in
  CliInfo.version info = Some (versionString a b c) /\
  CliInfo.available info = (1 <=? a) /\
  CliInfo.path info = cliPath /\
  CliInfo.error info
  = if 1 <=? a then None
    else Some (u "Postman CLI version " ++ versionString a b c
               ++ u " is not compatible. Please update to the latest version.").
Proof.
  intros Hd Hv Hrest Vrest info. subst info. unfold validateCli.
  cbn [executeCommand CmdResult.success CmdResult.stdout].
  assert (NE : nonEmpty (pre ++ versionString a b c ++ rest) = true).
  { destruct pre; [|reflexivity]. destruct (numeral_head a) as [x [t [E _]]].
    unfold versionString. rewrite E. reflexivity. }
  rewrite NE. cbn [andb].
  rewrite (extractVersion_bare pre a b c rest Hd Hv Hrest Vrest).
  rewrite isVersionCompatible_version.
  destruct (1 <=? a); repeat split.
Qed.

Lemma validateCli_reads_bare_version_witness :
  CliInfo.version (validateCli (u "/usr/local/bin/postman")
                     (CmdClosed (Some 0%Z) (versionString 0 9 12 ++ [LF]) []))
  = Some (versionString 0 9 12) /\
  CliInfo.available (validateCli (u "/usr/local/bin/postman")
                       (CmdClosed (Some 0%Z) (versionString 0 9 12 ++ [LF]) []))
  = false.
Proof.
  pose proof (validateCli_reads_bare_version (u "/usr/local/bin/postman") [] 0 9 12 [LF] []
                eq_refl eq_refl eq_refl eq_refl) as [V [A _]].
  split; [exact V | exact A].
Defined.

(** X20. [validateCli] never throws, its result always carries the
    configured path, and it reports the CLI available exactly when the
    command exited with code 0, printed something, and the version read
    from the output is compatible. An available CLI has no error message and
    an unavailable one always has one; a run that did not exit with code 0
    or printed nothing (non-zero exit, spawn error, timeout, a throwing
    spawn) has no version. *)
Theorem validateCli_available_iff (cliPath : jsstring) (o : CmdOutcome) :
  let info := validateCli cliPath o in
  CliInfo.path info = cliPath /\
  (CliInfo.available info = true <->
   exists out err, o = CmdClosed (Some 0%Z) out err /\ out <> [] /\
                   isVersionCompatible (extractVersion out) = true) /\
  (CliInfo.available info = true <-> CliInfo.error info = None) /\
  (CliInfo.version info = None <->
   ~ exists out err, o = CmdClosed (Some 0%Z) out err /\ out <> []).
Proof.
  cbv zeta. unfold validateCli.
  assert (NoRun : forall o' : CmdOutcome,
            (forall out err, o' <> CmdClosed (Some 0%Z) out err) ->
            (false = true <->
             exists out err, o' = CmdClosed (Some 0%Z) out err /\ out <> [] /\
                             isVersionCompatible (extractVersion out) = true) /\
            (@None jsstring = None <->
             ~ exists out err, o' = CmdClosed (Some 0%Z) out err /\ out <> [])).
  { intros o' Ho'. split; split.
    - discriminate.
    - intros (out & err & E & _). now contradiction (Ho' out err).
    - intros _ (out & err & E & _). now contradiction (Ho' out err).
    - reflexivity. }
  destruct o as [[[| |]|] out err|m out err|out err|e];
    cbn [executeCommand CmdResult.success CmdResult.stdout andb
         CliInfo.available CliInfo.version CliInfo.path CliInfo.error];
    try (split; [reflexivity|];
         match goal with
         | |- (false = true <-> (exists out err, ?o' = _ /\ _)) /\ _ =>
             destruct (NoRun o') as [A B]; [intros ? ?; discriminate|];
             split; [exact A | split; [split; discriminate | exact B]]
         end).
  destruct out as [|x out];
    cbn [nonEmpty CliInfo.available CliInfo.version CliInfo.path CliInfo.error].
  - split; [reflexivity|]. split; [|split]; split; try discriminate; try reflexivity.
    + intros (out' & err' & E & Hne & _). injection E as <- _. now contradiction Hne.
    + intros _ (out' & err' & E & Hne). injection E as <- _. now contradiction Hne.
  - destruct (isVersionCompatible (extractVersion (x :: out))) eqn:C;
      cbn [negb CliInfo.available CliInfo.version CliInfo.path CliInfo.error];
      (split; [reflexivity|]); (split; [|split]); split;
      try discriminate; try reflexivity.
    + intros _. exists (x :: out), err. split; [reflexivity|]. split; [discriminate | exact C].
    + intros H. contradiction H. exists (x :: out), err. split; [reflexivity|discriminate].
    + intros (out' & err' & E & _ & C'). injection E as <- _. congruence.
    + intros H. contradiction H. exists (x :: out), err. split; [reflexivity|discriminate].
Qed.

(** X21. [validateLintCommand] never throws and succeeds exactly when
    [api lint --help] exited with code 0, whatever it printed; it carries an
    error message exactly when it fails. *)
Theorem validateLintCommand_success_iff (o : CmdOutcome) :
  (fst (validateLintCommand o) = true <->
   exists out err, o = CmdClosed (Some 0%Z) out err) /\
  (fst (validateLintCommand o) = true <-> snd (validateLintCommand o) = None).
Proof.
  unfold validateLintCommand.
  destruct o as [[[| |]|] out err|m out err|out err|e]; cbn;
    (split; split); try discriminate; try reflexivity;
    try (intros (out' & err' & E); discriminate E).
  intros _. now exists out, err.
Qed.

(** ** The authentication manager *)

Lemma aliasIsDefault_notNull (p : JValue) :
  notNull p = true -> aliasIsDefault p = Normal (hasDefaultAlias p).
Proof.
  destruct p as [|b|q|s|items|props]; intros H; try discriminate H; try reflexivity.
  unfold aliasIsDefault, hasDefaultAlias, getProp.
  destruct (lookupProp (u "alias") props) as [[|b|q|s|items|props']|]; reflexivity.
Qed.

Lemma arrayFind_notNull (ps : list JValue) :
  forallb notNull ps = true ->
  arrayFind aliasIsDefault ps = Normal (List.find hasDefaultAlias ps).
Proof.
  induction ps as [|p ps IH]; intros H; [reflexivity|].
  simpl in H. apply andb_prop in H as [Hp Hps].
  cbn [arrayFind List.find]. rewrite (aliasIsDefault_notNull p Hp).
  destruct (hasDefaultAlias p); [reflexivity | now apply IH].
Qed.

Lemma hasDefaultAlias_truthy (p : JValue) :
  hasDefaultAlias p = true -> truthy (Some p) = true.
Proof. destruct p; try discriminate; reflexivity. Qed.

Lemma length_gtZero (cgz : JValue -> Completion bool) (n : nat) :
  gtZero cgz (Some (JNum (inject_Z (Z.of_nat n))))
  = Normal (match n with O => false | S _ => true end).
Proof.
  unfold gtZero. f_equal. destruct n as [|n]; [reflexivity|].
  apply negb_true_iff. destruct (Qle_bool _ _) eqn:E; [|reflexivity].
  apply Qle_bool_iff in E. unfold Qle in E. cbn in E. lia.
Qed.

Lemma profilesOf_rcWithProfiles (cgz : JValue -> Completion bool) (ps : list JValue) :
  profilesOf cgz (JObj [(u "login", JObj [(u "_profiles", JArr ps)])])
  = ([], Normal (match ps with [] => None | _ => Some (Some (JArr ps)) end)).
Proof.
  unfold profilesOf.
  change (getProp (Some (JObj [(u "login", JObj [(u "_profiles", JArr ps)])])) (u "login"))
    with (Normal (Some (JObj [(u "_profiles", JArr ps)]))).
  unfold lift at 1. cbn [bind truthy].
  change (getProp (Some (JObj [(u "_profiles", JArr ps)])) (u "_profiles"))
    with (Normal (Some (JArr ps))).
  unfold lift at 1. cbn [bind truthy].
  change (getProp (Some (JArr ps)) (u "length"))
    with (Normal (Some (JNum (inject_Z (Z.of_nat (length ps)))))).
  unfold lift at 1. cbn [bind].
  rewrite length_gtZero. unfold lift. cbn [bind].
  destruct ps; reflexivity.
Qed.

Lemma key_of_profile (p : JValue) :
  notNull p = true ->
  (if truthy (Some p)
   then bind (lift (getProp (Some p) (u "postmanApiKey")))
          (fun key => if truthy key then ret key else ret None)
   else ret None)
  = ([], Normal (storedKey p)).
Proof.
  destruct p as [|b|q|s|items|props]; intros H; try discriminate H.
  - destruct b; reflexivity.
  - cbn [truthy]. destruct (negb (Qeq_bool q 0)); reflexivity.
  - cbn [truthy]. destruct (nonEmpty s); reflexivity.
  - reflexivity.
  - cbn [truthy getProp storedKey]. unfold lift. cbn [bind].
    destruct (truthy (lookupProp (u "postmanApiKey") props)); reflexivity.
Qed.

(** X22. For a readable postmanrc whose profile list holds no null entry,
    [getPostmanApiKey] returns the key stored in the first profile aliased
    'default' or, when no profile has that alias, in the first profile of
    the list; when that one profile stores no key the result is null,
    whatever keys the other profiles store. Nothing is logged. *)
Theorem api_key_comes_from_selected_profile
    (cgz : JValue -> Completion bool) (ps : list JValue) :
  forallb notNull ps = true ->
  getPostmanApiKey cgz (rcWithProfiles ps)
  = ([], Normal (match List.find hasDefaultAlias ps with
                 | Some p => storedKey p
                 | None => match ps with p :: _ => storedKey p | [] => None end
                 end)).
Proof.
  intros H. unfold getPostmanApiKey, rcWithProfiles.
  cbn [RcFile.accessible negb readConfig RcFile.parsed].
  unfold ret at 1. cbn [bind]. rewrite profilesOf_rcWithProfiles.
  destruct ps as [|p0 ps']; [reflexivity|].
  set (ps := p0 :: ps') in *.
  cbn [bind app]. unfold selectProfile. rewrite (arrayFind_notNull ps H).
  unfold lift at 1. cbn [bind app].
  destruct (List.find hasDefaultAlias ps) as [p|] eqn:F.
  - apply find_some in F as [Hin Hp].
    rewrite (hasDefaultAlias_truthy p Hp).
    assert (Np : notNull p = true) by (destruct p; try discriminate; reflexivity).
    pose proof (key_of_profile p Np) as K.
    rewrite (hasDefaultAlias_truthy p Hp) in K. rewrite K.
    rewrite (hasDefaultAlias_truthy p Hp). reflexivity.
  - cbn [truthy]. unfold ps. cbn [head].
    assert (N0 : notNull p0 = true) by (simpl in H; now apply andb_prop in H as [? _]).
    rewrite (key_of_profile p0 N0). reflexivity.
Qed.

Lemma api_key_comes_from_selected_profile_witness :
  getPostmanApiKey noConversion
    (rcWithProfiles [profileOf (u "work") (u "PMAK-work");
                     profileOf (u "default") (u "PMAK-default")])
  = ([], Normal (Some (JStr (u "PMAK-default")))).
Proof.
  exact (api_key_comes_from_selected_profile noConversion
           [profileOf (u "work") (u "PMAK-work");
            profileOf (u "default") (u "PMAK-default")] eq_refl).
Defined.

Lemma bind_ret_l {A B} (a : A) (f : A -> M B) : bind ([], Normal a) f = f a.
Proof. unfold bind. destruct (f a); reflexivity. Qed.

Lemma bind_ret {A B} (a : A) (f : A -> M B) : bind (ret a) f = f a.
Proof. apply bind_ret_l. Qed.

Lemma profilesOf_silent (cgz : JValue -> Completion bool) (config : JValue) :
  exists r, profilesOf cgz config = ([], r).
Proof.
  unfold profilesOf, lift.
  destruct (getProp (Some config) (u "login")) as [login|e];
    [rewrite bind_ret_l | eexists; reflexivity].
  destruct (truthy login); [|eexists; reflexivity].
  destruct (getProp login (u "_profiles")) as [profiles|e];
    [rewrite bind_ret_l | eexists; reflexivity].
  destruct (truthy profiles); [|eexists; reflexivity].
  destruct (getProp profiles (u "length")) as [len|e];
    [rewrite bind_ret_l | eexists; reflexivity].
  destruct (gtZero cgz len) as [[|]|e]; eexists; reflexivity.
Qed.

Lemma arrayFind_null (pre post : list JValue) :
  forallb notNull pre = true -> List.find hasDefaultAlias pre = None ->
  exists e, arrayFind aliasIsDefault (pre ++ JNull :: post) = Throw e.
Proof.
  induction pre as [|p pre IH]; intros Hn Hf.
  - eexists. reflexivity.
  - simpl in Hn. apply andb_prop in Hn as [Hp Hn]. cbn [List.find] in Hf.
    cbn [arrayFind app]. rewrite (aliasIsDefault_notNull p Hp).
    destruct (hasDefaultAlias p); [discriminate Hf | now apply IH].
Qed.

Lemma getPostmanApiKey_cases (cgz : JValue -> Completion bool) (rc : RcFile.t) :
  (exists v, getPostmanApiKey cgz rc = ([], Normal v) /\ (v = None \/ truthy v = true)) \/
  (exists e, getPostmanApiKey cgz rc
             = ([ConsoleWarn (u "Failed to read Postman API key: " ++ errorToString e)],
                Normal None)).
Proof.
  unfold getPostmanApiKey, readConfig.
  destruct (RcFile.accessible rc); cbn [negb];
    [|left; exists None; split; [reflexivity | now left]].
  destruct (RcFile.parsed rc) as [e|config]; [right; exists e; reflexivity|].
  rewrite bind_ret.
  destruct (profilesOf_silent cgz config) as [[[profiles|]|e] ->];
    [rewrite bind_ret_l
    |left; exists None; split; [reflexivity | now left]
    |right; exists e; reflexivity].
  unfold lift.
  destruct (selectProfile profiles) as [profile|e];
    [rewrite bind_ret_l | right; exists e; reflexivity].
  destruct (truthy profile); [|left; exists None; split; [reflexivity | now left]].
  destruct (getProp profile (u "postmanApiKey")) as [key|e];
    [rewrite bind_ret_l | right; exists e; reflexivity].
  destruct (truthy key) eqn:T; left.
  - exists key. split; [reflexivity | now right].
  - exists None. split; [reflexivity | now left].
Qed.

(** X23. [getPostmanApiKey] never throws: it returns null or a value that
    counts as true, and logs one warning exactly in the runs where an
    exception was caught (the result is null then). A file that cannot be
    accessed gives null without a warning; a file that cannot be read or is
    not valid JSON gives null with the warning that carries the error. *)
Theorem getPostmanApiKey_never_throws (cgz : JValue -> Completion bool) (rc : RcFile.t) :
  ((exists v, getPostmanApiKey cgz rc = ([], Normal v) /\ (v = None \/ truthy v = true)) \/
   (exists e, getPostmanApiKey cgz rc
              = ([ConsoleWarn (u "Failed to read Postman API key: " ++ errorToString e)],
                 Normal None))) /\
  (RcFile.accessible rc = false -> getPostmanApiKey cgz rc = ([], Normal None)) /\
  (forall e, RcFile.accessible rc = true -> RcFile.parsed rc = inl e ->
     getPostmanApiKey cgz rc
     = ([ConsoleWarn (u "Failed to read Postman API key: " ++ errorToString e)],
        Normal None)).
Proof.
  split; [apply getPostmanApiKey_cases|]. split.
  - intros H. unfold getPostmanApiKey. rewrite H. reflexivity.
  - intros e Ha Hp. unfold getPostmanApiKey, readConfig. rewrite Ha, Hp. reflexivity.
Qed.

(** X24. A null entry in the profile list that comes before any profile
    aliased 'default' makes [getPostmanApiKey] return null with a warning,
    whatever profiles and keys follow it: the search for the default profile
    throws on the null entry. *)
Theorem null_profile_hides_the_key
    (cgz : JValue -> Completion bool) (pre post : list JValue) :
  forallb notNull pre = true -> List.find hasDefaultAlias pre = None ->
  exists e,
    getPostmanApiKey cgz (rcWithProfiles (pre ++ JNull :: post))
    = ([ConsoleWarn (u "Failed to read Postman API key: " ++ errorToString e)],
       Normal None).
Proof.
  intros Hn Hf. destruct (arrayFind_null pre post Hn Hf) as [e He]. exists e.
  unfold getPostmanApiKey, rcWithProfiles.
  cbn [RcFile.accessible negb readConfig RcFile.parsed].
  rewrite bind_ret, profilesOf_rcWithProfiles.
  assert (Ne : match pre ++ JNull :: post with
               | [] => None
               | _ :: _ => Some (Some (JArr (pre ++ JNull :: post)))
               end = Some (Some (JArr (pre ++ JNull :: post))))
    by now destruct pre.
  rewrite Ne, bind_ret_l. unfold selectProfile. rewrite He. reflexivity.
Qed.

Lemma null_profile_hides_the_key_witness :
  exists e,
    getPostmanApiKey noConversion
      (rcWithProfiles ([profileOf (u "work") (u "PMAK-work")]
                       ++ JNull :: [profileOf (u "default") (u "PMAK-default")]))
    = ([ConsoleWarn (u "Failed to read Postman API key: " ++ errorToString e)],
       Normal None).
Proof.
  exact (null_profile_hides_the_key noConversion
           [profileOf (u "work") (u "PMAK-work")]
           [profileOf (u "default") (u "PMAK-default")] eq_refl eq_refl).
Defined.

Ltac auth_leaf :=
  eexists; split; [reflexivity|];
  cbn [AuthStatus.isAuthenticated AuthStatus.apiKey AuthStatus.profile
       AuthStatus.error trace result fst snd];
  repeat match goal with
         | |- _ /\ _ => split
         | |- _ <-> _ => split
         end;
  try discriminate; try reflexivity; try (intros; discriminate);
  try (intros _; repeat split; try assumption; try reflexivity; eauto).

(** X25. [getAuthStatus] never throws and logs only what its call of
    [getPostmanApiKey] logs. It reports an authenticated status exactly
    when it reports no error; an authenticated status carries the key that
    [getPostmanApiKey] returned, which counts as true, and a profile name
    that counts as true, and needs the second read of the file to succeed;
    an unauthenticated status carries neither key nor profile. *)
Theorem getAuthStatus_consistent
    (cgz : JValue -> Completion bool) (first second : RcFile.t) :
  exists s,
    getAuthStatus cgz first second = (trace (getPostmanApiKey cgz first), Normal s) /\
    (AuthStatus.isAuthenticated s = true <-> AuthStatus.error s = None) /\
    (AuthStatus.isAuthenticated s = true ->
       result (getPostmanApiKey cgz first) = Normal (AuthStatus.apiKey s) /\
       truthy (AuthStatus.apiKey s) = true /\
       truthy (AuthStatus.profile s) = true /\
       exists config, RcFile.parsed second = inr config) /\
    (AuthStatus.isAuthenticated s = false ->
       AuthStatus.apiKey s = None /\ AuthStatus.profile s = None).
Proof.
  unfold getAuthStatus.
  destruct (getPostmanApiKey_cases cgz first) as [(v & -> & Hv)|(e & ->)].
  2:{ auth_leaf. }
  rewrite bind_ret_l. destruct (truthy v) eqn:T; cbn [negb]; [|auth_leaf].
  unfold readConfig. destruct (RcFile.parsed second) as [e|config]; [auth_leaf|].
  rewrite bind_ret.
  destruct (profilesOf_silent cgz config) as [[[profiles|]|e] ->]; [| |auth_leaf].
  2:{ rewrite bind_ret_l. rewrite bind_ret. auth_leaf. }
  rewrite bind_ret_l. unfold lift.
  destruct (selectProfile profiles) as [activeProfile|e]; [rewrite bind_ret_l|auth_leaf].
  destruct (getProp activeProfile (u "alias")) as [alias|e]; [rewrite bind_ret_l|auth_leaf].
  destruct (truthy alias) eqn:Ta.
  { rewrite bind_ret. auth_leaf. }
  destruct (getProp activeProfile (u "id")) as [id|e]; [rewrite bind_ret_l|auth_leaf].
  destruct (truthy id) eqn:Ti; rewrite bind_ret; auth_leaf.
Qed.

(** X26. The key alone does not authenticate: when [getPostmanApiKey] found
    a key but the file can no longer be read or parsed at the second read,
    [getAuthStatus] reports an unauthenticated status without the key, with
    the error of the read. *)
Theorem auth_status_depends_on_second_read
    (cgz : JValue -> Completion bool) (first second : RcFile.t)
    (key : JsValue) (e : JsError) :
  getPostmanApiKey cgz first = ([], Normal key) -> truthy key = true ->
  RcFile.parsed second = inl e ->
  getAuthStatus cgz first second
  = ([], Normal {| AuthStatus.isAuthenticated := false;
                   AuthStatus.apiKey := None;
                   AuthStatus.profile := None;
                   AuthStatus.error :=
                     Some (u "Failed to check authentication: " ++ errorToString e) |}).
Proof.
  intros Hk Ht Hp. unfold getAuthStatus, readConfig.
  rewrite Hk, bind_ret_l, Ht, Hp. reflexivity.
Qed.

Lemma auth_status_depends_on_second_read_witness :
  AuthStatus.isAuthenticated
    (match result (getAuthStatus noConversion
                     (rcWithProfiles [profileOf (u "default") (u "PMAK-default")])
                     {| RcFile.accessible := true; RcFile.parsed := inl spawnENOENT |}) with
     | Normal s => s
     | Throw _ => {| AuthStatus.isAuthenticated := true; AuthStatus.apiKey := None;
                     AuthStatus.profile := None; AuthStatus.error := None |}
     end) = false.
Proof.
  rewrite (auth_status_depends_on_second_read noConversion
             (rcWithProfiles [profileOf (u "default") (u "PMAK-default")])
             {| RcFile.accessible := true; RcFile.parsed := inl spawnENOENT |}
             (Some (JStr (u "PMAK-default"))) spawnENOENT eq_refl eq_refl eq_refl).
  reflexivity.
Defined.
